(** * Agent Task Execution Engine: executor loop, streaming, queue worker, tracker

    A shallow embedding of the TypeScript service:
    - [src/utils/errors.ts]                     -> [Errors]
    - [src/config/environment.ts],
      [src/config/anthropic.config.ts]          -> [Config]
    - [src/agent/context/agent-context.ts]      -> [Context]
    - [src/agent/streaming/sse-manager.ts]      -> [SSE]
    - [src/agent/streaming/stream-formatter.ts] -> [StreamFormatter]
    - [src/agent/agent-executor.ts]             -> [Executor]
    - [src/services/task-tracker.service.ts]    -> [Tracker]
    - [src/queue/task-queue.ts],
      [src/queue/workers/agent-worker.ts]       -> [Queue], [JobStatus]
    - [src/api/controllers/agent.controller.ts] -> [Controller]
    - [src/services/firestore.service.ts]       -> [Firestore]

    What lies outside the service is kept abstract or modelled by what the
    service observes of it: the model behind the SDK client is a function from
    the conversation to a settled completion; the tools of the registry are
    functions over the documents they read and write; Firestore's [update]
    and [set], the timers of the runtime and the retry loop of the queue
    broker follow their documented behaviour.

    Conventions.  A promise is modelled by its settlement ([Settled]) and the
    time it takes; wall-clock quantities are milliseconds in [N]; counts are
    [nat].  JavaScript objects used as dictionaries are [gmap]s with string
    keys, plain data objects are [Json] values.  Logging is left out. *)

From Stdlib Require Import Ascii String NArith Lia.
From stdpp Require Import base option list strings gmap pretty.

Open Scope string_scope.

(** ** JSON values and [JSON.stringify] *)

Module JSON.

#[local] Unset Elimination Schemes.
Inductive Json : Type :=
| JNull
| JBool (b : bool)
| JNum (n : Z)
| JStr (s : string)
| JArr (items : list Json)
| JObj (fields : list (string * Json)).
#[local] Set Elimination Schemes.

Definition dquote : ascii := Ascii.ascii_of_nat 34.
Definition backslash : ascii := Ascii.ascii_of_nat 92.

Definition hex_digit (n : nat) : ascii :=
  match n with
  | 0 => "0" | 1 => "1" | 2 => "2" | 3 => "3" | 4 => "4" | 5 => "5"
  | 6 => "6" | 7 => "7" | 8 => "8" | 9 => "9" | 10 => "a" | 11 => "b"
  | 12 => "c" | 13 => "d" | 14 => "e" | _ => "f"
  end%char.

(** QuoteJSONString: the escapes of one code unit. *)
Definition escape_char (c : ascii) : string :=
  let n := Ascii.nat_of_ascii c in
  if Nat.eqb n 34 then String backslash (String dquote EmptyString)
  else if Nat.eqb n 92 then String backslash (String backslash EmptyString)
  else if Nat.eqb n 8 then String backslash "b"
  else if Nat.eqb n 12 then String backslash "f"
  else if Nat.eqb n 10 then String backslash "n"
  else if Nat.eqb n 13 then String backslash "r"
  else if Nat.eqb n 9 then String backslash "t"
  else if Nat.ltb n 32 then
    String backslash
      ("u00" +:+ String (hex_digit (n / 16)) (String (hex_digit (n mod 16)) EmptyString))
  else String c EmptyString.

Fixpoint escape (s : string) : string :=
  match s with
  | EmptyString => EmptyString
  | String c rest => escape_char c +:+ escape rest
  end.

Definition quote (s : string) : string :=
  String dquote (escape s) +:+ String dquote EmptyString.

Fixpoint join (sep : string) (parts : list string) : string :=
  match parts with
  | [] => ""
  | [p] => p
  | p :: rest => p +:+ sep +:+ join sep rest
  end.

(** [JSON.stringify(value)] without indentation. *)
Fixpoint stringify (j : Json) : string :=
  match j with
  | JNull => "null"
  | JBool true => "true"
  | JBool false => "false"
  | JNum n => pretty n
  | JStr s => quote s
  | JArr items => "[" +:+ join "," (map stringify items) +:+ "]"
  | JObj fields =>
      "{" +:+ join "," (map (fun kv => quote (fst kv) +:+ ":" +:+ stringify (snd kv)) fields)
          +:+ "}"
  end.

(** An object literal in which a property whose value is [undefined] is
    left out, as [JSON.stringify] does. *)
Definition obj (fields : list (string * option Json)) : Json :=
  JObj (omap (fun kv => match snd kv with
                        | Some v => Some (fst kv, v)
                        | None => None
                        end) fields).

Definition num (n : nat) : Json := JNum (Z.of_nat n).
Definition numN (n : N) : Json := JNum (Z.of_N n).

End JSON.
Import JSON.

(** ** Promise settlement *)

Inductive Settled (E A : Type) : Type :=
| Resolved (value : A)
| Rejected (reason : E).
Arguments Resolved {E A} value.
Arguments Rejected {E A} reason.

(** ** src/utils/errors.ts *)

Module Errors.

(** The classes an error value can be an instance of.  [Foreign] stands for
    the errors of libraries (the model SDK, Firestore, zod). *)
Inductive ErrorClass : Type :=
| PlainError
| AppError
| ValidationError
| NotFoundError
| UnauthorizedError
| ForbiddenError
| AgentExecutionError
| FirestoreError
| ConfigurationError
| TimeoutError
| Foreign (constructor_name : string).

Record JsError : Type := mkError {
  cls : ErrorClass;
  message : string;
  details : option Json
}.

(** [this.name = this.constructor.name] *)
Definition name (e : JsError) : string :=
  match cls e with
  | PlainError => "Error"
  | AppError => "AppError"
  | ValidationError => "ValidationError"
  | NotFoundError => "NotFoundError"
  | UnauthorizedError => "UnauthorizedError"
  | ForbiddenError => "ForbiddenError"
  | AgentExecutionError => "AgentExecutionError"
  | FirestoreError => "FirestoreError"
  | ConfigurationError => "ConfigurationError"
  | TimeoutError => "TimeoutError"
  | Foreign n => n
  end.

(** The [code] each subclass hands to the [AppError] constructor. *)
Definition code (e : JsError) : option string :=
  match cls e with
  | PlainError | Foreign _ => None
  | AppError => Some "INTERNAL_ERROR"
  | ValidationError => Some "VALIDATION_ERROR"
  | NotFoundError => Some "NOT_FOUND"
  | UnauthorizedError => Some "UNAUTHORIZED"
  | ForbiddenError => Some "FORBIDDEN"
  | AgentExecutionError => Some "AGENT_EXECUTION_ERROR"
  | FirestoreError => Some "FIRESTORE_ERROR"
  | ConfigurationError => Some "CONFIGURATION_ERROR"
  | TimeoutError => Some "TIMEOUT_ERROR"
  end.

Definition statusCode (e : JsError) : option nat :=
  match cls e with
  | PlainError | Foreign _ => None
  | ValidationError => Some 400
  | NotFoundError => Some 404
  | UnauthorizedError => Some 401
  | ForbiddenError => Some 403
  | TimeoutError => Some 408
  | AppError | AgentExecutionError | FirestoreError | ConfigurationError => Some 500
  end.

(** [new Error(message)] *)
Definition newError (msg : string) : JsError := mkError PlainError msg None.

(** [new AgentExecutionError(message, details)] *)
Definition newAgentExecutionError (msg : string) (d : Json) : JsError :=
  mkError AgentExecutionError msg (Some d).

(** [new TimeoutError(message)] *)
Definition newTimeoutError (msg : string) : JsError := mkError TimeoutError msg None.

(** [error instanceof TimeoutError]; no class extends [TimeoutError]. *)
Definition instanceofTimeoutError (e : JsError) : bool :=
  match cls e with
  | TimeoutError => true
  | _ => false
  end.

End Errors.

Definition Promise (A : Type) : Type := Settled Errors.JsError A.

(** ** src/config/environment.ts and src/config/anthropic.config.ts *)

Module Config.

(** The part of the validated environment the engine reads. *)
Record Environment : Type := mkEnv {
  QUEUE_CONCURRENCY : nat;
  QUEUE_MAX_RETRIES : nat;
  AGENT_TIMEOUT_MS : N
}.

(** The defaults of [envSchema]. *)
Definition default_env : Environment :=
  {| QUEUE_CONCURRENCY := 3; QUEUE_MAX_RETRIES := 3; AGENT_TIMEOUT_MS := 120000 |}.

(** The bounds [envSchema] enforces ([min]/[max] of each entry). *)
Definition env_valid (env : Environment) : Prop :=
  1 <= QUEUE_CONCURRENCY env <= 10 /\
  QUEUE_MAX_RETRIES env <= 10 /\
  (1000 <= AGENT_TIMEOUT_MS env <= 600000)%N.

Record ClaudeConfig : Type := mkClaudeConfig {
  MAX_TOKENS : nat;
  TEMPERATURE : nat;
  MAX_ITERATIONS : nat
}.

Definition CLAUDE_CONFIG : ClaudeConfig :=
  {| MAX_TOKENS := 4096; TEMPERATURE := 0; MAX_ITERATIONS := 20 |}.

End Config.

(** ** src/agent/context/agent-context.ts *)

Module Context.

Record AgentContext : Type := mkContext {
  userId : string;           (* User ID for scoping all operations *)
  taskId : string;           (* Task ID for tracking *)
  conversationId : option string;
  metadata : option (gmap string Json)
}.

Record ContextOptions : Type := mkOptions {
  opt_conversationId : option string;
  opt_metadata : option (gmap string Json)
}.

(** JavaScript truthiness of an optional string: [undefined] and the empty
    string are falsy. *)
Definition truthy (s : option string) : option string :=
  match s with
  | Some "" => None
  | other => other
  end.

(** [createAgentContext(userId, taskId, options?)]: the first positional
    argument becomes [userId], the second [taskId]. *)
Definition createAgentContext (userId taskId : string)
    (options : option ContextOptions) : AgentContext :=
  {| userId := userId;
     taskId := taskId;
     conversationId := truthy (options ≫= opt_conversationId);
     metadata := options ≫= opt_metadata |}.

End Context.

(** ** src/agent/streaming/sse-manager.ts *)

Module SSE.

Inductive SSEEventType : Type :=
| PROGRESS
| TOOL_USE
| THINKING
| COMPLETE
| ERROR
| PING.

(** The string value of each enum member. *)
Definition type_value (t : SSEEventType) : string :=
  match t with
  | PROGRESS => "progress"
  | TOOL_USE => "tool_use"
  | THINKING => "thinking"
  | COMPLETE => "complete"
  | ERROR => "error"
  | PING => "ping"
  end.

(** [timestamp] is optional on the way in; [sendEvent] fills it in on a copy
    of the event but serialises only [data], so it never reaches the wire. *)
Record SSEEvent : Type := mkEvent {
  type : SSEEventType;
  data : Json;
  timestamp : option string
}.

(** The express [Response] as far as the manager uses it: the headers set,
    the chunks written, whether [end()] was called, and whether the
    underlying stream is in a state in which [write] throws. *)
Record Response : Type := mkResponse {
  headers : list (string * string);
  written : list string;
  ended : bool;
  write_throws : bool
}.

Definition setHeader (r : Response) (k v : string) : Response :=
  {| headers := headers r ++ [(k, v)]; written := written r;
     ended := ended r; write_throws := write_throws r |}.

(** [response.write(chunk)]: [None] when the call throws. *)
Definition write (r : Response) (chunk : string) : option Response :=
  if write_throws r then None
  else Some {| headers := headers r; written := written r ++ [chunk];
               ended := ended r; write_throws := write_throws r |}.

(** [response.end()] *)
Definition end_ (r : Response) : Response :=
  {| headers := headers r; written := written r;
     ended := true; write_throws := write_throws r |}.

(** [pingInterval] is [true] while the interval timer is armed. *)
Record SSEManager : Type := mkManager {
  response : Response;
  clientId : string;
  isClosed : bool;
  pingInterval : bool
}.

Definition with_response (m : SSEManager) (r : Response) : SSEManager :=
  {| response := r; clientId := clientId m;
     isClosed := isClosed m; pingInterval := pingInterval m |}.

Definition newline : string := String (Ascii.ascii_of_nat 10) EmptyString.

Definition formatSSEMessage (event data : string) : string :=
  "event: " +:+ event +:+ newline +:+ "data: " +:+ data +:+ newline +:+ newline.

(** The chunk [sendEvent] writes for an event. *)
Definition wire (e : SSEEvent) : string :=
  formatSSEMessage (type_value (type e)) (stringify (data e)).

(** [sendEvent(event)]: returns at once on a closed connection; otherwise
    writes the formatted message, and a throwing [write] is caught and
    logged.  In every case the call returns normally. *)
Definition sendEvent (m : SSEManager) (event : SSEEvent) : SSEManager :=
  if isClosed m then m
  else
    match write (response m) (wire event) with
    | Some r => with_response m r
    | None => m
    end.

Definition sendProgress (m : SSEManager) (msg : string) (progress : option nat) : SSEManager :=
  sendEvent m {| type := PROGRESS;
                 data := obj [("message", Some (JStr msg)); ("progress", num <$> progress)];
                 timestamp := None |}.

Definition sendToolUse (m : SSEManager) (toolName : string) (input : Json)
    (output : option string) : SSEManager :=
  sendEvent m {| type := TOOL_USE;
                 data := obj [("toolName", Some (JStr toolName)); ("input", Some input);
                              ("output", JStr <$> output)];
                 timestamp := None |}.

Definition sendThinking (m : SSEManager) (content : string) : SSEManager :=
  sendEvent m {| type := THINKING;
                 data := obj [("content", Some (JStr content))];
                 timestamp := None |}.

Definition sendComplete (m : SSEManager) (result : Json) : SSEManager :=
  sendEvent m {| type := COMPLETE; data := result; timestamp := None |}.

Definition sendError (m : SSEManager) (msg : string) (code : option string) : SSEManager :=
  sendEvent m {| type := ERROR;
                 data := obj [("message", Some (JStr msg)); ("code", JStr <$> code)];
                 timestamp := None |}.

(** [close()] *)
Definition close (m : SSEManager) : SSEManager :=
  if isClosed m then m
  else {| response := end_ (response m); clientId := clientId m;
          isClosed := true; pingInterval := false |}.

(** [get closed()] *)
Definition closed (m : SSEManager) : bool := isClosed m.

(** [handleDisconnect()], the listener of the response's [close] event. *)
Definition handleDisconnect (m : SSEManager) : SSEManager :=
  if isClosed m then m
  else {| response := response m; clientId := clientId m;
          isClosed := true; pingInterval := false |}.

Definition PING_INTERVAL_MS : N := 15000.

Definition pingEvent : SSEEvent :=
  {| type := PING; data := JObj [("alive", JBool true)]; timestamp := None |}.

(** One firing of the interval callback of [startPingInterval]; a cleared
    interval does not fire. *)
Definition pingTick (m : SSEManager) : SSEManager :=
  if pingInterval m then
    if negb (isClosed m) then sendEvent m pingEvent else m
  else m.

(** [setupSSE()] *)
Definition setupSSE (r : Response) : Response :=
  setHeader (setHeader (setHeader (setHeader r
    "Content-Type" "text/event-stream")
    "Cache-Control" "no-cache")
    "Connection" "keep-alive")
    "X-Accel-Buffering" "no".

(** [new SSEManager(response, clientId)] / [createSSEManager] *)
Definition createSSEManager (r : Response) (clientId : string) : SSEManager :=
  {| response := setupSSE r; clientId := clientId;
     isClosed := false; pingInterval := true |}.

(** The interval callbacks that fire in the time window [(t0, t]], the
    manager having been created at time 0. *)
Definition pings (m : SSEManager) (t0 t : N) : SSEManager :=
  Nat.iter (N.to_nat (t / PING_INTERVAL_MS - t0 / PING_INTERVAL_MS)) pingTick m.

End SSE.

(** ** The model SDK's message types (the subset the executor reads) *)

Module Anthropic.

Inductive StopReason : Type :=
| end_turn
| max_tokens
| stop_sequence
| tool_use
| other_stop.        (* any further value the SDK may report, or null *)

Inductive ContentBlock : Type :=
| TextBlock (text : string)
| ToolUseBlock (id name : string) (input : Json)
| OtherBlock (block_type : string).

Record Usage : Type := mkUsage {
  input_tokens : nat;
  output_tokens : nat
}.

Record Message : Type := mkMessage {
  content : list ContentBlock;
  stop_reason : StopReason;
  usage : option Usage
}.

(** One element of a tool's [content] array. *)
Record ContentPart : Type := mkPart {
  part_type : string;
  part_text : string
}.

Inductive ResultContent : Type :=
| ContentString (s : string)
| ContentParts (parts : list ContentPart).

Record ToolResultBlockParam : Type := mkToolResult {
  tool_use_id : string;
  result_content : ResultContent;
  is_error : option bool
}.

Inductive Role : Type := user | assistant.

Inductive ParamContent : Type :=
| OfString (s : string)
| OfBlocks (blocks : list ContentBlock)
| OfToolResults (results : list ToolResultBlockParam).

Record MessageParam : Type := mkParam {
  role : Role;
  param_content : ParamContent
}.

(** One call [client.messages.create(...)]: how the promise settles and
    after how many milliseconds.  The SDK client is built with its own
    request timeout, so every call settles. *)
Record Completion : Type := mkCompletion {
  settles : Promise Message;
  latency : N
}.

(** The model seen from the executor: the conversation sent determines the
    completion.  Model, token limit, temperature, system prompt and tool
    schemas are the same in every call of one executor. *)
Definition Client : Type := list MessageParam -> Completion.

End Anthropic.

(** ** The tool registry (src/tools/index.ts) as the executor sees it *)

Module Tools.
Import Anthropic Context.

(** The documents the tools read and write: collection, then document id. *)
Definition Documents : Type := gmap string (gmap string Json).

(** What a tool's [execute] resolves to. *)
Record ToolOutput : Type := mkOutput {
  output_content : list ContentPart;
  output_is_error : option bool
}.

(** One call [tool.execute(input, context)]. *)
Record Execution : Type := mkExecution {
  outcome : Promise ToolOutput;
  duration : N;
  documents : Documents
}.

Record Tool : Type := mkTool {
  name : string;
  description : string;
  input_schema : Json;
  execute : Json -> AgentContext -> Documents -> Execution
}.

End Tools.

(** ** src/agent/streaming/stream-formatter.ts *)

Module StreamFormatter.
Import Anthropic SSE.

(** The event, if any, [streamAgentResponse] sends for one content block. *)
Definition blockEvent (block : ContentBlock) : option SSEEvent :=
  match block with
  | TextBlock text =>
      Some {| type := THINKING; data := obj [("content", Some (JStr text))];
              timestamp := None |}
  | ToolUseBlock _ name input =>
      Some {| type := TOOL_USE;
              data := obj [("toolName", Some (JStr name)); ("input", Some input);
                           ("output", None)];
              timestamp := None |}
  | OtherBlock _ => None
  end.

(** The events of [streamAgentResponse(response, sseManager)], in order. *)
Definition agentResponseEvents (response : Message) : list SSEEvent :=
  omap blockEvent (content response).

(** [streamAgentResponse(response, sseManager)] *)
Definition streamAgentResponse (response : Message) (m : SSEManager) : SSEManager :=
  foldl (fun m block =>
           match block with
           | TextBlock text => sendThinking m text
           | ToolUseBlock _ name input => sendToolUse m name input None
           | OtherBlock _ => m
           end) m (content response).

(** The text [streamToolResult] reports for a tool's content. *)
Definition resultText (parts : list ContentPart) : string :=
  match find (fun c => String.eqb (part_type c) "text") parts with
  | Some textContent => part_text textContent
  | None => "Tool executed"
  end.

Definition toolResultEvent (toolName toolId : string) (parts : list ContentPart) : SSEEvent :=
  {| type := TOOL_USE;
     data := obj [("toolName", Some (JStr toolName));
                  ("input", Some (JObj [("toolId", JStr toolId)]));
                  ("output", Some (JStr (resultText parts)))];
     timestamp := None |}.

(** [streamToolResult(toolName, toolId, result, sseManager)] *)
Definition streamToolResult (toolName toolId : string) (parts : list ContentPart)
    (m : SSEManager) : SSEManager :=
  sendToolUse m toolName (JObj [("toolId", JStr toolId)]) (Some (resultText parts)).

Definition completionEvent (taskId result : string) (metadata : Json) : SSEEvent :=
  {| type := COMPLETE;
     data := JObj [("taskId", JStr taskId); ("result", JStr result); ("metadata", metadata)];
     timestamp := None |}.

(** [streamTaskCompletion(taskId, result, metadata, sseManager)] *)
Definition streamTaskCompletion (taskId result : string) (metadata : Json)
    (m : SSEManager) : SSEManager :=
  sendComplete m (JObj [("taskId", JStr taskId); ("result", JStr result);
                        ("metadata", metadata)]).

Definition errorEvent (error : Errors.JsError) : SSEEvent :=
  {| type := ERROR;
     data := obj [("message", Some (JStr (Errors.message error)));
                  ("code", Some (JStr (Errors.name error)))];
     timestamp := None |}.

(** [streamError(error, taskId, sseManager)] *)
Definition streamError (error : Errors.JsError) (m : SSEManager) : SSEManager :=
  if negb (closed m) then sendError m (Errors.message error) (Some (Errors.name error))
  else m.

End StreamFormatter.

(** ** src/agent/agent-executor.ts *)

Module Executor.
Import Anthropic Tools SSE StreamFormatter Config.

Record AgentTaskInput : Type := mkInput {
  task : string;
  userId : string;
  conversationId : option string;
  metadata : option (gmap string Json)
}.

Record TokensUsed : Type := mkTokens {
  input : nat;
  output : nat;
  total : nat
}.

Record AgentExecutionResult : Type := mkResult {
  taskId : string;
  result : string;
  toolsUsed : nat;
  iterations : nat;
  durationMs : N;
  tokensUsed : option TokensUsed
}.

Definition tokensJson (t : TokensUsed) : Json :=
  JObj [("input", num (input t)); ("output", num (output t)); ("total", num (total t))].

Definition resultJson (r : AgentExecutionResult) : Json :=
  obj [("taskId", Some (JStr (taskId r))); ("result", Some (JStr (result r)));
       ("toolsUsed", Some (num (toolsUsed r))); ("iterations", Some (num (iterations r)));
       ("durationMs", Some (numN (durationMs r)));
       ("tokensUsed", tokensJson <$> tokensUsed r)].

(** A call [tool.execute(input, context)] that was made. *)
Record Invocation : Type := mkInvocation {
  invoked : string;
  invoked_id : string;
  invoked_input : Json;
  invoked_context : Context.AgentContext
}.

(** The state one execution threads through the loop.  [now] is the time
    since [executeTask] started; [outbox] holds, in order and with the time
    of the call, every event the loop hands to the SSE manager when there is
    one.  [completions] and [invocations] record the model calls that
    resolved and the tool calls made; the code does not read them. *)
Record Run : Type := mkRun {
  messages : list MessageParam;
  store : Documents;
  now : N;
  outbox : list (N * SSEEvent);
  completions : list Message;
  invocations : list Invocation
}.

(** An awaited promise that takes [dt] milliseconds. *)
Definition wait (dt : N) (r : Run) : Run :=
  {| messages := messages r; store := store r; now := now r + dt;
     outbox := outbox r; completions := completions r; invocations := invocations r |}.

(** [if (sseManager) { ...send events... }] *)
Definition emit (streaming : bool) (events : list SSEEvent) (r : Run) : Run :=
  if streaming then
    {| messages := messages r; store := store r; now := now r;
       outbox := outbox r ++ map (fun e => (now r, e)) events;
       completions := completions r; invocations := invocations r |}
  else r.

Definition push (ms : list MessageParam) (r : Run) : Run :=
  {| messages := messages r ++ ms; store := store r; now := now r;
     outbox := outbox r; completions := completions r; invocations := invocations r |}.

Definition completed (response : Message) (r : Run) : Run :=
  {| messages := messages r; store := store r; now := now r;
     outbox := outbox r; completions := completions r ++ [response];
     invocations := invocations r |}.

Definition invoked_tool (i : Invocation) (docs : Documents) (r : Run) : Run :=
  {| messages := messages r; store := docs; now := now r;
     outbox := outbox r; completions := completions r;
     invocations := invocations r ++ [i] |}.

Definition progressEvent (msg : string) (progress : option nat) : SSEEvent :=
  {| type := PROGRESS;
     data := obj [("message", Some (JStr msg)); ("progress", num <$> progress)];
     timestamp := None |}.

(** The [catch] branch of [executeTools]: the error becomes the result. *)
Definition errorResult (id : string) (error : Errors.JsError) : ToolResultBlockParam :=
  {| tool_use_id := id;
     result_content :=
       ContentString (stringify (JObj [("success", JBool false);
                                       ("error", JStr (Errors.message error))]));
     is_error := Some true |}.

Definition notFound (name : string) : Errors.JsError :=
  Errors.newError ("Tool '" +:+ name +:+ "' not found").

(** The body of the [for] loop of [executeTools] for one [tool_use] block. *)
Definition executeTool (allTools : list Tool) (streaming : bool)
    (context : Context.AgentContext) (id name : string) (input : Json) (r : Run)
    : ToolResultBlockParam * Run :=
  match find (fun t => String.eqb (Tools.name t) name) allTools with
  | None => (errorResult id (notFound name), r)
  | Some tool =>
      let call := execute tool input context (store r) in
      let r1 := wait (duration call)
                  (invoked_tool (mkInvocation name id input context) (documents call) r) in
      match outcome call with
      | Resolved res =>
          (  {| tool_use_id := id;
                result_content := ContentParts (output_content res);
                is_error := output_is_error res |},
             emit streaming [toolResultEvent name id (output_content res)] r1 )
      | Rejected error => (errorResult id error, r1)
      end
  end.

(** [executeTools(context, response, sseManager)], over [response.content]. *)
Fixpoint executeTools (allTools : list Tool) (streaming : bool)
    (context : Context.AgentContext) (blocks : list ContentBlock) (r : Run)
    : list ToolResultBlockParam * Run :=
  match blocks with
  | [] => ([], r)
  | ToolUseBlock id name input :: rest =>
      let '(toolResult, r1) := executeTool allTools streaming context id name input r in
      let '(toolResults, r2) := executeTools allTools streaming context rest r1 in
      (toolResult :: toolResults, r2)
  | _ :: rest => executeTools allTools streaming context rest r
  end.

Definition exceeded (context : Context.AgentContext) (maxIterations : nat) : Errors.JsError :=
  Errors.newAgentExecutionError
    ("Agent exceeded maximum iterations (" +:+ pretty maxIterations +:+ ")")
    (JObj [("taskId", JStr (Context.taskId context)); ("maxIterations", num maxIterations)]).

(** The [while (iteration < maxIterations)] loop of [executeAgentLoop], by
    recursion on [maxIterations - iteration]. *)
Fixpoint iterate (client : Client) (allTools : list Tool) (streaming : bool)
    (context : Context.AgentContext) (maxIterations remaining : nat) (r : Run)
    : Promise Message * Run :=
  match remaining with
  | 0 => (Rejected (exceeded context maxIterations), r)
  | S remaining' =>
      let completion := client (messages r) in
      let r1 := wait (latency completion) r in
      match settles completion with
      | Rejected error => (Rejected error, r1)
      | Resolved response =>
          let r2 := emit streaming (agentResponseEvents response) (completed response r1) in
          match stop_reason response with
          | end_turn => (Resolved response, r2)
          | tool_use =>
              let r3 := emit streaming [progressEvent "Executing tools..." (Some 50)] r2 in
              let '(toolResults, r4) :=
                executeTools allTools streaming context (content response) r3 in
              let r5 := push [ {| role := assistant; param_content := OfBlocks (content response) |};
                               {| role := user; param_content := OfToolResults toolResults |} ] r4 in
              iterate client allTools streaming context maxIterations remaining' r5
          | max_tokens => (Resolved response, r2)
          | stop_sequence | other_stop => (Resolved response, r2)
          end
      end
  end.

(** [executeAgentLoop(context, messages, sseManager)] *)
Definition executeAgentLoop (cfg : ClaudeConfig) (client : Client) (allTools : list Tool)
    (streaming : bool) (context : Context.AgentContext) (r : Run) : Promise Message * Run :=
  iterate client allTools streaming context (MAX_ITERATIONS cfg) (MAX_ITERATIONS cfg) r.

(** [countToolUses(response)] *)
Definition countToolUses (response : Message) : nat :=
  length (List.filter (fun block => match block with
                                    | ToolUseBlock _ _ _ => true
                                    | _ => false
                                    end) (content response)).

(** [extractTextFromResponse(response)] *)
Definition extractTextFromResponse (response : Message) : string :=
  let textBlocks := omap (fun block => match block with
                                       | TextBlock text => Some text
                                       | _ => None
                                       end) (content response) in
  match textBlocks with
  | [] => "Task completed (no text output)"
  | _ => JSON.join (newline +:+ newline) textBlocks
  end.

Definition timedOut (timeoutMs : N) : Errors.JsError :=
  Errors.newTimeoutError ("Agent execution timed out after " +:+ pretty timeoutMs +:+ "ms").

(** The outcome of [Promise.race([fn(), timer])]. *)
Record Race (A : Type) : Type := mkRace {
  winner : Promise A;
  settled_at : N
}.
Arguments mkRace {A} winner settled_at.
Arguments winner {A} r.
Arguments settled_at {A} r.

(** [executeWithTimeout(fn, timeoutMs)], started at time 0: [fn()] settles as
    [settlement] at time [at_]; the timer rejects at [timeoutMs].  The race
    takes whichever settles first.  When both are due at the same instant the
    timer does: the runtime runs the callbacks of expired timers before the
    callbacks that resume [fn()]. *)
Definition executeWithTimeout {A : Type} (settlement : Promise A) (at_ : N) (timeoutMs : N)
    : Race A :=
  if (timeoutMs <=? at_)%N then mkRace (Rejected (timedOut timeoutMs)) timeoutMs
  else mkRace settlement at_.

(** *** The SSE manager over the course of one execution

    The manager is shared by three parties: the loop, which sends its events
    between awaits; the interval timer, which fires every 15 seconds; and the
    continuation of [executeTask] after the race, which sends the terminal
    event and closes.  When the timer of the race wins, the loop is not
    cancelled: it runs on and keeps calling the manager. *)

Inductive SSECall : Type :=
| Send (event : SSEEvent)                (* sseManager.sendEvent(event) *)
| StreamError (error : Errors.JsError)   (* streamError(error, taskId, sseManager) *)
| Close.                                 (* sseManager.close() *)

Definition perform (m : SSEManager) (c : SSECall) : SSEManager :=
  match c with
  | Send event => sendEvent m event
  | StreamError error => streamError error m
  | Close => close m
  end.

(** The calls in time order, the interval callbacks due before each call
    firing first; [t0] is the time reached so far. *)
Fixpoint replay (m : SSEManager) (t0 : N) (calls : list (N * SSECall)) : SSEManager :=
  match calls with
  | [] => m
  | (t, c) :: rest => replay (perform (pings m t0 t) c) t rest
  end.

(** The events the loop sends before the timer of the race is due, and
    those it sends from that instant on. *)
Definition sentBefore (deadline : N) (box : list (N * SSEEvent)) : list (N * SSEEvent) :=
  List.filter (fun te => (fst te <? deadline)%N) box.

Definition sentFrom (deadline : N) (box : list (N * SSEEvent)) : list (N * SSEEvent) :=
  List.filter (fun te => (deadline <=? fst te)%N) box.

Definition sends (box : list (N * SSEEvent)) : list (N * SSECall) :=
  map (fun te => (fst te, Send (snd te))) box.

(** What reaches the manager, in order: the events the loop sends before
    the [deadline] of the race, which are all its events when it wins, since
    it then ends before the deadline; the calls of the continuation, made
    when the race is [settled]; and what the abandoned loop sends from the
    deadline on.  An event the loop sends at the very instant of the
    deadline comes after the continuation: the timer's callback runs first,
    and the continuation follows it without yielding. *)
Definition timeline (deadline settled : N) (continuation : list SSECall)
    (box : list (N * SSEEvent)) : list (N * SSECall) :=
  sends (sentBefore deadline box)
  ++ map (fun c => (settled, c)) continuation
  ++ sends (sentFrom deadline box).

(** What [executeTask] leaves behind: the settlement of the promise it
    returns and when; the SSE manager, if one was passed; and the state of
    the loop once it has run to its end, which on a timeout is later than
    the return. *)
Record TaskRun : Type := mkTaskRun {
  returned : Promise AgentExecutionResult;
  returned_at : N;
  sse : option SSEManager;
  loop_end : Run
}.

Definition wrapped (error : Errors.JsError) (taskId : string) (iterations toolsUsed : nat)
    (durationMs : N) : Errors.JsError :=
  Errors.newAgentExecutionError
    ("Agent task execution failed: " +:+ Errors.message error)
    (JObj [("taskId", JStr taskId); ("iterations", num iterations);
           ("toolsUsed", num toolsUsed); ("durationMs", numN durationMs)]).

(** The context [executeTask] builds: [createAgentContext(taskId, input.userId,
    contextOptions)], the options holding [conversationId] and [metadata] when
    they are truthy. *)
Definition contextOf (taskId : string) (input : AgentTaskInput) : Context.AgentContext :=
  let contextOptions :=
    {| Context.opt_conversationId := Context.truthy (conversationId input);
       Context.opt_metadata := metadata input |} in
  Context.createAgentContext taskId (userId input) (Some contextOptions).

(** The state in which the loop starts: the start event sent, the
    conversation holding the task as its only turn. *)
Definition firstRun (streaming : bool) (input : AgentTaskInput) (docs : Documents) : Run :=
  emit streaming [progressEvent "Starting task execution..." (Some 0)]
    {| messages := [ {| role := user; param_content := OfString (task input) |} ];
       store := docs; now := 0; outbox := []; completions := []; invocations := [] |}.

(** The result object built after the race is won by the loop. *)
Definition resultOf (taskId : string) (response : Message) (durationMs : N)
    : AgentExecutionResult :=
  let iterations := 1 in
  let toolsUsed := countToolUses response in
  let finalText := extractTextFromResponse response in
  {| taskId := taskId; result := finalText; toolsUsed := toolsUsed;
     iterations := iterations; durationMs := durationMs;
     tokensUsed :=
       (fun u => {| input := input_tokens u; output := output_tokens u;
                    total := input_tokens u + output_tokens u |}) <$> usage response |}.

(** [executeTask(input, sseManager)].  [uuid] is the value of
    [randomUUID()]; the manager, when given, was created when the call
    starts (time 0).  In the [catch] branch [iterations] and [toolsUsed]
    still hold their initial 0. *)
Definition executeTask (cfg : ClaudeConfig) (env : Environment) (client : Client)
    (allTools : list Tool) (uuid : string) (input : AgentTaskInput)
    (sseManager : option SSEManager) (docs : Documents) : TaskRun :=
  let taskId := uuid in
  let streaming := match sseManager with Some _ => true | None => false end in
  let context := contextOf taskId input in
  let '(settlement, r) :=
    executeAgentLoop cfg client allTools streaming context (firstRun streaming input docs) in
  let race := executeWithTimeout settlement (now r) (AGENT_TIMEOUT_MS env) in
  match winner race with
  | Resolved response =>
      let result := resultOf taskId response (settled_at race) in
      {| returned := Resolved result;
         returned_at := settled_at race;
         sse := (fun m => replay m 0
                   (timeline (AGENT_TIMEOUT_MS env) (settled_at race)
                      [Send (completionEvent taskId (extractTextFromResponse response)
                                             (resultJson result)); Close]
                      (outbox r))) <$> sseManager;
         loop_end := r |}
  | Rejected error =>
      let durationMs := settled_at race in
      {| returned :=
           Rejected (if Errors.instanceofTimeoutError error then error
                     else wrapped error taskId 0 0 durationMs);
         returned_at := settled_at race;
         sse := (fun m => replay m 0
                   (timeline (AGENT_TIMEOUT_MS env) (settled_at race)
                      [StreamError error; Close] (outbox r)))
                <$> sseManager;
         loop_end := r |}
  end.

End Executor.

(** ** src/services/task-tracker.service.ts *)

Module Tracker.

(** [TaskStatus] of src/models/dtos/agent-response.dto.ts *)
Inductive TaskStatus : Type :=
| PENDING
| IN_PROGRESS
| COMPLETED
| FAILED
| CANCELLED.

Record TaskError : Type := mkTaskError {
  message : string;
  code : option string
}.

Record TaskMetadata : Type := mkMetadata {
  toolsUsed : option nat;
  iterations : option nat;
  durationMs : option N;
  tokensUsed : option Executor.TokensUsed;
  retryCount : option nat
}.

(** A document of the [agent_tasks] collection; timestamps in
    milliseconds. *)
Record TaskRecord : Type := mkTask {
  taskId : string;
  userId : string;
  task : string;
  status : TaskStatus;
  result : option string;
  error : option TaskError;
  metadata : option TaskMetadata;
  createdAt : N;
  updatedAt : N;
  completedAt : option N
}.

(** The fields an [update] call may carry; [None] leaves the stored field
    as it is. *)
Record UpdateData : Type := mkUpdate {
  set_status : option TaskStatus;
  set_result : option string;
  set_error : option TaskError;
  set_metadata : option TaskMetadata;
  set_updatedAt : option N;
  set_completedAt : option N
}.

Definition apply (u : UpdateData) (t : TaskRecord) : TaskRecord :=
  {| taskId := taskId t; userId := userId t; task := task t;
     status := default (status t) (set_status u);
     result := match set_result u with Some r => Some r | None => result t end;
     error := match set_error u with Some e => Some e | None => error t end;
     metadata := match set_metadata u with Some md => Some md | None => metadata t end;
     createdAt := createdAt t;
     updatedAt := default (updatedAt t) (set_updatedAt u);
     completedAt := match set_completedAt u with Some c => Some c | None => completedAt t end |}.

Definition documentMissing (id : string) : Errors.JsError :=
  Errors.mkError (Errors.Foreign "Error") ("5 NOT_FOUND: No document to update: " +:+ id) None.

(** [db.collection('agent_tasks').doc(id).update(data)]: rejects when the
    document does not exist, otherwise overwrites the fields given. *)
Definition update (tasks : gmap string TaskRecord) (id : string) (u : UpdateData)
    : Promise unit * gmap string TaskRecord :=
  match tasks !! id with
  | Some t => (Resolved (), <[id := apply u t]> tasks)
  | None => (Rejected (documentMissing id), tasks)
  end.

(** [FirebaseFirestore.Timestamp.now()].  The module imports [db] and
    nothing else of Firestore; [FirebaseFirestore] is the namespace of the
    library's type declarations, which names no value when the program runs,
    so evaluating the expression throws.  (src/services/firestore.service.ts
    takes its timestamps from the imported [timestamp] instead.) *)
Definition notDefined : Errors.JsError :=
  Errors.mkError (Errors.Foreign "ReferenceError") "FirebaseFirestore is not defined" None.

Definition timestampNow (now : N) : Promise N := Rejected notDefined.

(** [createTask(taskId, userId, task)]: the timestamp is taken first, then
    [set] creates or replaces; an error is logged and thrown again. *)
Definition createTask (now : N) (tasks : gmap string TaskRecord) (taskId userId task : string)
    : Promise unit * gmap string TaskRecord :=
  match timestampNow now with
  | Rejected error => (Rejected error, tasks)
  | Resolved stamp =>
      (Resolved (),
       <[taskId := {| taskId := taskId; userId := userId; task := task; status := PENDING;
                      result := None; error := None; metadata := None;
                      createdAt := stamp; updatedAt := stamp; completedAt := None |}]> tasks)
  end.

Definition terminal (s : TaskStatus) : bool :=
  match s with
  | COMPLETED | FAILED => true
  | _ => false
  end.

(** [updateTaskStatus(taskId, status, metadata?)]: [updateData] is built,
    with its timestamps, before [update] is called. *)
Definition updateTaskStatus (now : N) (tasks : gmap string TaskRecord) (taskId : string)
    (status : TaskStatus) (metadata : option TaskMetadata)
    : Promise unit * gmap string TaskRecord :=
  match timestampNow now with
  | Rejected error => (Rejected error, tasks)
  | Resolved stamp =>
      update tasks taskId
        {| set_status := Some status; set_result := None; set_error := None;
           set_metadata := metadata; set_updatedAt := Some stamp;
           set_completedAt := if terminal status then Some stamp else None |}
  end.

(** [markTaskProcessing(taskId)] *)
Definition markTaskProcessing (now : N) (tasks : gmap string TaskRecord) (taskId : string)
    : Promise unit * gmap string TaskRecord :=
  updateTaskStatus now tasks taskId IN_PROGRESS None.

(** [markTaskCompleted(taskId, result)] *)
Definition markTaskCompleted (now : N) (tasks : gmap string TaskRecord) (taskId : string)
    (result : Executor.AgentExecutionResult) : Promise unit * gmap string TaskRecord :=
  let metadata :=
    {| toolsUsed := Some (Executor.toolsUsed result);
       iterations := Some (Executor.iterations result);
       durationMs := Some (Executor.durationMs result);
       tokensUsed := Executor.tokensUsed result;
       retryCount := None |} in
  match timestampNow now with
  | Rejected error => (Rejected error, tasks)
  | Resolved stamp =>
      update tasks taskId
        {| set_status := Some COMPLETED; set_result := Some (Executor.result result);
           set_error := None; set_metadata := Some metadata;
           set_updatedAt := Some stamp; set_completedAt := Some stamp |}
  end.

(** [markTaskFailed(taskId, error, retryCount?)] *)
Definition markTaskFailed (now : N) (tasks : gmap string TaskRecord) (taskId : string)
    (error : Errors.JsError) (retryCount : option nat)
    : Promise unit * gmap string TaskRecord :=
  match timestampNow now with
  | Rejected raised => (Rejected raised, tasks)
  | Resolved stamp =>
      update tasks taskId
        {| set_status := Some FAILED; set_result := None;
           set_error := Some {| message := Errors.message error;
                                code := Some (Errors.name error) |};
           set_metadata :=
             (fun n => {| toolsUsed := None; iterations := None; durationMs := None;
                          tokensUsed := None; retryCount := Some n |}) <$> retryCount;
           set_updatedAt := Some stamp; set_completedAt := Some stamp |}
  end.

(** [getTask(taskId)] *)
Definition getTask (tasks : gmap string TaskRecord) (taskId : string) : option TaskRecord :=
  tasks !! taskId.

End Tracker.

(** ** src/queue/task-queue.ts and src/queue/workers/agent-worker.ts *)

Module Queue.
Import Config.

Inductive BackoffType : Type := fixed | exponential.

Record BackoffOptions : Type := mkBackoff {
  backoff_type : BackoffType;
  delay : N
}.

Record JobOptions : Type := mkJobOptions {
  attempts : nat;
  backoff : BackoffOptions
}.

(** [defaultJobOptions] of [createAgentTaskQueue] (retry part). *)
Definition defaultJobOptions (env : Environment) : JobOptions :=
  {| attempts := QUEUE_MAX_RETRIES env + 1;     (* +1 for initial attempt *)
     backoff := {| backoff_type := exponential; delay := 1000 |} |}.

Record Progress : Type := mkProgress {
  progress_status : string;
  progress : nat
}.

Record Job : Type := mkJob {
  id : string;
  data : Executor.AgentTaskInput;
  opts : JobOptions;
  attemptsMade : nat;
  job_progress : option Progress
}.

(** [metadata && 'taskId' in metadata && typeof metadata['taskId'] === 'string'],
    with the id when the test passes. *)
Definition trackedTaskId (metadata : option (gmap string Json)) : option string :=
  md ← metadata;
  v ← md !! "taskId";
  match v with
  | JStr s => Some s
  | _ => None
  end.

(** [enqueueAgentTask(taskInput)]: the job is added with the queue's default
    options; its id is the task id when the input carries one, and
    otherwise the one the broker generates. *)
Definition enqueueAgentTask (env : Environment) (generated : string)
    (taskInput : Executor.AgentTaskInput) : Job :=
  {| id := default generated (trackedTaskId (Executor.metadata taskInput));
     data := taskInput;
     opts := defaultJobOptions env;
     attemptsMade := 0;
     job_progress := None |}.

(** [job.updateProgress({ status, progress })] *)
Definition updateProgress (job : Job) (status : string) (p : nat) : Job :=
  {| id := id job; data := data job; opts := opts job; attemptsMade := attemptsMade job;
     job_progress := Some {| progress_status := status; progress := p |} |}.

(** What the worker reads and writes besides the job. *)
Record Backend : Type := mkBackend {
  tasks : gmap string Tracker.TaskRecord;
  docs : Tools.Documents
}.

(** What one attempt meets from outside: the model as it answers this time,
    the UUID drawn, and the time at which the attempt starts. *)
Record Attempt : Type := mkAttempt {
  client : Anthropic.Client;
  uuid : string;
  started : N
}.

Record Processed : Type := mkProcessed {
  settled : Promise Executor.AgentExecutionResult;
  job_after : Job;
  backend_after : Backend;
  elapsed : N
}.

(** The [catch] block of [processAgentTask]. *)
Definition failedAttempt (env : Environment) (now : N) (job : Job) (attemptNumber : nat)
    (error : Errors.JsError) (tasks : gmap string Tracker.TaskRecord)
    : Promise Executor.AgentExecutionResult * gmap string Tracker.TaskRecord :=
  match trackedTaskId (Executor.metadata (data job)) with
  | Some tid =>
      if (QUEUE_MAX_RETRIES env <=? attemptNumber)%nat then
        let '(marked, tasks') :=
          Tracker.markTaskFailed now tasks tid error (Some attemptNumber) in
        match marked with
        | Resolved _ => (Rejected error, tasks')
        | Rejected raised => (Rejected raised, tasks')
        end
      else (Rejected error, tasks)
  | None => (Rejected error, tasks)
  end.

(** The task input the worker builds from [job.data]: [conversationId] and
    [metadata] are copied when truthy. *)
Definition buildTaskInput (d : Executor.AgentTaskInput) : Executor.AgentTaskInput :=
  {| Executor.task := Executor.task d;
     Executor.userId := Executor.userId d;
     Executor.conversationId := Context.truthy (Executor.conversationId d);
     Executor.metadata := Executor.metadata d |}.

(** [processAgentTask(job)] *)
Definition processAgentTask (cfg : ClaudeConfig) (env : Environment)
    (allTools : list Tools.Tool) (w : Attempt) (job : Job) (b : Backend) : Processed :=
  let attemptNumber := attemptsMade job in
  let tracked := trackedTaskId (Executor.metadata (data job)) in
  let job1 := updateProgress job "starting" 0 in
  let '(processing, tasks1) :=
    match tracked with
    | Some tid => Tracker.markTaskProcessing (started w) (tasks b) tid
    | None => (Resolved (), tasks b)
    end in
  match processing with
  | Rejected error =>
      let '(thrown, tasks') := failedAttempt env (started w) job attemptNumber error tasks1 in
      {| settled := thrown; job_after := job1;
         backend_after := {| tasks := tasks'; docs := docs b |}; elapsed := 0 |}
  | Resolved _ =>
      let taskInput := buildTaskInput (data job) in
      let job2 := updateProgress job1 "executing" 25 in
      let run := Executor.executeTask cfg env (client w) allTools (uuid w) taskInput None (docs b) in
      let docs' := Executor.store (Executor.loop_end run) in
      let finished := (started w + Executor.returned_at run)%N in
      match Executor.returned run with
      | Rejected error =>
          let '(thrown, tasks') := failedAttempt env finished job attemptNumber error tasks1 in
          {| settled := thrown; job_after := job2;
             backend_after := {| tasks := tasks'; docs := docs' |};
             elapsed := Executor.returned_at run |}
      | Resolved result =>
          let job3 := updateProgress job2 "finalizing" 75 in
          let '(completing, tasks2) :=
            match tracked with
            | Some tid => Tracker.markTaskCompleted finished tasks1 tid result
            | None => (Resolved (), tasks1)
            end in
          match completing with
          | Rejected error =>
              let '(thrown, tasks') :=
                failedAttempt env finished job attemptNumber error tasks2 in
              {| settled := thrown; job_after := job3;
                 backend_after := {| tasks := tasks'; docs := docs' |};
                 elapsed := Executor.returned_at run |}
          | Resolved _ =>
              let job4 := updateProgress job3 "completed" 100 in
              let jobResult :=
                {| Executor.taskId := Executor.taskId result;
                   Executor.result := Executor.result result;
                   Executor.toolsUsed := Executor.toolsUsed result;
                   Executor.iterations := Executor.iterations result;
                   Executor.durationMs := Executor.durationMs result;
                   Executor.tokensUsed := Executor.tokensUsed result |} in
              {| settled := Resolved jobResult; job_after := job4;
                 backend_after := {| tasks := tasks2; docs := docs' |};
                 elapsed := Executor.returned_at run |}
          end
      end
  end.

(** *** The broker's side of a job (BullMQ 5)

    The worker library runs the processor; [job.attemptsMade] counts the
    attempts that have finished, so it is 0 during the first one.  When the
    processor throws, the count goes up by one and the job is retried after
    a backoff delay as long as the count is below [opts.attempts];
    otherwise the job is failed. *)

(** The built-in strategies: [Math.round(Math.pow(2, attemptsMade - 1) * delay)]
    for [exponential], [delay] for [fixed]. *)
Definition backoffDelay (b : BackoffOptions) (attemptsMade : nat) : N :=
  match backoff_type b with
  | exponential => (2 ^ N.of_nat (attemptsMade - 1) * delay b)%N
  | fixed => delay b
  end.

Inductive JobState : Type :=
| completed (returnvalue : Executor.AgentExecutionResult)
| failed (failedReason : string).

Record Finished : Type := mkFinished {
  state : JobState;
  job : Job;
  backend : Backend;
  processed : nat;          (* how many times the processor ran *)
  delays : list N           (* the backoff delays waited, in order *)
}.

Definition bump (j : Job) : Job :=
  {| id := id j; data := data j; opts := opts j; attemptsMade := attemptsMade j + 1;
     job_progress := job_progress j |}.

(** The attempts of one job; [retries] is [opts.attempts - 1 - attemptsMade],
    the retries still allowed; [world] gives the model and the UUID of the
    attempt with a given [attemptsMade]; [clock] is the current time. *)
Fixpoint work (cfg : ClaudeConfig) (env : Environment) (allTools : list Tools.Tool)
    (world : nat -> Anthropic.Client * string) (retries : nat) (clock : N)
    (j : Job) (b : Backend) : Finished :=
  let w := {| client := fst (world (attemptsMade j)); uuid := snd (world (attemptsMade j));
              started := clock |} in
  let p := processAgentTask cfg env allTools w j b in
  match settled p with
  | Resolved value =>
      {| state := completed value; job := bump (job_after p); backend := backend_after p;
         processed := 1; delays := [] |}
  | Rejected error =>
      let j' := bump (job_after p) in
      match retries with
      | 0 =>
          {| state := failed (Errors.message error); job := j'; backend := backend_after p;
             processed := 1; delays := [] |}
      | S retries' =>
          let d := backoffDelay (backoff (opts j')) (attemptsMade j') in
          let rest := work cfg env allTools world retries' (clock + elapsed p + d)%N
                           j' (backend_after p) in
          {| state := state rest; job := job rest; backend := backend rest;
             processed := S (processed rest); delays := d :: delays rest |}
      end
  end.

(** A job from its first attempt to its final state. *)
Definition runJob (cfg : ClaudeConfig) (env : Environment) (allTools : list Tools.Tool)
    (world : nat -> Anthropic.Client * string) (clock : N) (j : Job) (b : Backend)
    : Finished :=
  work cfg env allTools world (attempts (opts j) - 1 - attemptsMade j) clock j b.

End Queue.

(** ** What a stream delivers *)

Module Stream.
Import SSE.

(** The chunks are those of [body] followed by one [terminal] event, the
    body events having a type among [allowed] and the terminal one being
    [complete] or [error]. *)
Definition shaped (allowed : list SSEEventType) (chunks : list string)
    (body : list SSEEvent) (terminal : SSEEvent) : Prop :=
  chunks = map wire (body ++ [terminal]) /\
  Forall (fun e => type e ∈ allowed) body /\
  type terminal ∈ [COMPLETE; ERROR].

(** Any call a holder of the manager can make, or the connection or the
    timer can cause. *)
Inductive Op : Type :=
| OpSendEvent (event : SSEEvent)
| OpSendProgress (msg : string) (progress : option nat)
| OpSendToolUse (toolName : string) (input : Json) (output : option string)
| OpSendThinking (content : string)
| OpSendComplete (result : Json)
| OpSendError (msg : string) (code : option string)
| OpClose
| OpDisconnect
| OpPing.

Definition step (m : SSEManager) (op : Op) : SSEManager :=
  match op with
  | OpSendEvent event => sendEvent m event
  | OpSendProgress msg progress => sendProgress m msg progress
  | OpSendToolUse toolName input output => sendToolUse m toolName input output
  | OpSendThinking content => sendThinking m content
  | OpSendComplete result => sendComplete m result
  | OpSendError msg code => sendError m msg code
  | OpClose => close m
  | OpDisconnect => handleDisconnect m
  | OpPing => pingTick m
  end.

(** The manager with the chunks of [events] written after what it has
    written so far. *)
Definition appended (m : SSEManager) (events : list SSEEvent) : SSEManager :=
  with_response m
    {| headers := headers (response m);
       written := written (response m) ++ map wire events;
       ended := ended (response m);
       write_throws := write_throws (response m) |}.

(** An open connection whose timer is armed and whose writes succeed. *)
Definition live (m : SSEManager) : Prop :=
  isClosed m = false /\ pingInterval m = true /\ write_throws (response m) = false.

(** The events written for a list of timed events sent from time [t0] on,
    pings included. *)
Fixpoint interleaved (t0 : N) (events : list (N * SSEEvent)) : list SSEEvent :=
  match events with
  | [] => []
  | (t, e) :: rest =>
      replicate (N.to_nat (t / PING_INTERVAL_MS - t0 / PING_INTERVAL_MS)) pingEvent
      ++ e :: interleaved t rest
  end.

(** The time reached after a list of timed calls. *)
Definition reached {A : Type} (t0 : N) (calls : list (N * A)) : N :=
  List.last (map fst calls) t0.

Definition isPing (e : SSEEvent) : bool :=
  match type e with
  | PING => true
  | _ => false
  end.

(** The event types the executor itself sends before the terminal event,
    and those that can reach the wire before it. *)
Definition loopTypes : list SSEEventType := [PROGRESS; TOOL_USE; THINKING].
Definition streamTypes : list SSEEventType := [PROGRESS; TOOL_USE; THINKING; PING].

(** Every event of an outbox has one of the loop's types. *)
Definition quiet (box : list (N * SSEEvent)) : Prop :=
  Forall (fun te => type (snd te) ∈ loopTypes) box.

End Stream.

(** ** What the conversation must hold for each requested tool call *)

Module Dispatch.
Import Anthropic Tools.

(** The tool calls a response asks for, in order: correlation id, tool name
    and input. *)
Definition toolUses (blocks : list ContentBlock) : list (string * string * Json) :=
  omap (fun block => match block with
                     | ToolUseBlock id name input => Some (id, name, input)
                     | _ => None
                     end) blocks.

Definition errorPayload (msg : string) : ResultContent :=
  ContentString (stringify (JObj [("success", JBool false); ("error", JStr msg)])).

(** [result] is the outcome owed to [call] when the call is made on the
    documents [docs]: it carries the call's correlation id; for a name the
    registry does not have it is the synthesized "not found" error; for a
    registered tool it is what the tool returned or, if the tool threw, an
    error outcome with the thrown message. *)
Definition answers (allTools : list Tool) (context : Context.AgentContext)
    (docs : Documents) (call : string * string * Json) (result : ToolResultBlockParam)
    : Prop :=
  let '(id, name, input) := call in
  tool_use_id result = id /\
  match find (fun t => String.eqb (Tools.name t) name) allTools with
  | None =>
      is_error result = Some true /\
      result_content result = errorPayload ("Tool '" +:+ name +:+ "' not found")
  | Some tool =>
      match outcome (execute tool input context docs) with
      | Resolved res =>
          result_content result = ContentParts (output_content res) /\
          is_error result = output_is_error res
      | Rejected error =>
          is_error result = Some true /\
          result_content result = errorPayload (Errors.message error)
      end
  end.

(** The documents as [call] leaves them: as the registered tool does,
    whether it returns or throws; untouched for a name the registry does
    not have. *)
Definition leaves (allTools : list Tool) (context : Context.AgentContext)
    (docs : Documents) (call : string * string * Json) : Documents :=
  let '(_, name, input) := call in
  match find (fun t => String.eqb (Tools.name t) name) allTools with
  | None => docs
  | Some tool => documents (execute tool input context docs)
  end.

(** [results] holds exactly one outcome for each of [calls], in their
    order, each call being made on the documents the calls before it have
    left, the first on [docs]; [final] is what the last call leaves. *)
Inductive answered (allTools : list Tool) (context : Context.AgentContext)
    : Documents -> list (string * string * Json) -> list ToolResultBlockParam
      -> Documents -> Prop :=
| answered_none docs : answered allTools context docs [] [] docs
| answered_next docs call result calls results final :
    answers allTools context docs call result ->
    answered allTools context (leaves allTools context docs call) calls results final ->
    answered allTools context docs (call :: calls) (result :: results) final.

(** Every tool call recorded so far was handed [context]. *)
Definition calledWith (context : Context.AgentContext) (r : Executor.Run) : Prop :=
  Forall (fun i => Executor.invoked_context i = context) (Executor.invocations r).

(** The state of the loop at the end of a turn, started in [r], in which
    the model answered [response] and the tools it asks for were run. *)
Definition afterTools (client : Client) (allTools : list Tool) (streaming : bool)
    (context : Context.AgentContext) (r : Executor.Run) (response : Message) : Executor.Run :=
  let r3 := Executor.emit streaming [Executor.progressEvent "Executing tools..." (Some 50)]
              (Executor.emit streaming (StreamFormatter.agentResponseEvents response)
                 (Executor.completed response (Executor.wait (latency (client (Executor.messages r))) r))) in
  let ran := Executor.executeTools allTools streaming context (content response) r3 in
  Executor.push [ {| role := assistant; param_content := OfBlocks (content response) |};
                  {| role := user; param_content := OfToolResults (fst ran) |} ] (snd ran).

(** The model never completes in the loop run from [r] with [remaining]
    iterations left: each model call the loop makes is answered, and by a
    response that stops to ask for tools. *)
Fixpoint neverCompletes (client : Client) (allTools : list Tool) (streaming : bool)
    (context : Context.AgentContext) (remaining : nat) (r : Executor.Run) : Prop :=
  match remaining with
  | 0 => True
  | S remaining' =>
      exists response,
        settles (client (Executor.messages r)) = Resolved response /\
        stop_reason response = tool_use /\
        neverCompletes client allTools streaming context remaining'
          (afterTools client allTools streaming context r response)
  end.

(** The model never completes in the execution [executeTask] starts. *)
Definition neverCompletesIn (cfg : Config.ClaudeConfig) (client : Client)
    (allTools : list Tool) (uuid : string) (input : Executor.AgentTaskInput)
    (sseManager : option SSE.SSEManager) (docs : Documents) : Prop :=
  let streaming := match sseManager with Some _ => true | None => false end in
  neverCompletes client allTools streaming (Executor.contextOf uuid input)
    (Config.MAX_ITERATIONS cfg) (Executor.firstRun streaming input docs).

(** A model that asks for tools whatever the conversation. *)
Definition alwaysAsksForTools (client : Client) : Prop :=
  forall conversation, exists response,
    settles (client conversation) = Resolved response /\ stop_reason response = tool_use.

End Dispatch.

(** ** What a job that always fails must leave behind *)

Module Retry.
Import Config Queue.


(** The backoff delay before retry number [k + 1], in milliseconds. *)
Definition doubling (k : nat) : N := (2 ^ N.of_nat k * 1000)%N.

End Retry.

(** ** Concrete models, tools, tasks and jobs *)

Module Scenario.
Import Anthropic Tools Config.

Definition uuid : string := "550e8400-e29b-41d4-a716-446655440000".

Definition listCategories : Executor.AgentTaskInput :=
  {| Executor.task := "list categories"; Executor.userId := "user-123";
     Executor.conversationId := None; Executor.metadata := None |}.

(** A registry entry that returns two items and leaves the documents alone. *)
Definition getCategories : Tool :=
  {| name := "get_categories";
     description := "Retrieves all categories for the user.";
     input_schema := JObj [("type", JStr "object")];
     execute := fun _ _ docs =>
       {| outcome :=
            Resolved {| output_content :=
                          [ {| part_type := "text";
                               part_text := stringify (JObj [("success", JBool true);
                                 ("categories", JArr [JStr "Algorithms"; JStr "Databases"])]) |} ];
                        output_is_error := None |};
          duration := 30;
          documents := docs |} |}.

(** A registry entry whose [execute] throws. *)
Definition brokenTool : Tool :=
  {| name := "create_category";
     description := "Create a new question category.";
     input_schema := JObj [("type", JStr "object")];
     execute := fun _ _ docs =>
       {| outcome := Rejected (Errors.mkError Errors.FirestoreError
                                 "Failed to create category" None);
          duration := 10;
          documents := docs |} |}.

(** A model that first asks for [get_categories] and then answers. *)
Definition listingModel : Client := fun conversation =>
  if Nat.eqb (length conversation) 1 then
    {| settles := Resolved {| content := [TextBlock "Let me look them up.";
                                          ToolUseBlock "toolu_01" "get_categories" (JObj [])];
                              stop_reason := tool_use;
                              usage := Some {| input_tokens := 100; output_tokens := 20 |} |};
       latency := 800 |}
  else
    {| settles := Resolved {| content := [TextBlock "You have 2 categories: Algorithms, Databases."];
                              stop_reason := end_turn;
                              usage := Some {| input_tokens := 180; output_tokens := 25 |} |};
       latency := 600 |}.

(** A model that asks for another tool call after every answer. *)
Definition loopingModel : Client := fun _ =>
  {| settles := Resolved {| content := [ToolUseBlock "toolu_02" "get_questions" (JObj [])];
                            stop_reason := tool_use;
                            usage := Some {| input_tokens := 50; output_tokens := 10 |} |};
     latency := 100 |}.

(** A model whose every call fails. *)
Definition failingModel : Client := fun _ =>
  {| settles := Rejected (Errors.mkError (Errors.Foreign "APIError")
                            "500 Internal Server Error" None);
     latency := 50 |}.

(** A model that answers at once after 20 seconds. *)
Definition slowModel : Client := fun _ =>
  {| settles := Resolved {| content := [TextBlock "Done."]; stop_reason := end_turn;
                            usage := None |};
     latency := 20000 |}.

(** A model whose answer takes longer than the default timeout. *)
Definition stalledModel : Client := fun _ =>
  {| settles := Resolved {| content := [TextBlock "Done."]; stop_reason := end_turn;
                            usage := None |};
     latency := 130000 |}.

(** A model whose answer arrives at the very instant of the default
    timeout. *)
Definition punctualModel : Client := fun _ =>
  {| settles := Resolved {| content := [TextBlock "Done."]; stop_reason := end_turn;
                            usage := None |};
     latency := 120000 |}.

(** A model that asks for one registered tool that throws and one tool
    that is not registered. *)
Definition mixedRequest : Message :=
  {| content := [TextBlock "Working on it.";
                 ToolUseBlock "toolu_03" "create_category" (JObj [("name", JStr "Graphs")]);
                 ToolUseBlock "toolu_04" "drop_database" (JObj [])];
     stop_reason := tool_use;
     usage := None |}.

Definition mixedModel : Client := fun conversation =>
  if Nat.eqb (length conversation) 1 then {| settles := Resolved mixedRequest; latency := 500 |}
  else {| settles := Resolved {| content := [TextBlock "I could not do that."];
                                 stop_reason := end_turn; usage := None |};
          latency := 400 |}.

Definition freshResponse : SSE.Response :=
  {| SSE.headers := []; SSE.written := []; SSE.ended := false; SSE.write_throws := false |}.

Definition freshRun (conversation : list MessageParam) : Executor.Run :=
  {| Executor.messages := conversation; Executor.store := ∅; Executor.now := 0;
     Executor.outbox := []; Executor.completions := []; Executor.invocations := [] |}.

Definition firstTurn : list MessageParam :=
  [ {| role := user; param_content := OfString "list categories" |} ].

(** A tracked task and the job that carries it. *)
Definition queuedInput : Executor.AgentTaskInput :=
  {| Executor.task := "list categories"; Executor.userId := "user-123";
     Executor.conversationId := None;
     Executor.metadata := Some {[ "taskId" := JStr "task-1" ]} |}.

Definition pendingTask : Tracker.TaskRecord :=
  {| Tracker.taskId := "task-1"; Tracker.userId := "user-123";
     Tracker.task := "list categories"; Tracker.status := Tracker.PENDING;
     Tracker.result := None; Tracker.error := None; Tracker.metadata := None;
     Tracker.createdAt := 1000; Tracker.updatedAt := 1000; Tracker.completedAt := None |}.

Definition completedTask : Tracker.TaskRecord :=
  {| Tracker.taskId := "task-1"; Tracker.userId := "user-123";
     Tracker.task := "list categories"; Tracker.status := Tracker.COMPLETED;
     Tracker.result := Some "You have 2 categories."; Tracker.error := None;
     Tracker.metadata := None;
     Tracker.createdAt := 1000; Tracker.updatedAt := 3000; Tracker.completedAt := Some 3000%N |}.

Definition lateError : Errors.JsError :=
  Errors.mkError Errors.TimeoutError "Agent execution timed out after 120000ms" None.

Definition someResult : Executor.AgentExecutionResult :=
  {| Executor.taskId := uuid; Executor.result := "Second answer.";
     Executor.toolsUsed := 0; Executor.iterations := 1; Executor.durationMs := 900;
     Executor.tokensUsed := None |}.

End Scenario.

(** ** [Date.prototype.toISOString]

    The controller stamps every reply with [new Date().toISOString()] and
    reports a task's timestamps with [toDate().toISOString()].  A time is the
    number of milliseconds since the epoch; the dates of the proleptic
    Gregorian calendar are computed by eras of 400 years counted from
    0000-03-01. *)

Module Clock.

Definition MS_PER_DAY : N := 86400000.

Fixpoint zeros (k : nat) : string :=
  match k with
  | 0 => ""
  | S k' => "0" +:+ zeros k'
  end.

(** The decimal digits of [n], padded with zeros on the left to [width]. *)
Definition pad (width : nat) (n : N) : string :=
  let digits := pretty n in
  zeros (width - String.length digits) +:+ digits.

(** Year, month and day of the month of the day numbered [days] from
    1970-01-01. *)
Definition civil (days : N) : N * N * N :=
  let z := (days + 719468)%N in
  let era := (z / 146097)%N in
  let doe := (z mod 146097)%N in
  let yoe := ((doe - doe / 1460 + doe / 36524 - doe / 146096) / 365)%N in
  let doy := (doe - (365 * yoe + yoe / 4 - yoe / 100))%N in
  let mp := ((5 * doy + 2) / 153)%N in
  let d := (doy - (153 * mp + 2) / 5 + 1)%N in
  let m := if (mp <? 10)%N then (mp + 3)%N else (mp - 9)%N in
  let y := (yoe + era * 400 + (if (m <=? 2)%N then 1 else 0))%N in
  (y, m, d).

(** [new Date(t).toISOString()]: [YYYY-MM-DDTHH:mm:ss.sssZ], the year with
    a sign and six digits from the year 10000 on. *)
Definition toISOString (t : N) : string :=
  let ms := (t mod MS_PER_DAY)%N in
  let '(y, m, d) := civil (t / MS_PER_DAY) in
  let year := if (y <=? 9999)%N then pad 4 y else "+" +:+ pad 6 y in
  year +:+ "-" +:+ pad 2 m +:+ "-" +:+ pad 2 d
  +:+ "T" +:+ pad 2 (ms / 3600000) +:+ ":" +:+ pad 2 (ms / 60000 mod 60)
  +:+ ":" +:+ pad 2 (ms / 1000 mod 60) +:+ "." +:+ pad 3 (ms mod 1000) +:+ "Z".

End Clock.

(** ** [getJobStatus] of src/queue/task-queue.ts *)

Module JobStatus.
Import Queue.

Record Report : Type := mkReport {
  status : string;
  progress : option Progress;
  result : option Executor.AgentExecutionResult;
  error : option string
}.

Definition jobNotFound (jobId : string) : Errors.JsError :=
  Errors.newError ("Job " +:+ jobId +:+ " not found").

(** [getJobStatus(jobId)] for a job the worker has finished with, [jobs]
    holding such jobs by id: [job.getState()] is then [completed] or
    [failed]. *)
Definition getJobStatus (jobs : gmap string Finished) (jobId : string) : Promise Report :=
  match jobs !! jobId with
  | None => Rejected (jobNotFound jobId)
  | Some found =>
      Resolved
        {| status := match state found with
                     | completed _ => "completed"
                     | failed _ => "failed"
                     end;
           progress := job_progress (job found);
           result := match state found with
                     | completed returnvalue => Some returnvalue
                     | failed _ => None
                     end;
           error := match state found with
                    | completed _ => None
                    | failed failedReason => Some failedReason
                    end |}
  end.

End JobStatus.

(** ** src/api/controllers/agent.controller.ts

    The handlers take the outcome of [agentTaskRequestSchema.parse(req.body)]
    as an argument: the validated request, or the error thrown.  [clock] is
    the time at which the request arrives.  The broker and the document
    store are taken to be reachable, so [enqueueAgentTask] and [getTask] do
    not throw; [createTask] does what the tracker has it do. *)

Module Controller.
Import Config.

Record RequestContext : Type := mkRequestContext {
  conversationId : option string;
  additionalInstructions : option string
}.

Record AgentTaskRequest : Type := mkRequest {
  task : string;
  userId : string;
  context : option RequestContext
}.

(** [res.status(status).json(body)] *)
Record Reply : Type := mkReply {
  status : nat;
  body : Json
}.

(** [error instanceof ValidationError]; no class extends [ValidationError]. *)
Definition instanceofValidationError (e : Errors.JsError) : bool :=
  match Errors.cls e with
  | Errors.ValidationError => true
  | _ => false
  end.

Definition errorBody (code msg : string) (at_ : N) : Json :=
  JObj [("success", JBool false);
        ("error", JObj [("code", JStr code); ("message", JStr msg)]);
        ("timestamp", JStr (Clock.toISOString at_))].

(** The [catch] block of the handlers that answer with JSON; [fallback] is
    the code reported for an error that is not a [ValidationError]. *)
Definition failure (fallback : string) (error : Errors.JsError) (at_ : N) : Reply :=
  if instanceofValidationError error then
    {| status := 400; body := errorBody "VALIDATION_ERROR" (Errors.message error) at_ |}
  else
    {| status := 500; body := errorBody fallback (Errors.message error) at_ |}.

(** The task input the handlers build; [metadata] is what the input holds
    before [additionalInstructions] is looked at. *)
Definition taskInputOf (validated : AgentTaskRequest) (metadata : option (gmap string Json))
    : Executor.AgentTaskInput :=
  {| Executor.task := task validated;
     Executor.userId := userId validated;
     Executor.conversationId := Context.truthy (context validated ≫= conversationId);
     Executor.metadata :=
       match Context.truthy (context validated ≫= additionalInstructions) with
       | Some instructions =>
           Some (<["additionalInstructions" := JStr instructions]> (default ∅ metadata))
       | None => metadata
       end |}.

Definition successBody (result : Executor.AgentExecutionResult) (at_ : N) : Json :=
  obj [("success", Some (JBool true));
       ("taskId", Some (JStr (Executor.taskId result)));
       ("result", Some (JStr (Executor.result result)));
       ("metadata",
        Some (obj [("toolsUsed", Some (num (Executor.toolsUsed result)));
                   ("iterations", Some (num (Executor.iterations result)));
                   ("durationMs", Some (numN (Executor.durationMs result)));
                   ("tokensUsed", Executor.tokensJson <$> Executor.tokensUsed result)]));
       ("timestamp", Some (JStr (Clock.toISOString at_)))].

(** [executeAgentTask(req, res)], POST /agent/task: the reply, and the
    execution when there was one. *)
Definition executeAgentTask (cfg : ClaudeConfig) (env : Environment)
    (client : Anthropic.Client) (allTools : list Tools.Tool) (uuid : string) (clock : N)
    (parsed : Promise AgentTaskRequest) (docs : Tools.Documents)
    : Reply * option Executor.TaskRun :=
  match parsed with
  | Rejected error => (failure "EXECUTION_ERROR" error clock, None)
  | Resolved validated =>
      let taskInput := taskInputOf validated None in
      let run := Executor.executeTask cfg env client allTools uuid taskInput None docs in
      let answered := (clock + Executor.returned_at run)%N in
      match Executor.returned run with
      | Resolved result =>
          ({| status := 200; body := successBody result answered |}, Some run)
      | Rejected error => (failure "EXECUTION_ERROR" error answered, Some run)
      end
  end.

(** The [catch] block of [executeAgentTaskStreaming]. *)
Definition streamingFailure (sseManager : SSE.SSEManager) (error : Errors.JsError)
    : SSE.SSEManager :=
  if negb (SSE.closed sseManager) then
    SSE.close
      (if instanceofValidationError error then
         SSE.sendError sseManager (Errors.message error) (Some "VALIDATION_ERROR")
       else
         SSE.sendError sseManager (Errors.message error) (Some "EXECUTION_ERROR"))
  else sseManager.

(** [executeAgentTaskStreaming(req, res)], POST /agent/task/stream: the
    manager once everything has run, and the execution when there was one.
    The [catch] block reads [sseManager.closed] when [executeTask] throws;
    the executor has closed the manager by then, and a closed manager stays
    closed, so the flag read at the end is the one the block sees. *)
Definition executeAgentTaskStreaming (cfg : ClaudeConfig) (env : Environment)
    (client : Anthropic.Client) (allTools : list Tools.Tool) (clientId uuid : string)
    (res : SSE.Response) (parsed : Promise AgentTaskRequest) (docs : Tools.Documents)
    : SSE.SSEManager * option Executor.TaskRun :=
  let sseManager := SSE.createSSEManager res clientId in
  match parsed with
  | Rejected error => (streamingFailure sseManager error, None)
  | Resolved validated =>
      let taskInput := taskInputOf validated None in
      let run :=
        Executor.executeTask cfg env client allTools uuid taskInput (Some sseManager) docs in
      let used := default sseManager (Executor.sse run) in
      match Executor.returned run with
      | Resolved _ => (used, Some run)
      | Rejected error => (streamingFailure used error, Some run)
      end
  end.

Definition status_value (s : Tracker.TaskStatus) : string :=
  match s with
  | Tracker.PENDING => "pending"
  | Tracker.IN_PROGRESS => "in_progress"
  | Tracker.COMPLETED => "completed"
  | Tracker.FAILED => "failed"
  | Tracker.CANCELLED => "cancelled"
  end.

Record Queued : Type := mkQueued {
  reply : Reply;
  tasks : gmap string Tracker.TaskRecord;
  job : option Queue.Job
}.

(** [queueAgentTask(req, res)], POST /agent/task/queue; [uuid] is the value
    of [randomUUID()], [generated] the id the broker would give a job that
    brings none. *)
Definition queueAgentTask (env : Environment) (uuid generated : string) (clock : N)
    (parsed : Promise AgentTaskRequest) (stored : gmap string Tracker.TaskRecord) : Queued :=
  match parsed with
  | Rejected error =>
      {| reply := failure "QUEUE_ERROR" error clock; tasks := stored; job := None |}
  | Resolved validated =>
      let taskId := uuid in
      let '(created, tasks1) :=
        Tracker.createTask clock stored taskId (userId validated) (task validated) in
      match created with
      | Rejected error =>
          {| reply := failure "QUEUE_ERROR" error clock; tasks := tasks1; job := None |}
      | Resolved _ =>
          let taskInput := taskInputOf validated (Some {[ "taskId" := JStr taskId ]}) in
          let queued := Queue.enqueueAgentTask env generated taskInput in
          let jobId := Queue.id queued in
          {| reply :=
               {| status := 202;
                  body := JObj [("success", JBool true);
                                ("taskId", JStr taskId);
                                ("jobId", JStr jobId);
                                ("status", JStr (status_value Tracker.PENDING));
                                ("message", JStr "Task queued for processing");
                                ("timestamp", JStr (Clock.toISOString clock))] |};
             tasks := tasks1;
             job := Some queued |}
      end
  end.

Definition taskErrorJson (e : Tracker.TaskError) : Json :=
  obj [("message", Some (JStr (Tracker.message e))); ("code", JStr <$> Tracker.code e)].

Definition taskMetadataJson (md : Tracker.TaskMetadata) : Json :=
  obj [("toolsUsed", num <$> Tracker.toolsUsed md);
       ("iterations", num <$> Tracker.iterations md);
       ("durationMs", numN <$> Tracker.durationMs md);
       ("tokensUsed", Executor.tokensJson <$> Tracker.tokensUsed md);
       ("retryCount", num <$> Tracker.retryCount md)].

(** The body of the reply for a task that was found: [result], [error],
    [metadata] and [completedAt] are set only when truthy. *)
Definition statusBody (found : Tracker.TaskRecord) : Json :=
  obj [("success", Some (JBool true));
       ("taskId", Some (JStr (Tracker.taskId found)));
       ("status", Some (JStr (status_value (Tracker.status found))));
       ("createdAt", Some (JStr (Clock.toISOString (Tracker.createdAt found))));
       ("updatedAt", Some (JStr (Clock.toISOString (Tracker.updatedAt found))));
       ("result", JStr <$> Context.truthy (Tracker.result found));
       ("error", taskErrorJson <$> Tracker.error found);
       ("metadata", taskMetadataJson <$> Tracker.metadata found);
       ("completedAt",
        (fun at_ => JStr (Clock.toISOString at_)) <$> Tracker.completedAt found)].

(** [getTaskStatus(req, res)], GET /agent/task/:taskId; [taskId] is
    [req.params['taskId']]. *)
Definition getTaskStatus (clock : N) (taskId : option string)
    (stored : gmap string Tracker.TaskRecord) : Reply :=
  match Context.truthy taskId with
  | None =>
      {| status := 400; body := errorBody "INVALID_REQUEST" "Task ID is required" clock |}
  | Some id =>
      match Tracker.getTask stored id with
      | None =>
          {| status := 404;
             body := errorBody "TASK_NOT_FOUND" ("Task " +:+ id +:+ " not found") clock |}
      | Some found => {| status := 200; body := statusBody found |}
      end
  end.

End Controller.

(** ** The shape of the conversation the loop builds *)

Module Conversation.
Import Anthropic.

(** The correlation ids of the [tool_use] blocks of a turn, in order. *)
Definition requestedIds (blocks : list ContentBlock) : list string :=
  omap (fun block => match block with
                     | ToolUseBlock id _ _ => Some id
                     | _ => None
                     end) blocks.

(** An assistant turn and the user turn that answers it: the second holds
    one tool result per [tool_use] block of the first, with its id, in the
    same order. *)
Definition exchange (request reply : MessageParam) : Prop :=
  role request = assistant /\ role reply = user /\
  exists blocks results,
    param_content request = OfBlocks blocks /\
    param_content reply = OfToolResults results /\
    map tool_use_id results = requestedIds blocks.

(** A list of turns made of exchanges only. *)
Inductive exchanges : list MessageParam -> Prop :=
| no_exchange : exchanges []
| one_more request reply rest :
    exchange request reply -> exchanges rest -> exchanges (request :: reply :: rest).

Definition stoppedForTools (response : Message) : bool :=
  match stop_reason response with
  | tool_use => true
  | _ => false
  end.

(** The calls a list of responses asks the registry to run: those of the
    responses that stopped for tool use, restricted to the names the
    registry has. *)
Definition registered (allTools : list Tools.Tool) (call : string * string * Json) : bool :=
  match find (fun t => String.eqb (Tools.name t) (snd (fst call))) allTools with
  | Some _ => true
  | None => false
  end.

Definition dispatched (allTools : list Tools.Tool) (responses : list Message)
    : list (string * string * Json) :=
  flat_map (fun response =>
              match stop_reason response with
              | tool_use => List.filter (registered allTools) (Dispatch.toolUses (content response))
              | _ => []
              end) responses.

(** What the loop keeps true of the conversation: after the turns it started
    from come exchanges only, one for each response that stopped for tool
    use. *)
Definition conversing (start : list MessageParam) (r : Executor.Run) : Prop :=
  exists turns,
    Executor.messages r = (start ++ turns)%list /\
    exchanges turns /\
    length turns = 2 * length (List.filter stoppedForTools (Executor.completions r)).

Definition callOf (i : Executor.Invocation) : string * string * Json :=
  (Executor.invoked_id i, Executor.invoked i, Executor.invoked_input i).

End Conversation.

(** ** Any sequence of calls of the tracker's writing methods *)

Module Lifecycle.
Import Tracker.

Inductive Mark : Type :=
| Create (userId task : string)
| Processing
| Completed (result : Executor.AgentExecutionResult)
| Failed (error : Errors.JsError) (retryCount : option nat)
| Status (status : TaskStatus) (metadata : option TaskMetadata).

Definition mark (now : N) (stored : gmap string TaskRecord) (id : string) (m : Mark)
    : Promise unit * gmap string TaskRecord :=
  match m with
  | Create userId task => createTask now stored id userId task
  | Processing => markTaskProcessing now stored id
  | Completed result => markTaskCompleted now stored id result
  | Failed error retryCount => markTaskFailed now stored id error retryCount
  | Status status metadata => updateTaskStatus now stored id status metadata
  end.

(** The calls in order, each with its time and task id; a call that
    rejects is passed over. *)
Definition marks (stored : gmap string TaskRecord) (updates : list (N * string * Mark))
    : gmap string TaskRecord :=
  foldl (fun tasks u => snd (mark (fst (fst u)) tasks (snd (fst u)) (snd u))) stored updates.





End Lifecycle.

(** ** Characters that would break an SSE frame *)

Module Framing.

Definition lineBreak (c : ascii) : bool :=
  let n := Ascii.nat_of_ascii c in Nat.eqb n 10 || Nat.eqb n 13.

Fixpoint lineBreaks (s : string) : nat :=
  match s with
  | EmptyString => 0
  | String c rest => (if lineBreak c then 1 else 0) + lineBreaks rest
  end.

End Framing.

(** ** Heartbeats on the wire *)

Module Heartbeat.
Import SSE.


(** The times of a list of timed events never go back, starting from [t0]. *)
Fixpoint ascending (t0 : N) (box : list (N * SSEEvent)) : Prop :=
  match box with
  | [] => True
  | (t, _) :: rest => (t0 <= t)%N /\ ascending t rest
  end.

(** The events sent so far were sent in time order, none after [now]. *)
Definition timely (r : Executor.Run) : Prop :=
  ascending 0 (Executor.outbox r) /\
  (Stream.reached 0 (Executor.outbox r) <= Executor.now r)%N.

End Heartbeat.
(** ** src/services/firestore.service.ts

    The operations by document id, with the creation of documents, of the
    three collections of user data.  A document is its fields; a collection
    holds documents by id.  The store is taken to be reachable, so the
    only failures are those the service raises itself and those of a
    document path or id the store refuses. *)

Module Firestore.

Abbreviation Doc := (gmap string Json).
Abbreviation Collection := (gmap string (gmap string Json)).

(** The three entities; the service repeats the same code for each. *)
Inductive Kind : Type := Question | Category | Qualification.

(** The resource name in a [NotFoundError]. *)
Definition resource (k : Kind) : string :=
  match k with
  | Question => "Question"
  | Category => "Category"
  | Qualification => "Qualification"
  end.

(** The name in the message of a [FirestoreError]. *)
Definition noun (k : Kind) : string :=
  match k with
  | Question => "question"
  | Category => "category"
  | Qualification => "qualification"
  end.

(** [DEFAULT_QUESTION_VALUES], [DEFAULT_CATEGORY_VALUES] and
    [DEFAULT_QUALIFICATION_VALUES] *)
Definition defaults (k : Kind) : Doc :=
  match k with
  | Question =>
      {[ "difficulty" := JStr "Medium"; "isActive" := JBool true;
         "isFavorite" := JBool false; "tags" := JArr []; "timesUsed" := JNum 0 ]}
  | Category =>
      {[ "isActive" := JBool true; "questionCount" := JNum 0; "order" := JNum 0 ]}
  | Qualification =>
      {[ "isActive" := JBool true; "questionCount" := JNum 0 ]}
  end.

(** [new NotFoundError(resource, id)] *)
Definition newNotFoundError (resource : string) (id : option string) : Errors.JsError :=
  Errors.mkError Errors.NotFoundError
    match Context.truthy id with
    | Some id' => resource +:+ " with ID '" +:+ id' +:+ "' not found"
    | None => resource +:+ " not found"
    end
    None.

(** [new FirestoreError(message, { originalError })] *)
Definition newFirestoreError (msg : string) (original : string) : Errors.JsError :=
  Errors.mkError Errors.FirestoreError msg (Some (JObj [("originalError", JStr original)])).

Definition instanceofNotFoundError (e : Errors.JsError) : bool :=
  match Errors.cls e with
  | Errors.NotFoundError => true
  | _ => false
  end.

(** What [doc('')] throws. *)
Definition emptyPath : Errors.JsError :=
  Errors.mkError (Errors.Foreign "Error")
    ("Value for argument " +:+ String dquote "documentPath" +:+ String dquote
       " is not a valid resource path. Path must be a non-empty string.")
    None.

(** What [add] rejects with when the id drawn is taken. *)
Definition alreadyExists (id : string) : Errors.JsError :=
  Errors.mkError (Errors.Foreign "Error") ("6 ALREADY_EXISTS: Document already exists: " +:+ id)
    None.

(** A timestamp as stored, in milliseconds. *)
Definition stamp (now : N) : Json := numN now.

(** [toQuestionEntity(id, data)] and its two siblings: [{ id, ...data }]. *)
Definition toEntity (id : string) (data : Doc) : Doc :=
  data ∪ {[ "id" := JStr id ]}.

(** [data.userId !== userId] is false. *)
Definition owned (userId : string) (data : Doc) : bool :=
  match data !! "userId" with
  | Some (JStr owner) => String.eqb owner userId
  | _ => false
  end.

(** [getQuestionById], [getCategoryById], [getQualificationById].  [id]
    names a document of the collection itself, the empty string apart: it
    holds no [/], as the keys of a [Collection] do.  (A string with a slash
    is a path into another collection, or one that [doc()] refuses.) *)
Definition getById (k : Kind) (c : Collection) (userId id : string) : Promise Doc :=
  if String.eqb id "" then
    Rejected (newFirestoreError ("Failed to retrieve " +:+ noun k) (Errors.message emptyPath))
  else
    match c !! id with
    | None => Rejected (newNotFoundError (resource k) (Some id))
    | Some data =>
        (* CRITICAL: Verify userId matches *)
        if owned userId data then Resolved (toEntity id data)
        else Rejected (newNotFoundError (resource k) (Some id))
    end.

(** [createQuestion], [createCategory], [createQualification]; [generated]
    is the id [add] draws. *)
Definition create (k : Kind) (c : Collection) (userId : string) (input : Doc) (now : N)
    (generated : string) : Promise Doc * Collection :=
  let data : Doc :=
    <["updatedAt" := stamp now]>
      (<["createdAt" := stamp now]>
         (<["userId" := JStr userId]>        (* CRITICAL: Always set userId *)
            (input ∪ defaults k))) in
  match c !! generated with
  | Some _ =>
      (Rejected (newFirestoreError ("Failed to create " +:+ noun k)
                   (Errors.message (alreadyExists generated))), c)
  | None => (Resolved (toEntity generated data), <[generated := data]> c)
  end.

(** [doc(id).update(updateData)] on a document that exists. *)
Definition write (id : string) (updateData : Doc) (c : Collection) : Collection :=
  alter (fun data => updateData ∪ data) id c.

(** The [catch] block shared by the operations that first read the
    document: a [NotFoundError] is thrown on, anything else is wrapped. *)
Definition rethrow (action : string) (k : Kind) (error : Errors.JsError) : Errors.JsError :=
  if instanceofNotFoundError error then error
  else newFirestoreError ("Failed to " +:+ action +:+ " " +:+ noun k) (Errors.message error).

(** [updateQuestion], [updateCategory], [updateQualification] *)
Definition update (k : Kind) (c : Collection) (userId id : string) (updates : Doc) (now : N)
    : Promise Doc * Collection :=
  (* First verify the document exists and belongs to user *)
  match getById k c userId id with
  | Rejected error => (Rejected (rethrow "update" k error), c)
  | Resolved _ =>
      let updateData := <["updatedAt" := stamp now]> updates in
      let c' := write id updateData c in
      match getById k c' userId id with
      | Rejected error => (Rejected (rethrow "update" k error), c')
      | Resolved updated => (Resolved updated, c')
      end
  end.

(** [deleteQuestion(userId, questionId)]: a soft delete. *)
Definition deleteQuestion (c : Collection) (userId questionId : string) (now : N)
    : Promise unit * Collection :=
  match getById Question c userId questionId with
  | Rejected error => (Rejected (rethrow "delete" Question error), c)
  | Resolved _ =>
      (Resolved (),
       write questionId {[ "isActive" := JBool false; "updatedAt" := stamp now ]} c)
  end.

Record BatchOperationResult : Type := mkBatchResult {
  success : bool;
  processedCount : nat;
  errorCount : nat;
  errors : list (string * string)       (* id, error *)
}.

(** The [for] loop of [batchUpdateQuestions]: the writes put in the batch
    and the errors collected, both in order.  The batch is committed after
    the loop, so every ownership check reads the collection as it was. *)
Fixpoint collect (c : Collection) (userId : string) (updates : list (string * Doc)) (now : N)
    : list (string * Doc) * list (string * string) :=
  match updates with
  | [] => ([], [])
  | (questionId, data) :: rest =>
      let '(writes, errors) := collect c userId rest now in
      match getById Question c userId questionId with
      | Resolved _ => ((questionId, <["updatedAt" := stamp now]> data) :: writes, errors)
      | Rejected error => (writes, (questionId, Errors.message error) :: errors)
      end
  end.

(** [batch.commit()] *)
Definition commit (writes : list (string * Doc)) (c : Collection) : Collection :=
  foldl (fun c w => write (fst w) (snd w) c) c writes.

(** [batchUpdateQuestions(userId, updates)] *)
Definition batchUpdateQuestions (c : Collection) (userId : string)
    (updates : list (string * Doc)) (now : N) : Promise BatchOperationResult * Collection :=
  let '(writes, errors) := collect c userId updates now in
  (Resolved {| success := Nat.eqb (length errors) 0;
               processedCount := length writes;
               errorCount := length errors;
               errors := errors |},
   commit writes c).

End Firestore.

(** ** Requests of one user to the document service *)

Module Tenancy.
Import Firestore.

(** The three collections. *)
Record Db : Type := mkDb {
  questions : Collection;
  categories : Collection;
  qualifications : Collection
}.

Definition collection (k : Kind) (db : Db) : Collection :=
  match k with
  | Question => questions db
  | Category => categories db
  | Qualification => qualifications db
  end.

Definition store (k : Kind) (c : Collection) (db : Db) : Db :=
  match k with
  | Question => {| questions := c; categories := categories db;
                   qualifications := qualifications db |}
  | Category => {| questions := questions db; categories := c;
                   qualifications := qualifications db |}
  | Qualification => {| questions := questions db; categories := categories db;
                        qualifications := c |}
  end.

(** A call of one of the writing operations, with the time of the call. *)
Inductive Request : Type :=
| Create (k : Kind) (input : Doc) (now : N) (generated : string)
| Update (k : Kind) (id : string) (updates : Doc) (now : N)
| Delete (questionId : string) (now : N)
| BatchUpdate (updates : list (string * Doc)) (now : N).

Definition serve (userId : string) (db : Db) (r : Request) : Db :=
  match r with
  | Create k input now generated =>
      store k (snd (create k (collection k db) userId input now generated)) db
  | Update k id updates now =>
      store k (snd (update k (collection k db) userId id updates now)) db
  | Delete questionId now =>
      store Question (snd (deleteQuestion (questions db) userId questionId now)) db
  | BatchUpdate updates now =>
      store Question (snd (batchUpdateQuestions (questions db) userId updates now)) db
  end.

(** The field values a request would write. *)
Definition written (r : Request) : list Doc :=
  match r with
  | Create _ _ _ _ => []
  | Update _ _ updates _ => [updates]
  | Delete _ _ => []
  | BatchUpdate updates _ => map snd updates
  end.

(** No update of the request names the [userId] field, as the types of
    the service's parameters promise. *)
Definition keepsOwner (r : Request) : Prop :=
  Forall (fun updates : Doc => updates !! "userId" = None) (written r).

(** The user can read the question with this id. *)
Definition readable (c : Collection) (userId questionId : string) : bool :=
  match getById Question c userId questionId with
  | Resolved _ => true
  | Rejected _ => false
  end.

(** One operation on one collection: what becomes of a document. *)
Definition effect (userId : string) (c c' : Collection) (updates : list Doc) : Prop :=
  (forall id before, (c : Collection) !! id = Some before -> is_Some (c' !! id)) /\
  (forall id after,
     c' !! id = Some after ->
     match (c : Collection) !! id with
     | Some before =>
         after = before \/
         (owned userId before = true /\
          (Forall (fun updates : Doc => updates !! "userId" = None) updates ->
           after !! "userId" = before !! "userId"))
     | None => after !! "userId" = Some (JStr userId)
     end).

End Tenancy.

(** * Verification *)

Open Scope list_scope.

(** ** Reasoning over the content blocks of a response *)

Lemma executeTools_cons_tool allTools streaming context id name input blocks r :
  Executor.executeTools allTools streaming context
    (Anthropic.ToolUseBlock id name input :: blocks) r =
  let first := Executor.executeTool allTools streaming context id name input r in
  let others := Executor.executeTools allTools streaming context blocks (snd first) in
  (fst first :: fst others, snd others).
Proof.
  simpl. destruct (Executor.executeTool _ _ _ _ _ _ _) as [toolResult r1]. simpl.
  by destruct (Executor.executeTools _ _ _ _ r1) as [toolResults r2].
Qed.

(** Induction over the blocks: only the [tool_use] blocks need an argument,
    the other blocks being skipped. *)
Ltac over_blocks blocks IH :=
  induction blocks as [|[text|id name input|other] blocks IH]; intros;
  [ first [done | constructor]
  | by apply IH
  | rewrite executeTools_cons_tool; cbn [fst snd]
  | by apply IH ].

(** ** The streaming handle *)

Section Handle.
Import SSE Stream.

Lemma sendEvent_closed m event : isClosed m = true -> sendEvent m event = m.
Proof. intros Hc. unfold sendEvent. by rewrite Hc. Qed.

Lemma close_isClosed m : isClosed (close m) = true.
Proof. unfold close. destruct (isClosed m) eqn:E; [exact E | reflexivity]. Qed.

Lemma handleDisconnect_isClosed m : isClosed (handleDisconnect m) = true.
Proof. unfold handleDisconnect. destruct (isClosed m) eqn:E; [exact E | reflexivity]. Qed.

Lemma pingTick_closed m : isClosed m = true -> pingTick m = m.
Proof. intros Hc. unfold pingTick. rewrite Hc. by destruct (pingInterval m). Qed.

Create HintDb closed_handle discriminated.
#[local] Hint Resolve sendEvent_closed pingTick_closed : closed_handle.

Lemma step_closed m op : isClosed m = true -> step m op = m.
Proof.
  intros Hc.
  destruct op; simpl;
    unfold sendProgress, sendToolUse, sendThinking, sendComplete, sendError;
    auto with closed_handle.
  - unfold close. by rewrite Hc.
  - unfold handleDisconnect. by rewrite Hc.
Qed.

Lemma steps_closed ops : forall m, isClosed m = true -> foldl step m ops = m.
Proof.
  induction ops as [|op ops IH]; intros m Hc; simpl; [done|].
  rewrite (step_closed m op Hc). by apply IH.
Qed.

(** C9. Once a handle is closed, whether by the manager's [close] or by a
    remote disconnect, and whatever calls, disconnects and timer ticks follow,
    a send through any of the send methods returns normally and leaves the
    handle as it was; nothing is written after the moment of closing, and
    closing itself writes nothing. *)
Theorem send_after_close_is_silent (m : SSEManager) (ops : list Op) (event : SSEEvent)
    (msg toolName content : string) (progress : option nat) (input result : Json)
    (output code : option string) :
  let by_manager := foldl step (close m) ops in
  let by_remote := foldl step (handleDisconnect m) ops in
  Forall (fun h =>
            sendEvent h event = h /\
            sendProgress h msg progress = h /\
            sendToolUse h toolName input output = h /\
            sendThinking h content = h /\
            sendComplete h result = h /\
            sendError h msg code = h /\
            written (response h) = written (response m))
         [by_manager; by_remote].
Proof.
  simpl. rewrite !steps_closed by auto using close_isClosed, handleDisconnect_isClosed.
  repeat constructor;
    try (apply (step_closed _ (OpSendEvent event)));
    try (apply (step_closed _ (OpSendProgress msg progress)));
    try (apply (step_closed _ (OpSendToolUse toolName input output)));
    try (apply (step_closed _ (OpSendThinking content)));
    try (apply (step_closed _ (OpSendComplete result)));
    try (apply (step_closed _ (OpSendError msg code)));
    auto using close_isClosed, handleDisconnect_isClosed.
  - unfold close. by destruct (isClosed m).
  - unfold handleDisconnect. by destruct (isClosed m).
Qed.

End Handle.

(** ** Delivery of the events of one execution *)

Section Delivery.
Import Anthropic Tools SSE Stream StreamFormatter Executor Heartbeat.

(** The formatter's procedures send exactly the events named for them. *)
Lemma streamAgentResponse_events response m :
  streamAgentResponse response m = foldl sendEvent m (agentResponseEvents response).
Proof.
  unfold streamAgentResponse, agentResponseEvents. revert m.
  induction (content response) as [|b bs IH]; intros m; [done|].
  destruct b; simpl; by rewrite IH.
Qed.

Lemma streamToolResult_event toolName toolId parts m :
  streamToolResult toolName toolId parts m = sendEvent m (toolResultEvent toolName toolId parts).
Proof. done. Qed.

Lemma streamTaskCompletion_event taskId text metadata m :
  streamTaskCompletion taskId text metadata m = sendEvent m (completionEvent taskId text metadata).
Proof. done. Qed.

Lemma sendProgress_event msg progress m :
  sendProgress m msg progress = sendEvent m (progressEvent msg progress).
Proof. done. Qed.

Lemma appended_nil m : appended m [] = m.
Proof.
  destruct m as [[h w e t] c cl p]. unfold appended, with_response. simpl.
  by rewrite app_nil_r.
Qed.

Lemma appended_app m a b : appended (appended m a) b = appended m (a ++ b).
Proof.
  unfold appended, with_response. simpl. by rewrite map_app, app_assoc.
Qed.

Lemma live_appended m events : live m -> live (appended m events).
Proof. intros (Hc & Hp & Hw). unfold live, appended, with_response. simpl. done. Qed.

Lemma sendEvent_live m event : live m -> sendEvent m event = appended m [event].
Proof.
  intros (Hc & Hp & Hw). unfold sendEvent, write, appended. by rewrite Hc, Hw.
Qed.

Lemma pingTick_live m : live m -> pingTick m = appended m [pingEvent].
Proof.
  intros Hl. pose proof Hl as (Hc & Hp & Hw). unfold pingTick. rewrite Hp, Hc. simpl.
  by apply sendEvent_live.
Qed.

Lemma pings_live m t0 t :
  live m ->
  pings m t0 t =
  appended m (replicate (N.to_nat (t / PING_INTERVAL_MS - t0 / PING_INTERVAL_MS)) pingEvent).
Proof.
  intros Hl. unfold pings.
  induction (N.to_nat (t / PING_INTERVAL_MS - t0 / PING_INTERVAL_MS)) as [|n IH]; simpl.
  - by rewrite appended_nil.
  - rewrite IH, pingTick_live by (by apply live_appended).
    rewrite appended_app. f_equal.
    change (pingEvent :: replicate n pingEvent) with (replicate (S n) pingEvent).
    by rewrite replicate_S_end.
Qed.

Lemma pings_closed m t0 t : isClosed m = true -> pings m t0 t = m.
Proof.
  intros Hc. unfold pings.
  induction (N.to_nat (t / PING_INTERVAL_MS - t0 / PING_INTERVAL_MS)) as [|n IH]; simpl; [done|].
  rewrite IH. by apply pingTick_closed.
Qed.

Lemma pings_same m t : pings m t t = m.
Proof. unfold pings. by rewrite N.sub_diag. Qed.

Lemma streamError_live error m : live m -> streamError error m = appended m [errorEvent error].
Proof.
  intros Hl. pose proof Hl as (Hc & _). unfold streamError, closed. rewrite Hc. simpl.
  unfold sendError. by rewrite sendEvent_live.
Qed.

Lemma perform_closed m c : isClosed m = true -> perform m c = m.
Proof.
  intros Hc. destruct c; simpl.
  - by apply sendEvent_closed.
  - unfold streamError, closed. by rewrite Hc.
  - unfold close. by rewrite Hc.
Qed.

(** From a closed manager on, be it closed by the executor or by a
    disconnect, no call of a timeline has any effect. *)
Lemma replay_closed calls : forall m t0, isClosed m = true -> replay m t0 calls = m.
Proof.
  induction calls as [|[t c] calls IH]; intros m t0 Hc; simpl; [done|].
  rewrite pings_closed, perform_closed by done. by apply IH.
Qed.

(** A caller that has disconnected receives nothing more, whatever the
    execution still sends. *)
Lemma disconnected_caller_receives_nothing m t0 calls :
  replay (handleDisconnect m) t0 calls = handleDisconnect m.
Proof. apply replay_closed, handleDisconnect_isClosed. Qed.

Lemma reached_cons {A} t0 t (c : A) calls : reached t0 ((t, c) :: calls) = reached t calls.
Proof.
  unfold reached. simpl. destruct calls as [|[t' c'] calls]; simpl; [done|].
  generalize (map fst calls) as l. intros l. revert t'. induction l; intros; simpl; done.
Qed.

Lemma replay_app l1 : forall l2 m t0,
  replay m t0 (l1 ++ l2) = replay (replay m t0 l1) (reached t0 l1) l2.
Proof.
  induction l1 as [|[t c] l1 IH]; intros l2 m t0; simpl; [done|].
  by rewrite IH, reached_cons.
Qed.

Lemma replay_sends_live events : forall m t0,
  live m -> replay m t0 (sends events) = appended m (interleaved t0 events).
Proof.
  induction events as [|[t e] events IH]; intros m t0 Hl; simpl.
  - by rewrite appended_nil.
  - rewrite pings_live by done. rewrite sendEvent_live by (by apply live_appended).
    rewrite IH by (by do 2 apply live_appended).
    by rewrite !appended_app.
Qed.

(** *** The loop sends only progress, tool-use and thinking events *)

Lemma emit_quiet streaming events r :
  quiet (outbox r) -> Forall (fun e => type e ∈ loopTypes) events ->
  quiet (outbox (emit streaming events r)).
Proof.
  intros Hq He. unfold emit. destruct streaming; [|done]. simpl.
  apply Forall_app. split; [done|]. apply Forall_map.
  eapply Forall_impl; [exact He|]. by intros e.
Qed.

Lemma agentResponseEvents_types response :
  Forall (fun e => type e ∈ loopTypes) (agentResponseEvents response).
Proof.
  unfold agentResponseEvents. induction (content response) as [|b bs IH]; simpl; [constructor|].
  destruct b; simpl; [constructor; [|done] ..|done]; unfold loopTypes; repeat constructor.
Qed.

Lemma executeTool_quiet allTools streaming context id name input r :
  quiet (outbox r) ->
  quiet (outbox (snd (executeTool allTools streaming context id name input r))).
Proof.
  intros Hq. unfold executeTool.
  destruct (find _ allTools) as [tool|]; [|done].
  destruct (outcome _) as [res|error]; simpl; [|done].
  apply emit_quiet; [done|]. unfold loopTypes. repeat constructor.
Qed.

Lemma executeTools_quiet allTools streaming context blocks : forall r,
  quiet (outbox r) ->
  quiet (outbox (snd (executeTools allTools streaming context blocks r))).
Proof. over_blocks blocks IH. by apply IH, executeTool_quiet. Qed.

(** One turn of the loop in which the model asks for tools. *)
Lemma iterate_tool_use client allTools streaming context maxIterations remaining r response :
  settles (client (messages r)) = Resolved response ->
  stop_reason response = tool_use ->
  let r3 := emit streaming [progressEvent "Executing tools..." (Some 50)]
              (emit streaming (agentResponseEvents response)
                 (completed response (wait (latency (client (messages r))) r))) in
  let ran := executeTools allTools streaming context (content response) r3 in
  iterate client allTools streaming context maxIterations (S remaining) r =
  iterate client allTools streaming context maxIterations remaining
    (push [ {| role := assistant; param_content := OfBlocks (content response) |};
            {| role := user; param_content := OfToolResults (fst ran) |} ] (snd ran)).
Proof.
  intros Hs Hr. simpl. rewrite Hs, Hr.
  by destruct (executeTools _ _ _ _ _) as [toolResults r4].
Qed.

Lemma iterate_quiet client allTools streaming context maxIterations remaining : forall r,
  quiet (outbox r) ->
  quiet (outbox (snd (iterate client allTools streaming context maxIterations remaining r))).
Proof.
  induction remaining as [|n IH]; intros r Hq; [done|].
  destruct (settles (client (messages r))) as [response|error] eqn:Hs;
    [|by simpl; rewrite Hs].
  assert (quiet (outbox (emit streaming (agentResponseEvents response)
                           (completed response (wait (latency (client (messages r))) r)))))
    as Hq2 by (apply emit_quiet; [done|apply agentResponseEvents_types]).
  destruct (stop_reason response) eqn:Hstop;
    try (by simpl; rewrite Hs, Hstop).
  rewrite (iterate_tool_use _ _ _ _ _ _ _ response Hs Hstop). simpl.
  apply IH. simpl. apply executeTools_quiet, emit_quiet; [done|].
  unfold loopTypes. repeat constructor.
Qed.

Lemma quiet_filter f box : quiet box -> quiet (List.filter f box).
Proof.
  unfold quiet. induction 1 as [|te box Hte Hbox IH]; simpl; [constructor|].
  destruct (f te); [by constructor|done].
Qed.

Lemma filter_pings n : List.filter (fun e => negb (isPing e)) (replicate n pingEvent) = [].
Proof. induction n as [|n IH]; simpl; done. Qed.

Lemma pings_types n : Forall (fun e => type e ∈ streamTypes) (replicate n pingEvent).
Proof.
  induction n as [|n IH]; simpl; constructor; [|done].
  unfold streamTypes. simpl. repeat constructor.
Qed.

Lemma loopTypes_streamTypes t : t ∈ loopTypes -> t ∈ streamTypes.
Proof.
  unfold loopTypes, streamTypes. intros H.
  repeat (apply elem_of_cons in H as [->|H]); try (by repeat constructor).
Qed.

Lemma loopTypes_not_ping e : type e ∈ loopTypes -> isPing e = false.
Proof.
  unfold loopTypes, isPing. intros H. destruct (type e); try done.
  repeat (apply elem_of_cons in H as [?|H]); try done. by apply elem_of_nil in H.
Qed.

Lemma interleaved_types events : forall t0,
  quiet events -> Forall (fun e => type e ∈ streamTypes) (interleaved t0 events).
Proof.
  induction events as [|[t e] events IH]; intros t0 Hq; simpl; [constructor|].
  inversion Hq as [|? ? He Hq']; subst. simpl in He.
  apply Forall_app. split; [apply pings_types|].
  constructor; [by apply loopTypes_streamTypes|by apply IH].
Qed.

Lemma interleaved_filter events : forall t0,
  quiet events ->
  List.filter (fun e => negb (isPing e)) (interleaved t0 events) = map snd events.
Proof.
  induction events as [|[t e] events IH]; intros t0 Hq; simpl; [done|].
  inversion Hq as [|? ? He Hq']; subst. simpl in He.
  rewrite List.filter_app, filter_pings. simpl.
  rewrite (loopTypes_not_ping e He). simpl. by rewrite IH.
Qed.

(** *** The loop sends in time order *)

Lemma reached_app {A} (a b : list (N * A)) t0 :
  reached t0 (a ++ b) = reached (reached t0 a) b.
Proof.
  revert t0. induction a as [|[t c] a IH]; intros t0; [done|].
  by rewrite <- app_comm_cons, !reached_cons.
Qed.


Lemma ascending_reached box : forall t0, ascending t0 box -> (t0 <= reached t0 box)%N.
Proof.
  induction box as [|[t e] box IH]; intros t0; simpl; [unfold reached; simpl; lia|].
  intros [Ht Hb]. rewrite reached_cons. apply IH in Hb. lia.
Qed.

Lemma ascending_app a : forall b t0,
  ascending t0 a -> ascending (reached t0 a) b -> ascending t0 (a ++ b).
Proof.
  induction a as [|[t e] a IH]; intros b t0; simpl; [done|].
  intros [Ht Ha] Hb. rewrite reached_cons in Hb. split; [done|by apply IH].
Qed.


Lemma ascending_bounded box : forall t0,
  ascending t0 box -> Forall (fun te => (fst te <= reached t0 box)%N) box.
Proof.
  induction box as [|[t e] box IH]; intros t0; simpl; [constructor|].
  intros [Ht Hb]. rewrite reached_cons. constructor.
  - simpl. by apply ascending_reached.
  - by apply IH.
Qed.

(** A loop that ends before the deadline has sent all its events before
    it. *)
Lemma sentBefore_all deadline r :
  timely r -> (now r < deadline)%N -> sentBefore deadline (outbox r) = outbox r.
Proof.
  intros [Ha Hn] Hlt. pose proof (ascending_bounded _ _ Ha) as Hb.
  unfold sentBefore. induction Hb as [|te box Hte Hb IH]; simpl; [done|].
  replace (fst te <? deadline)%N with true by (symmetry; apply N.ltb_lt; lia).
  by rewrite IH.
Qed.


Lemma emit_timely streaming events r : timely r -> timely (emit streaming events r).
Proof.
  intros [Ha Hn]. unfold emit, timely. destruct streaming; [|done]. simpl.
  assert (ascending (reached 0 (outbox r)) (map (fun e => (now r, e)) events)
          /\ (reached (reached 0 (outbox r)) (map (fun e => (now r, e)) events) <= now r)%N)
    as [Hasc Hlast].
  { generalize dependent (reached 0 (outbox r)). clear Ha.
    induction events as [|e events IH]; intros t Ht; simpl; [done|].
    rewrite reached_cons. destruct (IH (now r)) as [Ha Hl]; [lia|]. by repeat split. }
  split; [by apply ascending_app|by rewrite reached_app].
Qed.

Lemma wait_timely dt r : timely r -> timely (wait dt r).
Proof. intros [Ha Hn]. split; simpl; [done|lia]. Qed.

Lemma executeTool_timely allTools streaming context id name input r :
  timely r -> timely (snd (executeTool allTools streaming context id name input r)).
Proof.
  intros Hr. unfold executeTool. destruct (find _ allTools) as [tool|]; [|done].
  destruct (outcome _); simpl; [apply emit_timely|]; by apply wait_timely.
Qed.

Lemma executeTools_timely allTools streaming context blocks : forall r,
  timely r -> timely (snd (executeTools allTools streaming context blocks r)).
Proof. over_blocks blocks IH. by apply IH, executeTool_timely. Qed.

Lemma iterate_timely client allTools streaming context maxIterations remaining : forall r,
  timely r ->
  timely (snd (iterate client allTools streaming context maxIterations remaining r)).
Proof.
  induction remaining as [|n IH]; intros r Hr; [done|].
  destruct (settles (client (messages r))) as [response|error] eqn:Hs;
    [|by simpl; rewrite Hs; apply wait_timely].
  assert (timely (emit streaming (agentResponseEvents response)
                    (completed response (wait (latency (client (messages r))) r)))) as Hr2
    by (by apply emit_timely, (wait_timely _ r)).
  destruct (stop_reason response) eqn:Hstop;
    try (by simpl; rewrite Hs, Hstop).
  rewrite (iterate_tool_use _ _ _ _ _ _ _ response Hs Hstop). cbn zeta.
  apply IH. unfold push. split; simpl; apply executeTools_timely, emit_timely, Hr2.
Qed.

(** The manager at the end of a timeline whose continuation sends one
    terminal event and closes. *)
Lemma replay_timeline m0 deadline settled c terminal box :
  live m0 -> quiet box ->
  (forall m, live m -> perform m c = appended m [terminal]) ->
  exists body,
    replay m0 0 (timeline deadline settled [c; Close] box)
    = close (appended m0 (body ++ [terminal])) /\
    Forall (fun e => type e ∈ streamTypes) body /\
    List.filter (fun e => negb (isPing e)) body = map snd (sentBefore deadline box).
Proof.
  intros Hl Hq Hc.
  exists (interleaved 0 (sentBefore deadline box)
          ++ replicate (N.to_nat (settled / PING_INTERVAL_MS
                                  - reached 0 (sends (sentBefore deadline box))
                                    / PING_INTERVAL_MS))
                       pingEvent).
  split; [|split].
  - unfold timeline.
    rewrite replay_app, replay_sends_live by done. cbn [map app replay perform].
    rewrite pings_same.
    rewrite pings_live by (by apply live_appended).
    rewrite Hc by (by do 2 apply live_appended).
    rewrite !appended_app.
    rewrite replay_closed by apply close_isClosed.
    by rewrite <- app_assoc.
  - apply Forall_app. split; [|apply pings_types].
    by apply interleaved_types, quiet_filter.
  - rewrite List.filter_app, filter_pings, app_nil_r.
    by apply interleaved_filter, quiet_filter.
Qed.

Lemma close_appended m events :
  live m ->
  let m' := close (appended m events) in
  written (response m') = written (response m) ++ map wire events /\
  isClosed m' = true /\ ended (response m') = true.
Proof.
  intros (Hc & Hp & Hw). unfold close, appended, with_response. simpl. rewrite Hc. by simpl.
Qed.

Lemma createSSEManager_live res clientId :
  write_throws res = false -> live (createSSEManager res clientId).
Proof. intros Hw. by repeat split. Qed.

Lemma firstRun_quiet streaming input docs : quiet (outbox (firstRun streaming input docs)).
Proof.
  unfold firstRun. apply emit_quiet; [constructor|]. unfold loopTypes. repeat constructor.
Qed.

(** C7, corrected statement. On a fresh connection whose writes succeed and whose
    caller stays connected, what is written is a body of progress, tool-use,
    thinking and heartbeat ping events followed by exactly one terminal event,
    [complete] when the task succeeded and [error] otherwise; the events of
    the body other than pings are, in the order sent, those the executor
    sent before the instant of the timeout, which are all it sent when the
    task did not time out; the manager is then closed, the response ended,
    and no later call delivers anything. *)
Theorem stream_is_body_then_one_terminal_event
    (cfg : Config.ClaudeConfig) (env : Config.Environment) (client : Client)
    (allTools : list Tool) (uuid clientId : string) (input : AgentTaskInput)
    (res : Response) (docs : Documents) :
  written res = [] -> write_throws res = false ->
  let run := executeTask cfg env client allTools uuid input
               (Some (createSSEManager res clientId)) docs in
  exists m body terminal,
    sse run = Some m /\
    shaped [PROGRESS; TOOL_USE; THINKING; PING] (written (response m)) body terminal /\
    (type terminal = COMPLETE <-> exists result, returned run = Resolved result) /\
    List.filter (fun e => negb (isPing e)) body
      = map snd (sentBefore (Config.AGENT_TIMEOUT_MS env) (outbox (loop_end run))) /\
    ((now (loop_end run) < Config.AGENT_TIMEOUT_MS env)%N ->
     List.filter (fun e => negb (isPing e)) body = map snd (outbox (loop_end run))) /\
    isClosed m = true /\ ended (response m) = true /\
    forall late, step m late = m.
Proof.
  intros Hw Ht run. subst run. unfold executeTask.
  assert (timely (firstRun true input docs)) as Hfirst.
  { unfold firstRun. apply emit_timely. split; simpl; [done|]. unfold reached. simpl. lia. }
  pose proof (iterate_timely client allTools true (contextOf uuid input)
                (Config.MAX_ITERATIONS cfg) (Config.MAX_ITERATIONS cfg)
                (firstRun true input docs) Hfirst) as Htimely.
  pose proof (iterate_quiet client allTools true (contextOf uuid input)
                (Config.MAX_ITERATIONS cfg) (Config.MAX_ITERATIONS cfg)
                (firstRun true input docs) (firstRun_quiet true input docs)) as Hq.
  fold (executeAgentLoop cfg client allTools true (contextOf uuid input)
          (firstRun true input docs)) in Hq, Htimely.
  destruct (executeAgentLoop _ _ _ _ _ _) as [settlement r]. simpl in Hq, Htimely.
  pose proof (createSSEManager_live res clientId Ht) as Hl.
  destruct (winner _) as [final|error] eqn:W; simpl.
  - match goal with
    | |- context [timeline ?d ?s [Send ?e; Close] ?box] =>
        destruct (replay_timeline (createSSEManager res clientId) d s (Send e) e box Hl Hq
                    (fun m Hm => sendEvent_live m e Hm)) as (body & Hr & Hb & Hf);
        destruct (close_appended (createSSEManager res clientId) (body ++ [e]) Hl)
          as (Hwr & Hcl & Hen);
        exists (close (appended (createSSEManager res clientId) (body ++ [e]))), body, e
    end.
    rewrite Hr. split; [reflexivity|].
    split; [|split; [|split; [|split; [|split; [|split]]]]].
    + split; [|split];
        [ rewrite Hwr; change (written (response (createSSEManager res clientId)))
                         with (written res); by rewrite Hw
        | done | simpl; repeat constructor ].
    + simpl. split; [eauto|done].
    + exact Hf.
    + intros Hlt. by rewrite Hf, (sentBefore_all _ r Htimely Hlt).
    + exact Hcl.
    + exact Hen.
    + intros late. by apply step_closed.
  - match goal with
    | |- context [timeline ?d ?s [StreamError ?e; Close] ?box] =>
        destruct (replay_timeline (createSSEManager res clientId) d s (StreamError e)
                    (errorEvent e) box Hl Hq (fun m Hm => streamError_live e m Hm))
          as (body & Hr & Hb & Hf);
        destruct (close_appended (createSSEManager res clientId) (body ++ [errorEvent e]) Hl)
          as (Hwr & Hcl & Hen);
        exists (close (appended (createSSEManager res clientId) (body ++ [errorEvent e]))),
               body, (errorEvent e)
    end.
    rewrite Hr. split; [reflexivity|].
    split; [|split; [|split; [|split; [|split; [|split]]]]].
    + split; [|split];
        [ rewrite Hwr; change (written (response (createSSEManager res clientId)))
                         with (written res); by rewrite Hw
        | done | simpl; repeat constructor ].
    + simpl. split; [done|]. by intros [? ?].
    + exact Hf.
    + intros Hlt. by rewrite Hf, (sentBefore_all _ r Htimely Hlt).
    + exact Hcl.
    + exact Hen.
    + intros late. by apply step_closed.
Qed.

Lemma stream_is_body_then_one_terminal_event_witness :
  written Scenario.freshResponse = [] /\ write_throws Scenario.freshResponse = false /\
  let run := executeTask Config.CLAUDE_CONFIG Config.default_env Scenario.listingModel
               [Scenario.getCategories] Scenario.uuid Scenario.listCategories
               (Some (createSSEManager Scenario.freshResponse "client-1")) ∅ in
  exists m body terminal,
    sse run = Some m /\
    shaped [PROGRESS; TOOL_USE; THINKING; PING] (written (response m)) body terminal /\
    (type terminal = COMPLETE <-> exists result, returned run = Resolved result) /\
    List.filter (fun e => negb (isPing e)) body
      = map snd (sentBefore (Config.AGENT_TIMEOUT_MS Config.default_env)
                   (outbox (loop_end run))) /\
    ((now (loop_end run) < Config.AGENT_TIMEOUT_MS Config.default_env)%N ->
     List.filter (fun e => negb (isPing e)) body = map snd (outbox (loop_end run))) /\
    isClosed m = true /\ ended (response m) = true /\
    forall late, step m late = m.
Proof.
  split; [reflexivity|]. split; [reflexivity|].
  apply (stream_is_body_then_one_terminal_event Config.CLAUDE_CONFIG Config.default_env
           Scenario.listingModel [Scenario.getCategories] Scenario.uuid "client-1"
           Scenario.listCategories Scenario.freshResponse ∅); reflexivity.
Defined.

(** The chunks written when the model takes 20 seconds to answer: a
    heartbeat sits between the start event and the model's text. *)
Lemma slow_run_chunks m :
  sse (executeTask Config.CLAUDE_CONFIG Config.default_env Scenario.slowModel []
         Scenario.uuid Scenario.listCategories
         (Some (createSSEManager Scenario.freshResponse "client-1")) ∅) = Some m ->
  written (response m)
  = map wire
      [ progressEvent "Starting task execution..." (Some 0);
        pingEvent;
        {| type := THINKING; data := obj [("content", Some (JStr "Done."))]; timestamp := None |};
        completionEvent Scenario.uuid "Done."
          (resultJson {| taskId := Scenario.uuid; result := "Done."; toolsUsed := 0;
                         iterations := 1; durationMs := 20000; tokensUsed := None |}) ].
Proof. intros H. vm_compute in H. injection H as <-. vm_compute. reflexivity. Qed.

Lemma wire_of_loop_event_is_not_a_ping e : type e ∈ loopTypes -> wire e <> wire pingEvent.
Proof.
  unfold loopTypes. intros H Heq.
  unfold wire, formatSSEMessage in Heq.
  repeat (apply elem_of_cons in H as [H|H]); try (by apply elem_of_nil in H);
    rewrite H in Heq; simpl in Heq; discriminate.
Qed.

(** A run whose only model call is answered at the instant of the
    timeout: the timer is served first, so the task fails with the timeout
    error, and the thinking event the loop sends at that instant finds the
    stream closed.  What is written is the start event, the eight heartbeats
    due by then and the error event. *)
Example answer_at_the_deadline_is_not_delivered :
  let run := executeTask Config.CLAUDE_CONFIG Config.default_env Scenario.punctualModel []
               Scenario.uuid Scenario.listCategories
               (Some (createSSEManager Scenario.freshResponse "client-1")) ∅ in
  returned run = Rejected (timedOut 120000) /\
  map snd (outbox (loop_end run))
  = [ progressEvent "Starting task execution..." (Some 0);
      {| type := THINKING; data := obj [("content", Some (JStr "Done."))];
         timestamp := None |} ] /\
  exists m,
    sse run = Some m /\
    written (response m)
    = map wire (progressEvent "Starting task execution..." (Some 0)
                :: replicate 8 pingEvent ++ [errorEvent (timedOut 120000)]).
Proof. cbv zeta. split; [by vm_compute|]. split; [by vm_compute|]. eexists. by vm_compute. Qed.

(** C7, counterexample to the claim as stated: in a run whose only model call
    takes 20 seconds, the second chunk delivered is a heartbeat, so what is
    delivered is not a sequence of progress, tool-use and thinking events
    followed by a terminal event. *)
Lemma heartbeat_breaks_claimed_shape :
  exists m,
    sse (executeTask Config.CLAUDE_CONFIG Config.default_env Scenario.slowModel []
           Scenario.uuid Scenario.listCategories
           (Some (createSSEManager Scenario.freshResponse "client-1")) ∅) = Some m /\
    forall body terminal,
      ~ shaped [PROGRESS; TOOL_USE; THINKING] (written (response m)) body terminal.
Proof.
  destruct (sse _) as [m|] eqn:Hs; [|by vm_compute in Hs].
  exists m. split; [reflexivity|].
  intros body terminal (Hw & Hb & _).
  rewrite (slow_run_chunks m Hs) in Hw.
  destruct body as [|b1 [|b2 body]]; cbn [map app] in Hw.
  - discriminate Hw.
  - discriminate Hw.
  - pose proof (f_equal (fun chunks => nth 1 chunks "") Hw) as Hping. cbn [nth] in Hping.
    inversion Hb as [|? ? _ Hb']; subst. inversion Hb' as [|? ? H2 _]; subst.
    symmetry in Hping. by apply (wire_of_loop_event_is_not_a_ping b2 H2).
Qed.

End Delivery.

(** ** The executor: context, loop, tools, race *)

Section Loop.
Import Anthropic Tools Executor Dispatch Config.

Lemma emit_invocations streaming events r :
  invocations (emit streaming events r) = invocations r.
Proof. unfold emit. by destruct streaming. Qed.

Lemma emit_completions streaming events r :
  completions (emit streaming events r) = completions r.
Proof. unfold emit. by destruct streaming. Qed.

Lemma emit_messages streaming events r : messages (emit streaming events r) = messages r.
Proof. unfold emit. by destruct streaming. Qed.

Lemma executeTool_calledWith allTools streaming context id name input r :
  calledWith context r ->
  calledWith context (snd (executeTool allTools streaming context id name input r)).
Proof.
  intros Hr. unfold executeTool, calledWith.
  destruct (find _ allTools) as [tool|]; [|done].
  destruct (outcome _) as [res|error]; simpl; rewrite ?emit_invocations; simpl;
    (apply Forall_app; split; [done|by repeat constructor]).
Qed.

Lemma executeTool_completions allTools streaming context id name input r :
  completions (snd (executeTool allTools streaming context id name input r)) = completions r.
Proof.
  unfold executeTool. destruct (find _ allTools) as [tool|]; [|done].
  destruct (outcome _) as [res|error]; simpl; by rewrite ?emit_completions.
Qed.

Lemma executeTool_messages allTools streaming context id name input r :
  messages (snd (executeTool allTools streaming context id name input r)) = messages r.
Proof.
  unfold executeTool. destruct (find _ allTools) as [tool|]; [|done].
  destruct (outcome _) as [res|error]; simpl; by rewrite ?emit_messages.
Qed.

Lemma executeTools_calledWith allTools streaming context blocks : forall r,
  calledWith context r ->
  calledWith context (snd (executeTools allTools streaming context blocks r)).
Proof. over_blocks blocks IH. by apply IH, executeTool_calledWith. Qed.

Lemma executeTools_completions allTools streaming context blocks : forall r,
  completions (snd (executeTools allTools streaming context blocks r)) = completions r.
Proof. over_blocks blocks IH. by rewrite IH, executeTool_completions. Qed.

Lemma executeTools_messages allTools streaming context blocks : forall r,
  messages (snd (executeTools allTools streaming context blocks r)) = messages r.
Proof. over_blocks blocks IH. by rewrite IH, executeTool_messages. Qed.

Lemma iterate_calledWith client allTools streaming context maxIterations remaining : forall r,
  calledWith context r ->
  calledWith context (snd (iterate client allTools streaming context maxIterations remaining r)).
Proof.
  induction remaining as [|n IH]; intros r Hr; [done|].
  destruct (settles (client (messages r))) as [response|error] eqn:Hs;
    [|by simpl; rewrite Hs].
  destruct (stop_reason response) eqn:Hstop;
    try (simpl; rewrite Hs, Hstop; simpl; unfold calledWith; by rewrite emit_invocations).
  rewrite (iterate_tool_use _ _ _ _ _ _ _ response Hs Hstop). simpl.
  apply IH. unfold calledWith. simpl. apply executeTools_calledWith.
  unfold calledWith. by rewrite !emit_invocations.
Qed.

Lemma iterate_returns_last client allTools streaming context maxIterations remaining :
  forall r response r',
  iterate client allTools streaming context maxIterations remaining r = (Resolved response, r') ->
  last (completions r') = Some response.
Proof.
  induction remaining as [|n IH]; intros r response r' Hi; [done|].
  destruct (settles (client (messages r))) as [answer|error] eqn:Hs;
    [|by simpl in Hi; rewrite Hs in Hi].
  destruct (stop_reason answer) eqn:Hstop;
    try (simpl in Hi; rewrite Hs, Hstop in Hi; inversion Hi; subst;
         rewrite emit_completions; simpl; by rewrite last_snoc).
  rewrite (iterate_tool_use _ _ _ _ _ _ _ answer Hs Hstop) in Hi. simpl in Hi.
  by apply IH in Hi.
Qed.

(** One turn of the loop in which the model asks for tools, in one step. *)
Lemma iterate_afterTools client allTools streaming context maxIterations remaining r response :
  settles (client (messages r)) = Resolved response ->
  stop_reason response = tool_use ->
  iterate client allTools streaming context maxIterations (S remaining) r =
  iterate client allTools streaming context maxIterations remaining
    (afterTools client allTools streaming context r response).
Proof. intros Hs Hstop. by rewrite (iterate_tool_use _ _ _ _ _ _ _ response Hs Hstop). Qed.

Lemma afterTools_completions client allTools streaming context r response :
  completions (afterTools client allTools streaming context r response)
  = completions r ++ [response].
Proof.
  unfold afterTools. simpl. by rewrite executeTools_completions, !emit_completions.
Qed.

Lemma iterate_exhausts client allTools streaming context maxIterations :
  forall remaining r,
  neverCompletes client allTools streaming context remaining r ->
  exists r',
    iterate client allTools streaming context maxIterations remaining r
      = (Rejected (exceeded context maxIterations), r') /\
    length (completions r') = length (completions r) + remaining.
Proof.
  induction remaining as [|n IH]; intros r Hnever.
  - exists r. split; [done|lia].
  - destruct Hnever as (response & Hs & Hstop & Hnext).
    rewrite (iterate_afterTools _ _ _ _ _ _ _ response Hs Hstop).
    destruct (IH _ Hnext) as (r' & Hi & Hlen).
    exists r'. split; [done|].
    rewrite Hlen, afterTools_completions, length_app. simpl. lia.
Qed.

(** A model that asks for tools whatever it is told never completes. *)
Lemma alwaysAsksForTools_neverCompletes client allTools streaming context :
  alwaysAsksForTools client ->
  forall remaining r, neverCompletes client allTools streaming context remaining r.
Proof.
  intros Hc. induction remaining as [|n IH]; intros r; [done|].
  destruct (Hc (messages r)) as (response & Hs & Hstop).
  exists response. by repeat split.
Qed.

(** Whatever the model does, the loop makes at most [remaining] calls. *)
Lemma iterate_calls_bounded client allTools streaming context maxIterations remaining :
  forall r,
  length (completions (snd (iterate client allTools streaming context maxIterations
                              remaining r)))
  <= length (completions r) + remaining.
Proof.
  induction remaining as [|n IH]; intros r; [simpl; lia|].
  destruct (settles (client (messages r))) as [response|error] eqn:Hs;
    [|simpl; rewrite Hs; simpl; lia].
  destruct (stop_reason response) eqn:Hstop;
    try (simpl; rewrite Hs, Hstop; simpl; rewrite emit_completions; simpl;
         rewrite length_app; simpl; lia).
  rewrite (iterate_tool_use _ _ _ _ _ _ _ response Hs Hstop). simpl.
  etransitivity; [apply IH|]. simpl.
  rewrite executeTools_completions, !emit_completions. simpl. rewrite length_app. simpl. lia.
Qed.

(** [executeTask] in terms of the loop and the race. *)
Lemma executeTask_unfold cfg env client allTools uuid input sseManager docs :
  let streaming := match sseManager with Some _ => true | None => false end in
  let loop := executeAgentLoop cfg client allTools streaming (contextOf uuid input)
                (firstRun streaming input docs) in
  let race := executeWithTimeout (fst loop) (now (snd loop)) (AGENT_TIMEOUT_MS env) in
  let run := executeTask cfg env client allTools uuid input sseManager docs in
  loop_end run = snd loop /\
  returned_at run = settled_at race /\
  returned run =
    match winner race with
    | Resolved response => Resolved (resultOf uuid response (settled_at race))
    | Rejected error =>
        Rejected (if Errors.instanceofTimeoutError error then error
                  else wrapped error uuid 0 0 (settled_at race))
    end.
Proof.
  simpl. unfold executeTask.
  destruct (executeAgentLoop _ _ _ _ _ _) as [settlement r]. simpl.
  by destruct (winner _).
Qed.

(** No execution makes more than [MAX_ITERATIONS] model calls. *)
Lemma executeTask_calls_bounded cfg env client allTools uuid input sseManager docs :
  length (completions (loop_end (executeTask cfg env client allTools uuid input
                                   sseManager docs)))
  <= MAX_ITERATIONS cfg.
Proof.
  destruct (executeTask_unfold cfg env client allTools uuid input sseManager docs) as (-> & _).
  unfold executeAgentLoop.
  etransitivity; [apply iterate_calls_bounded|].
  unfold firstRun. rewrite emit_completions. simpl. lia.
Qed.

(** Every tool call of an execution is handed the context built by
    [executeTask]. *)
Lemma executeTask_calledWith cfg env client allTools uuid input sseManager docs :
  calledWith (contextOf uuid input)
             (loop_end (executeTask cfg env client allTools uuid input sseManager docs)).
Proof.
  destruct (executeTask_unfold cfg env client allTools uuid input sseManager docs) as (-> & _).
  apply iterate_calledWith. unfold calledWith, firstRun. by rewrite emit_invocations.
Qed.

(** C1, defect. The context every tool call receives has the call's
    random task UUID in its [userId] field and the caller's owner identity in
    its [taskId] field: the two are bound the wrong way round.  For the owner
    "user-123" and a model that asks for [get_categories], the one tool call
    made is scoped to the UUID. *)
Theorem tools_are_scoped_to_the_task_uuid :
  (forall cfg env client allTools uuid input sseManager docs,
     Forall (fun i => Context.userId (invoked_context i) = uuid /\
                      Context.taskId (invoked_context i) = userId input)
       (invocations (loop_end (executeTask cfg env client allTools uuid input sseManager docs)))) /\
  map (fun i => (invoked i, Context.userId (invoked_context i),
                 Context.taskId (invoked_context i)))
    (invocations (loop_end (executeTask CLAUDE_CONFIG default_env Scenario.listingModel
                              [Scenario.getCategories] Scenario.uuid Scenario.listCategories
                              None ∅)))
  = [("get_categories", "550e8400-e29b-41d4-a716-446655440000", "user-123")].
Proof.
  split; [|by vm_compute].
  intros. eapply Forall_impl; [apply executeTask_calledWith|].
  intros i ->. by split.
Qed.

(** C3, defect. A task in which the model asks for one tool and then
    completes takes two model calls and one tool call, but the result reports
    one iteration and no tool used. *)
Theorem metadata_of_a_two_call_run :
  let run := executeTask CLAUDE_CONFIG default_env Scenario.listingModel
               [Scenario.getCategories] Scenario.uuid Scenario.listCategories None ∅ in
  length (completions (loop_end run)) = 2 /\
  length (invocations (loop_end run)) = 1 /\
  exists outcome,
    returned run = Resolved outcome /\ iterations outcome = 1 /\ toolsUsed outcome = 0.
Proof. vm_compute. repeat split. eexists. repeat split. Qed.

Lemma emit_store streaming events r : store (emit streaming events r) = store r.
Proof. unfold emit. by destruct streaming. Qed.

Lemma executeTool_answers allTools streaming context id name input r :
  answers allTools context (store r) (id, name, input)
          (fst (executeTool allTools streaming context id name input r)).
Proof.
  unfold answers, executeTool.
  destruct (find _ allTools) as [tool|] eqn:Hfind; [|by simpl].
  by destruct (outcome (execute tool input context (store r))) as [res|error].
Qed.

Lemma executeTool_leaves allTools streaming context id name input r :
  store (snd (executeTool allTools streaming context id name input r))
  = leaves allTools context (store r) (id, name, input).
Proof.
  unfold leaves, executeTool.
  destruct (find _ allTools) as [tool|] eqn:Hfind; [|done].
  destruct (outcome _) as [res|error]; simpl; by rewrite ?emit_store.
Qed.

Lemma executeTools_answered allTools streaming context blocks : forall r,
  answered allTools context (store r) (toolUses blocks)
           (fst (executeTools allTools streaming context blocks r))
           (store (snd (executeTools allTools streaming context blocks r))).
Proof.
  induction blocks as [|[text|id name input|other] blocks IH]; intros r;
    [constructor|by apply IH| |by apply IH].
  rewrite executeTools_cons_tool. cbn [fst snd toolUses omap].
  apply answered_next; [apply executeTool_answers|].
  rewrite <- (executeTool_leaves allTools streaming). apply IH.
Qed.

Lemma afterTools_turns client allTools streaming context r response :
  exists results,
    answered allTools context (store r) (toolUses (content response)) results
             (store (afterTools client allTools streaming context r response)) /\
    messages (afterTools client allTools streaming context r response)
    = messages r ++
        [ {| role := assistant; param_content := OfBlocks (content response) |};
          {| role := user; param_content := OfToolResults results |} ].
Proof.
  unfold afterTools.
  set (r3 := emit streaming _ (emit streaming _ _)).
  exists (fst (executeTools allTools streaming context (content response) r3)). split.
  - replace (store r) with (store r3) by (subst r3; by rewrite !emit_store).
    apply executeTools_answered.
  - simpl. rewrite executeTools_messages. subst r3. by rewrite !emit_messages.
Qed.

(** The loop only ever adds to the conversation and to the responses it
    has received. *)
Lemma iterate_extends client allTools streaming context maxIterations remaining : forall r,
  let ended := snd (iterate client allTools streaming context maxIterations remaining r) in
  (exists later, messages ended = messages r ++ later) /\
  (exists later, completions ended = completions r ++ later).
Proof.
  induction remaining as [|n IH]; intros r; simpl.
  - split; exists []; by rewrite app_nil_r.
  - destruct (settles (client (messages r))) as [response|error] eqn:Hs;
      [|split; exists []; by rewrite app_nil_r].
    destruct (stop_reason response) eqn:Hstop;
      try (simpl; rewrite emit_messages, emit_completions; simpl;
           split; [exists []; by rewrite app_nil_r|by exists [response]]).
    pose proof (iterate_afterTools client allTools streaming context maxIterations n r
                  response Hs Hstop) as Hturn.
    simpl in Hturn. rewrite Hs, Hstop in Hturn. rewrite Hturn.
    destruct (IH (afterTools client allTools streaming context r response))
      as [[later Hm] [answered_later Hc]].
    destruct (afterTools_turns client allTools streaming context r response)
      as (results & _ & Hturns).
    rewrite Hm, Hc, Hturns, afterTools_completions, <- !app_assoc. eauto.
Qed.

(** C4. When a response asks for tools, each call it asks for gets exactly
    one outcome, in the order asked and carrying the call's correlation id:
    the synthesized "not found" error for a name the registry does not have,
    an error outcome with the message thrown for a tool that threw, the
    tool's content otherwise, each tool running on the documents as the
    calls before it left them.  No outcome aborts the task: the loop goes on
    with the conversation extended by the assistant turn and one user turn
    holding these outcomes, which stay in the conversation to the end.  What
    happens next is decided by the iteration bound and the next model call
    alone: with no iteration left the loop fails for that reason; otherwise
    the model is called on the extended conversation, its failure is the
    loop's failure, its response is recorded and, unless it asks for tools
    again, is the loop's result. *)
Theorem every_tool_call_is_answered
    (client : Client) (allTools : list Tool) (streaming : bool)
    (context : Context.AgentContext) (maxIterations remaining : nat) (r : Run)
    (response : Message) :
  settles (client (messages r)) = Resolved response ->
  stop_reason response = tool_use ->
  let loop := iterate client allTools streaming context maxIterations (S remaining) r in
  exists results r',
    answered allTools context (store r) (toolUses (content response)) results (store r') /\
    messages r' = messages r ++
      [ {| role := assistant; param_content := OfBlocks (content response) |};
        {| role := user; param_content := OfToolResults results |} ] /\
    completions r' = completions r ++ [response] /\
    loop = iterate client allTools streaming context maxIterations remaining r' /\
    (exists later, messages (snd loop) = messages r' ++ later) /\
    match remaining with
    | 0 => fst loop = Rejected (exceeded context maxIterations)
    | S _ =>
        match settles (client (messages r')) with
        | Rejected error => fst loop = Rejected error
        | Resolved next =>
            (exists later, completions (snd loop) = completions r' ++ next :: later) /\
            (stop_reason next <> tool_use -> fst loop = Resolved next)
        end
    end.
Proof.
  intros Hs Hstop loop. subst loop.
  rewrite (iterate_afterTools _ _ _ _ _ _ _ response Hs Hstop).
  destruct (afterTools_turns client allTools streaming context r response)
    as (results & Hanswered & Hturns).
  pose proof (afterTools_completions client allTools streaming context r response)
    as Hcompletions.
  set (r' := afterTools client allTools streaming context r response) in *.
  clearbody r'. exists results, r'.
  split; [exact Hanswered|]. split; [exact Hturns|].
  split; [exact Hcompletions|]. split; [reflexivity|].
  split; [apply (iterate_extends client allTools streaming context maxIterations remaining r')|].
  destruct remaining as [|n]; [reflexivity|].
  destruct (settles (client (messages r'))) as [next|error] eqn:Hnext;
    [|by simpl; rewrite Hnext].
  destruct (stop_reason next) eqn:Hlast;
    try (simpl; rewrite Hnext, Hlast; simpl; rewrite emit_completions; simpl;
         split; [by exists []|done]).
  split; [|done].
  rewrite (iterate_afterTools _ _ _ _ _ _ _ next Hnext Hlast).
  destruct (iterate_extends client allTools streaming context maxIterations n
              (afterTools client allTools streaming context r' next)) as [_ [later Hc]].
  cbv zeta in Hc. rewrite Hc, afterTools_completions, <- app_assoc. by exists later.
Qed.

Lemma every_tool_call_is_answered_witness :
  let loop := iterate Scenario.mixedModel [Scenario.getCategories; Scenario.brokenTool] false
                (contextOf Scenario.uuid Scenario.listCategories) 20 20
                (Scenario.freshRun Scenario.firstTurn) in
  exists results r',
    answered [Scenario.getCategories; Scenario.brokenTool]
             (contextOf Scenario.uuid Scenario.listCategories)
             (store (Scenario.freshRun Scenario.firstTurn))
             (toolUses (content Scenario.mixedRequest)) results (store r') /\
    messages r' = messages (Scenario.freshRun Scenario.firstTurn) ++
      [ {| role := assistant; param_content := OfBlocks (content Scenario.mixedRequest) |};
        {| role := user; param_content := OfToolResults results |} ] /\
    completions r' = completions (Scenario.freshRun Scenario.firstTurn)
                     ++ [Scenario.mixedRequest] /\
    loop = iterate Scenario.mixedModel [Scenario.getCategories; Scenario.brokenTool] false
             (contextOf Scenario.uuid Scenario.listCategories) 20 19 r' /\
    (exists later, messages (snd loop) = messages r' ++ later) /\
    match settles (Scenario.mixedModel (messages r')) with
    | Rejected error => fst loop = Rejected error
    | Resolved next =>
        (exists later, completions (snd loop) = completions r' ++ next :: later) /\
        (stop_reason next <> tool_use -> fst loop = Resolved next)
    end.
Proof.
  apply (every_tool_call_is_answered Scenario.mixedModel
           [Scenario.getCategories; Scenario.brokenTool] false
           (contextOf Scenario.uuid Scenario.listCategories) 20 19
           (Scenario.freshRun Scenario.firstTurn) Scenario.mixedRequest);
    reflexivity.
Defined.

(** The mixed request from its first turn to the end of the task: both
    calls fail, both failures are in the conversation the model is called
    on next, and the task ends with the model's answer to them. *)
Example mixed_request_does_not_abort_the_task :
  let loop := iterate Scenario.mixedModel [Scenario.getCategories; Scenario.brokenTool] false
                (contextOf Scenario.uuid Scenario.listCategories) 20 20
                (Scenario.freshRun Scenario.firstTurn) in
  fst loop = Resolved {| content := [TextBlock "I could not do that."];
                         stop_reason := end_turn; usage := None |} /\
  messages (snd loop)
  = [ {| role := user; param_content := OfString "list categories" |};
      {| role := assistant; param_content := OfBlocks (content Scenario.mixedRequest) |};
      {| role := user;
         param_content :=
           OfToolResults
             [ {| tool_use_id := "toolu_03";
                  result_content := errorPayload "Failed to create category";
                  is_error := Some true |};
               {| tool_use_id := "toolu_04";
                  result_content := errorPayload "Tool 'drop_database' not found";
                  is_error := Some true |} ] |} ].
Proof. by vm_compute. Qed.

(** What the conversation holds after the mixed request: one error outcome
    per call, the first for the tool that threw, the second for the name the
    registry does not have. *)
Example mixed_request_outcomes :
  fst (executeTools [Scenario.getCategories; Scenario.brokenTool] false
         (contextOf Scenario.uuid Scenario.listCategories)
         (content Scenario.mixedRequest) (Scenario.freshRun Scenario.firstTurn))
  = [ {| tool_use_id := "toolu_03";
         result_content := errorPayload "Failed to create category";
         is_error := Some true |};
      {| tool_use_id := "toolu_04";
         result_content := errorPayload "Tool 'drop_database' not found";
         is_error := Some true |} ].
Proof. by vm_compute. Qed.

(** *** One execution, whatever its configuration and surroundings *)

Section Execution.
Context (cfg : ClaudeConfig) (env : Environment) (client : Client) (allTools : list Tool).
Context (uuid : string) (input : AgentTaskInput) (sseManager : option SSE.SSEManager).
Context (docs : Documents).

Let run : TaskRun := executeTask cfg env client allTools uuid input sseManager docs.
Let streaming : bool := match sseManager with Some _ => true | None => false end.
Let loop : Promise Message * Run :=
  executeAgentLoop cfg client allTools streaming (contextOf uuid input)
    (firstRun streaming input docs).

(** C5, corrected statement. In an execution in which the model never
    completes, each model call the loop makes being answered by a request
    for tools, and whose loop ends before the instant of the timeout, the
    loop makes exactly [MAX_ITERATIONS] model calls and the task then fails
    with an [AgentExecutionError], the class and code of every failure other
    than a timeout, whose message names the exhausted bound. *)
Theorem loop_exhaustion_fails_with_execution_error :
  neverCompletesIn cfg client allTools uuid input sseManager docs ->
  (now (loop_end run) < AGENT_TIMEOUT_MS env)%N ->
  length (completions (loop_end run)) = MAX_ITERATIONS cfg /\
  exists error,
    returned run = Rejected error /\
    Errors.cls error = Errors.AgentExecutionError /\
    Errors.code error = Some "AGENT_EXECUTION_ERROR" /\
    Errors.message error =
      "Agent task execution failed: Agent exceeded maximum iterations ("
        +:+ pretty (MAX_ITERATIONS cfg) +:+ ")".
Proof.
  intros Hnever.
  destruct (executeTask_unfold cfg env client allTools uuid input sseManager docs)
    as (Hend & _ & Hret).
  subst run. rewrite Hend, Hret. clear Hend Hret.
  destruct (iterate_exhausts client allTools _ (contextOf uuid input)
              (MAX_ITERATIONS cfg) (MAX_ITERATIONS cfg) _ Hnever)
    as (r' & Hi & Hlen).
  unfold executeAgentLoop. rewrite Hi. simpl. intros Hin.
  split.
  - rewrite Hlen. unfold firstRun. by rewrite emit_completions.
  - unfold executeWithTimeout.
    replace (AGENT_TIMEOUT_MS env <=? now r')%N with false
      by (symmetry; apply N.leb_gt; lia).
    simpl. eexists. repeat split.
Qed.

(** C6. The loop races against one timer set to [AGENT_TIMEOUT_MS].  If the
    timer fires before the loop finishes, or at the instant it finishes,
    [executeTask] fails at that time with the [TimeoutError] raised by the
    race itself, not wrapped in an execution error.  If the loop finishes
    before, [executeTask] settles when the loop does and as the loop does:
    with the result built from the final response, or failing with the
    loop's error wrapped in an execution error. *)
Theorem loop_races_against_the_timeout :
  ((AGENT_TIMEOUT_MS env <= now (loop_end run))%N ->
   returned run = Rejected (timedOut (AGENT_TIMEOUT_MS env)) /\
   returned_at run = AGENT_TIMEOUT_MS env) /\
  ((now (loop_end run) < AGENT_TIMEOUT_MS env)%N ->
   returned_at run = now (loop_end run) /\
   returned run =
     match fst loop with
     | Resolved response => Resolved (resultOf uuid response (now (loop_end run)))
     | Rejected error =>
         Rejected (if Errors.instanceofTimeoutError error then error
                   else wrapped error uuid 0 0 (now (loop_end run)))
     end) /\
  Errors.cls (timedOut (AGENT_TIMEOUT_MS env)) = Errors.TimeoutError /\
  Errors.name (timedOut (AGENT_TIMEOUT_MS env)) = "TimeoutError" /\
  Errors.code (timedOut (AGENT_TIMEOUT_MS env)) = Some "TIMEOUT_ERROR" /\
  Errors.message (timedOut (AGENT_TIMEOUT_MS env))
    = "Agent execution timed out after " +:+ pretty (AGENT_TIMEOUT_MS env) +:+ "ms".
Proof.
  destruct (executeTask_unfold cfg env client allTools uuid input sseManager docs)
    as (Hend & Hat & Hret).
  subst run loop streaming. rewrite Hend, Hat, Hret. clear Hend Hat Hret.
  unfold executeWithTimeout.
  split; [|split; [|done]].
  - intros Hlate.
    by replace (AGENT_TIMEOUT_MS env <=? _)%N with true by (symmetry; by apply N.leb_le).
  - intros Hin.
    by replace (AGENT_TIMEOUT_MS env <=? _)%N with false by (symmetry; by apply N.leb_gt).
Qed.

(** C10. The token usage of a successful result is that of the last
    response the model gave in the execution, the total being the sum of its
    input and output counts; the usage of earlier responses does not enter. *)
Theorem tokens_come_from_the_final_response (outcome : AgentExecutionResult) :
  returned run = Resolved outcome ->
  exists final,
    last (completions (loop_end run)) = Some final /\
    tokensUsed outcome =
      (fun u => {| Executor.input := input_tokens u; output := output_tokens u;
                   total := input_tokens u + output_tokens u |}) <$> usage final.
Proof.
  destruct (executeTask_unfold cfg env client allTools uuid input sseManager docs)
    as (Hend & _ & Hret).
  subst run. rewrite Hend, Hret. clear Hend Hret.
  unfold executeWithTimeout.
  destruct (AGENT_TIMEOUT_MS env <=? _)%N; [done|]. simpl.
  destruct (executeAgentLoop _ _ _ _ _ _) as [[final|error] r] eqn:Hloop; simpl; [|done].
  intros [= <-]. exists final. split; [|done].
  by apply iterate_returns_last in Hloop.
Qed.

(** What a successful result reports as its counts: the constant 1, and the
    [tool_use] blocks of the final response alone. *)
Lemma reported_counts (outcome : AgentExecutionResult) :
  returned run = Resolved outcome ->
  iterations outcome = 1 /\
  exists final,
    last (completions (loop_end run)) = Some final /\
    toolsUsed outcome = countToolUses final.
Proof.
  destruct (executeTask_unfold cfg env client allTools uuid input sseManager docs)
    as (Hend & _ & Hret).
  subst run. rewrite Hend, Hret. clear Hend Hret.
  unfold executeWithTimeout.
  destruct (AGENT_TIMEOUT_MS env <=? _)%N; [done|]. simpl.
  destruct (executeAgentLoop _ _ _ _ _ _) as [[final|error] r] eqn:Hloop; simpl; [|done].
  intros [= <-]. split; [done|]. exists final. split; [|done].
  by apply iterate_returns_last in Hloop.
Qed.

End Execution.

Lemma loop_exhaustion_fails_with_execution_error_witness :
  let cfg := {| MAX_TOKENS := 4096; TEMPERATURE := 0; MAX_ITERATIONS := 2 |} in
  let run := executeTask cfg default_env Scenario.loopingModel [Scenario.getCategories]
               Scenario.uuid Scenario.listCategories None ∅ in
  neverCompletesIn cfg Scenario.loopingModel [Scenario.getCategories] Scenario.uuid
    Scenario.listCategories None ∅ /\
  (now (loop_end run) < AGENT_TIMEOUT_MS default_env)%N /\
  length (completions (loop_end run)) = 2 /\
  exists error,
    returned run = Rejected error /\
    Errors.cls error = Errors.AgentExecutionError /\
    Errors.code error = Some "AGENT_EXECUTION_ERROR" /\
    Errors.message error =
      "Agent task execution failed: Agent exceeded maximum iterations (" +:+ pretty 2 +:+ ")".
Proof.
  assert (neverCompletesIn {| MAX_TOKENS := 4096; TEMPERATURE := 0; MAX_ITERATIONS := 2 |}
            Scenario.loopingModel [Scenario.getCategories] Scenario.uuid
            Scenario.listCategories None ∅) as Hnever
    by (eexists; split; [reflexivity|]; split; [reflexivity|];
        eexists; split; [reflexivity|]; split; [reflexivity|]; exact I).
  assert (now (loop_end (executeTask {| MAX_TOKENS := 4096; TEMPERATURE := 0;
                                        MAX_ITERATIONS := 2 |}
                    default_env Scenario.loopingModel [Scenario.getCategories] Scenario.uuid
                    Scenario.listCategories None ∅)) < AGENT_TIMEOUT_MS default_env)%N as Hin
    by (by vm_compute).
  split; [exact Hnever|]. split; [exact Hin|].
  exact (loop_exhaustion_fails_with_execution_error
           {| MAX_TOKENS := 4096; TEMPERATURE := 0; MAX_ITERATIONS := 2 |}
           default_env Scenario.loopingModel [Scenario.getCategories] Scenario.uuid
           Scenario.listCategories None ∅ Hnever Hin).
Defined.

(** C5, counterexample to the claim as stated: the error of a run that
    exhausts the 20 iterations has the class, name and code of the error of a
    run whose first model call failed; only the message tells them apart, and
    nothing named IterationLimitExceeded is raised. *)
Lemma iteration_limit_error_is_not_distinct :
  exists exhausted other,
    returned (executeTask CLAUDE_CONFIG default_env Scenario.loopingModel [] Scenario.uuid
                Scenario.listCategories None ∅) = Rejected exhausted /\
    returned (executeTask CLAUDE_CONFIG default_env Scenario.failingModel [] Scenario.uuid
                Scenario.listCategories None ∅) = Rejected other /\
    Errors.cls exhausted = Errors.cls other /\
    Errors.name exhausted = "AgentExecutionError" /\
    Errors.name other = "AgentExecutionError" /\
    Errors.code exhausted = Errors.code other /\
    Errors.message exhausted
      = "Agent task execution failed: Agent exceeded maximum iterations (20)" /\
    Errors.message other = "Agent task execution failed: 500 Internal Server Error".
Proof. vm_compute. eexists _, _. repeat split. Qed.

Lemma loop_races_against_the_timeout_witness :
  let late := executeTask CLAUDE_CONFIG default_env Scenario.stalledModel [] Scenario.uuid
                Scenario.listCategories None ∅ in
  let prompt := executeTask CLAUDE_CONFIG default_env Scenario.listingModel
                  [Scenario.getCategories] Scenario.uuid Scenario.listCategories None ∅ in
  ((AGENT_TIMEOUT_MS default_env <= now (loop_end late))%N /\
   returned late = Rejected (timedOut (AGENT_TIMEOUT_MS default_env)) /\
   returned_at late = AGENT_TIMEOUT_MS default_env) /\
  ((now (loop_end prompt) < AGENT_TIMEOUT_MS default_env)%N /\
   returned_at prompt = now (loop_end prompt) /\
   exists result, returned prompt = Resolved result).
Proof.
  assert (AGENT_TIMEOUT_MS default_env
          <= now (loop_end (executeTask CLAUDE_CONFIG default_env Scenario.stalledModel []
                              Scenario.uuid Scenario.listCategories None ∅)))%N as Hlate
    by (by vm_compute).
  assert (now (loop_end (executeTask CLAUDE_CONFIG default_env Scenario.listingModel
                           [Scenario.getCategories] Scenario.uuid Scenario.listCategories
                           None ∅)) < AGENT_TIMEOUT_MS default_env)%N as Hin
    by (by vm_compute).
  split.
  - split; [exact Hlate|].
    exact (proj1 (loop_races_against_the_timeout CLAUDE_CONFIG default_env
                    Scenario.stalledModel [] Scenario.uuid Scenario.listCategories None ∅)
             Hlate).
  - split; [exact Hin|].
    destruct (proj1 (proj2 (loop_races_against_the_timeout CLAUDE_CONFIG default_env
                              Scenario.listingModel [Scenario.getCategories] Scenario.uuid
                              Scenario.listCategories None ∅)) Hin) as [Hat Hret].
    split; [exact Hat|]. eexists. exact Hret.
Defined.

Lemma tokens_come_from_the_final_response_witness :
  returned (executeTask CLAUDE_CONFIG default_env Scenario.listingModel [Scenario.getCategories]
              Scenario.uuid Scenario.listCategories None ∅)
    = Resolved (resultOf Scenario.uuid
                  {| content := [TextBlock "You have 2 categories: Algorithms, Databases."];
                     stop_reason := end_turn;
                     usage := Some {| input_tokens := 180; output_tokens := 25 |} |} 1430) /\
  exists final,
    last (completions (loop_end
      (executeTask CLAUDE_CONFIG default_env Scenario.listingModel [Scenario.getCategories]
         Scenario.uuid Scenario.listCategories None ∅))) = Some final /\
    Some {| Executor.input := 180; output := 25; total := 205 |} =
      (fun u => {| Executor.input := input_tokens u; output := output_tokens u;
                   total := input_tokens u + output_tokens u |}) <$> usage final.
Proof.
  assert (returned (executeTask CLAUDE_CONFIG default_env Scenario.listingModel
                      [Scenario.getCategories] Scenario.uuid Scenario.listCategories None ∅)
          = Resolved (resultOf Scenario.uuid
                  {| content := [TextBlock "You have 2 categories: Algorithms, Databases."];
                     stop_reason := end_turn;
                     usage := Some {| input_tokens := 180; output_tokens := 25 |} |} 1430))
    as Hret by (by vm_compute).
  split; [exact Hret|].
  exact (tokens_come_from_the_final_response CLAUDE_CONFIG default_env Scenario.listingModel
           [Scenario.getCategories] Scenario.uuid Scenario.listCategories None ∅ _ Hret).
Defined.

(** In that run the two responses used 100+20 and 180+25 tokens; the result
    reports 205, not 325. *)
Example tokens_are_not_summed :
  let run := executeTask CLAUDE_CONFIG default_env Scenario.listingModel
               [Scenario.getCategories] Scenario.uuid Scenario.listCategories None ∅ in
  omap usage (completions (loop_end run))
    = [ {| input_tokens := 100; output_tokens := 20 |};
        {| input_tokens := 180; output_tokens := 25 |} ] /\
  exists outcome, returned run = Resolved outcome /\
    total <$> tokensUsed outcome = Some 205.
Proof. vm_compute. split; [done|]. eexists. by split. Qed.

End Loop.

(** ** The task tracker *)

Section Tracking.
Import Tracker Lifecycle.

(** No writing method of the tracker gets past its timestamp: each call
    rejects and leaves the stored tasks as they were. *)
Lemma mark_rejects now stored id m : mark now stored id m = (Rejected notDefined, stored).
Proof. by destruct m. Qed.

Lemma marks_unchanged updates : forall stored, marks stored updates = stored.
Proof.
  unfold marks. induction updates as [|u updates IH]; intros stored; simpl; [done|].
  by rewrite mark_rejects, IH.
Qed.






(** How a mark on a terminal task ends: the call does not return, it
    throws the error raised where the timestamp is taken. *)
Example mark_on_a_terminal_task_throws :
  fst (markTaskFailed 9000 {[ "task-1" := Scenario.completedTask ]} "task-1"
         Scenario.lateError (Some 3))
  = Rejected (Errors.mkError (Errors.Foreign "ReferenceError")
                "FirebaseFirestore is not defined" None).
Proof. reflexivity. Qed.

End Tracking.

(** ** The queue worker under the broker's retry policy *)

Section Retrying.
Import Config Queue Retry.

(** The processor changes nothing of a job but its progress. *)
Lemma processAgentTask_job cfg env allTools w j b :
  let p := processAgentTask cfg env allTools w j b in
  data (job_after p) = data j /\ opts (job_after p) = opts j /\
  attemptsMade (job_after p) = attemptsMade j /\ id (job_after p) = id j.
Proof.
  simpl. unfold processAgentTask.
  repeat match goal with
         | |- context [let '(_, _) := ?x in _] => destruct x
         | |- context [match ?x with Resolved _ => _ | Rejected _ => _ end] => destruct x
         end; done.
Qed.

(** One attempt on a tracked task: the first status update throws and, on
    the last attempt, so does the update that would record the failure.
    The agent is not run and nothing is stored. *)
Lemma processAgentTask_tracked cfg env allTools w j b tid :
  trackedTaskId (Executor.metadata (data j)) = Some tid ->
  let p := processAgentTask cfg env allTools w j b in
  settled p = Rejected Tracker.notDefined /\
  backend_after p = b /\
  job_after p = updateProgress j "starting" 0 /\
  elapsed p = 0%N.
Proof.
  intros Htid. simpl. unfold processAgentTask. rewrite Htid.
  cbn [Tracker.markTaskProcessing Tracker.updateTaskStatus Tracker.timestampNow].
  unfold failedAttempt. rewrite Htid.
  destruct (QUEUE_MAX_RETRIES env <=? attemptsMade j)%nat; by destruct b.
Qed.






End Retrying.

(** ** Anatomy of the agent loop *)

Section Anatomy.
Import Anthropic Tools Executor Dispatch Conversation Config.

Lemma iterate_resolved client allTools streaming context maxIterations remaining :
  forall r response r',
  iterate client allTools streaming context maxIterations remaining r = (Resolved response, r') ->
  exists asked,
    completions r' = completions r ++ asked ++ [response] /\
    Forall (fun m => stop_reason m = tool_use) asked /\
    stop_reason response <> tool_use /\
    length asked < remaining.
Proof.
  induction remaining as [|n IH]; intros r response r' Hi; [done|].
  destruct (settles (client (messages r))) as [answer|error] eqn:Hs;
    [|by simpl in Hi; rewrite Hs in Hi].
  destruct (stop_reason answer) eqn:Hstop;
    try (simpl in Hi; rewrite Hs, Hstop in Hi; inversion Hi; subst;
         exists []; rewrite emit_completions; simpl;
         repeat split; [constructor|congruence|lia]).
  rewrite (iterate_tool_use _ _ _ _ _ _ _ answer Hs Hstop) in Hi. simpl in Hi.
  apply IH in Hi as (asked & Hc & Ha & Hr & Hl).
  exists (answer :: asked). simpl in Hc.
  rewrite executeTools_completions, !emit_completions in Hc. simpl in Hc.
  rewrite Hc, <- app_assoc. simpl.
  repeat split; [by constructor|done|lia].
Qed.

Lemma iterate_rejected client allTools streaming context maxIterations remaining :
  forall r error r',
  iterate client allTools streaming context maxIterations remaining r = (Rejected error, r') ->
  exists asked,
    completions r' = completions r ++ asked /\
    Forall (fun m => stop_reason m = tool_use) asked /\
    ((error = exceeded context maxIterations /\ length asked = remaining) \/
     (settles (client (messages r')) = Rejected error /\ length asked < remaining)).
Proof.
  induction remaining as [|n IH]; intros r error r' Hi.
  - inversion Hi; subst. exists []. rewrite app_nil_r. repeat split; [constructor|by left].
  - destruct (settles (client (messages r))) as [answer|failure] eqn:Hs.
    + destruct (stop_reason answer) eqn:Hstop;
        try (by simpl in Hi; rewrite Hs, Hstop in Hi).
      rewrite (iterate_tool_use _ _ _ _ _ _ _ answer Hs Hstop) in Hi. simpl in Hi.
      apply IH in Hi as (asked & Hc & Ha & Hr).
      exists (answer :: asked). simpl in Hc.
      rewrite executeTools_completions, !emit_completions in Hc. simpl in Hc.
      rewrite Hc, <- app_assoc. simpl.
      repeat split; [by constructor|].
      destruct Hr as [[-> <-]|[Hf Hl]]; [by left|right; split; [done|lia]].
    + simpl in Hi. rewrite Hs in Hi. inversion Hi; subst.
      exists []. rewrite app_nil_r. simpl.
      repeat split; [constructor|right; split; [done|lia]].
Qed.

(** X1. The loop ends at the first response that does not stop for tool
    use and resolves with it, whatever its stop reason; every response
    before it stopped for tool use.  It rejects in two cases only: a model
    call rejected, and the error is the one the call threw; or
    [MAX_ITERATIONS] responses in a row stopped for tool use.  A tool that
    fails does not end the loop. *)
Theorem loop_ends_at_the_first_final_response
    (cfg : ClaudeConfig) (client : Client) (allTools : list Tool) (streaming : bool)
    (context : Context.AgentContext) (r : Run) :
  let loop := executeAgentLoop cfg client allTools streaming context r in
  exists asked,
    Forall (fun m => stop_reason m = tool_use) asked /\
    match fst loop with
    | Resolved response =>
        completions (snd loop) = completions r ++ asked ++ [response] /\
        stop_reason response <> tool_use /\
        length asked < MAX_ITERATIONS cfg
    | Rejected error =>
        completions (snd loop) = completions r ++ asked /\
        ((error = exceeded context (MAX_ITERATIONS cfg) /\
          length asked = MAX_ITERATIONS cfg) \/
         (settles (client (messages (snd loop))) = Rejected error /\
          length asked < MAX_ITERATIONS cfg))
    end.
Proof.
  simpl. unfold executeAgentLoop.
  destruct (iterate _ _ _ _ _ _ _) as [[response|error] r'] eqn:Hi; simpl.
  - apply iterate_resolved in Hi as (asked & Hc & Ha & Hr & Hl). by exists asked.
  - apply iterate_rejected in Hi as (asked & Hc & Ha & Hr). by exists asked.
Qed.

(** *** The conversation *)

Lemma exchanges_app turns : forall more,
  exchanges turns -> exchanges more -> exchanges (turns ++ more).
Proof.
  intros more Ht Hm. induction Ht as [|request reply rest He _ IH]; [done|].
  simpl. by constructor.
Qed.

Lemma executeTool_id allTools streaming context id name input r :
  tool_use_id (fst (executeTool allTools streaming context id name input r)) = id.
Proof.
  unfold executeTool. destruct (find _ allTools) as [tool|]; [|done].
  by destruct (outcome _).
Qed.

Lemma executeTools_ids allTools streaming context blocks : forall r,
  map tool_use_id (fst (executeTools allTools streaming context blocks r))
  = requestedIds blocks.
Proof.
  over_blocks blocks IH. unfold requestedIds. simpl.
  rewrite executeTool_id. f_equal. apply IH.
Qed.

Lemma filter_snoc {A} (f : A -> bool) l x :
  List.filter f (l ++ [x]) = List.filter f l ++ (if f x then [x] else []).
Proof. rewrite List.filter_app. simpl. by destruct (f x). Qed.

Lemma stopped_final responses response :
  stop_reason response <> tool_use ->
  List.filter stoppedForTools (responses ++ [response])
  = List.filter stoppedForTools responses.
Proof.
  intros Hstop. rewrite filter_snoc. unfold stoppedForTools at 2.
  destruct (stop_reason response); by rewrite ?app_nil_r.
Qed.

Lemma stopped_asking responses response :
  stop_reason response = tool_use ->
  List.filter stoppedForTools (responses ++ [response])
  = List.filter stoppedForTools responses ++ [response].
Proof. intros Hstop. rewrite filter_snoc. unfold stoppedForTools at 2. by rewrite Hstop. Qed.

Lemma iterate_conversing client allTools streaming context maxIterations start remaining :
  forall r,
  conversing start r ->
  conversing start (snd (iterate client allTools streaming context maxIterations remaining r)).
Proof.
  induction remaining as [|n IH]; intros r Hr; [done|].
  destruct (settles (client (messages r))) as [response|error] eqn:Hs;
    [|by simpl; rewrite Hs].
  destruct (stop_reason response) eqn:Hstop;
    try (simpl; rewrite Hs, Hstop; cbn [snd];
         destruct Hr as (turns & Hm & He & Hl); exists turns;
         rewrite emit_messages, emit_completions; cbn [messages completions completed wait];
         rewrite stopped_final by congruence; by repeat split).
  rewrite (iterate_tool_use _ _ _ _ _ _ _ response Hs Hstop). cbn zeta.
  apply IH. destruct Hr as (turns & Hm & He & Hl).
  match goal with
  | |- conversing _ (push [?a; ?u] _) => exists (turns ++ [a; u])
  end.
  cbn [messages completions push].
  rewrite executeTools_messages, executeTools_completions, !emit_messages,
    !emit_completions. cbn [messages completions completed wait].
  rewrite Hm, <- app_assoc. split; [done|]. split.
  - apply exchanges_app; [done|]. constructor; [|constructor].
    repeat split. eexists _, _. repeat split. apply executeTools_ids.
  - rewrite stopped_asking by done. rewrite !length_app, Hl. simpl. lia.
Qed.

(** X2. After any execution the conversation is the task as the first user
    turn followed by exchanges only: an assistant turn holding the blocks of
    a response, then a user turn holding one tool result for each
    [tool_use] block of that response, with its id and in the same order.
    There is one exchange for each response that stopped for tool use; the
    final response is not added. *)
Theorem conversation_alternates_requests_and_results
    (cfg : ClaudeConfig) (env : Environment) (client : Client) (allTools : list Tool)
    (uuid : string) (input : AgentTaskInput) (sseManager : option SSE.SSEManager)
    (docs : Documents) :
  let run := executeTask cfg env client allTools uuid input sseManager docs in
  exists turns,
    messages (loop_end run)
      = {| role := user; param_content := OfString (task input) |} :: turns /\
    exchanges turns /\
    length turns
      = 2 * length (List.filter stoppedForTools (completions (loop_end run))).
Proof.
  simpl.
  destruct (executeTask_unfold cfg env client allTools uuid input sseManager docs) as (-> & _).
  apply (iterate_conversing _ _ _ _ _
           [ {| role := user; param_content := OfString (task input) |} ]).
  exists []. unfold firstRun. rewrite emit_messages, emit_completions. simpl.
  repeat split. constructor.
Qed.

(** *** Which tools run *)

Lemma executeTool_dispatched allTools streaming context id name input r :
  map callOf (invocations (snd (executeTool allTools streaming context id name input r)))
  = map callOf (invocations r)
    ++ List.filter (registered allTools) [(id, name, input)].
Proof.
  unfold executeTool, registered. simpl.
  destruct (find _ allTools) as [tool|]; [|by rewrite app_nil_r].
  destruct (outcome _); simpl; rewrite ?emit_invocations; simpl; by rewrite map_app.
Qed.

Lemma executeTools_dispatched allTools streaming context blocks : forall r,
  map callOf (invocations (snd (executeTools allTools streaming context blocks r)))
  = map callOf (invocations r) ++ List.filter (registered allTools) (toolUses blocks).
Proof.
  induction blocks as [|[text|id name input|other] blocks IH]; intros r;
    [by rewrite app_nil_r|by apply IH| |by apply IH].
  rewrite executeTools_cons_tool. cbn [fst snd].
  rewrite IH, executeTool_dispatched, <- app_assoc. f_equal.
  unfold toolUses. simpl. by destruct (registered _ _).
Qed.

Lemma dispatched_snoc allTools responses response :
  dispatched allTools (responses ++ [response])
  = dispatched allTools responses
    ++ match stop_reason response with
       | tool_use => List.filter (registered allTools) (toolUses (content response))
       | _ => []
       end.
Proof. unfold dispatched. rewrite flat_map_app. simpl. by rewrite app_nil_r. Qed.

Lemma iterate_dispatched client allTools streaming context maxIterations remaining :
  forall r,
  map callOf (invocations r) = dispatched allTools (completions r) ->
  let r' := snd (iterate client allTools streaming context maxIterations remaining r) in
  map callOf (invocations r') = dispatched allTools (completions r').
Proof.
  induction remaining as [|n IH]; intros r Hr; [done|].
  destruct (settles (client (messages r))) as [response|error] eqn:Hs;
    [|by simpl; rewrite Hs].
  destruct (stop_reason response) eqn:Hstop;
    try (simpl; rewrite Hs, Hstop; simpl;
         rewrite emit_invocations, emit_completions; simpl;
         by rewrite dispatched_snoc, Hstop, app_nil_r).
  rewrite (iterate_tool_use _ _ _ _ _ _ _ response Hs Hstop).
  apply IH. simpl.
  rewrite executeTools_dispatched, executeTools_completions, !emit_invocations,
    !emit_completions. simpl.
  by rewrite dispatched_snoc, Hstop, Hr.
Qed.

(** X3. The tool calls an execution makes are, in order, the [tool_use]
    blocks of the responses that stopped for tool use whose name the registry
    has, each with the id and the input of its block.  A [tool_use] block in a
    response with another stop reason is not run, and a name the registry
    lacks reaches no tool. *)
Theorem tools_run_are_the_registered_requests
    (cfg : ClaudeConfig) (env : Environment) (client : Client) (allTools : list Tool)
    (uuid : string) (input : AgentTaskInput) (sseManager : option SSE.SSEManager)
    (docs : Documents) :
  let run := executeTask cfg env client allTools uuid input sseManager docs in
  map callOf (invocations (loop_end run))
  = dispatched allTools (completions (loop_end run)).
Proof.
  simpl.
  destruct (executeTask_unfold cfg env client allTools uuid input sseManager docs) as (-> & _).
  apply iterate_dispatched. unfold firstRun. by rewrite emit_invocations, emit_completions.
Qed.

(** *** How an execution settles *)

(** X4. An execution settles no later than the configured timeout and no
    later than its loop.  When it resolves, the result carries the task UUID
    and the time of settling as its duration.  When it rejects, the error is
    either of class [TimeoutError] or an [AgentExecutionError] whose message
    is that of the cause after the fixed prefix, the cause not being a
    [TimeoutError]; no other error leaves [executeTask]. *)
Theorem execution_settles_in_time_with_one_of_two_errors
    (cfg : ClaudeConfig) (env : Environment) (client : Client) (allTools : list Tool)
    (uuid : string) (input : AgentTaskInput) (sseManager : option SSE.SSEManager)
    (docs : Documents) :
  let run := executeTask cfg env client allTools uuid input sseManager docs in
  (returned_at run <= AGENT_TIMEOUT_MS env)%N /\
  (returned_at run <= now (loop_end run))%N /\
  match returned run with
  | Resolved result => taskId result = uuid /\ durationMs result = returned_at run
  | Rejected error =>
      Errors.cls error = Errors.TimeoutError \/
      (Errors.cls error = Errors.AgentExecutionError /\
       exists cause,
         Errors.instanceofTimeoutError cause = false /\
         Errors.message error = "Agent task execution failed: " +:+ Errors.message cause)
  end.
Proof.
  simpl.
  destruct (executeTask_unfold cfg env client allTools uuid input sseManager docs)
    as (-> & -> & ->).
  destruct (executeAgentLoop _ _ _ _ _ _) as [settlement r]. simpl.
  unfold executeWithTimeout.
  destruct (AGENT_TIMEOUT_MS env <=? now r)%N eqn:Hrace; simpl.
  - apply N.leb_le in Hrace. repeat split; [lia..|by left].
  - apply N.leb_gt in Hrace. repeat split; [lia..|].
    destruct settlement as [response|error]; [done|].
    destruct (Errors.instanceofTimeoutError error) eqn:Ht.
    + left. unfold Errors.instanceofTimeoutError in Ht. by destruct (Errors.cls error).
    + right. split; [done|]. by exists error.
Qed.

End Anatomy.

(** ** The manager over any sequence of calls *)

Section Coherence.
Import SSE Stream.

Lemma sendEvent_cases m event :
  sendEvent m event = m \/
  (isClosed m = false /\ sendEvent m event = appended m [event]).
Proof.
  unfold sendEvent, write, appended, with_response.
  destruct (isClosed m) eqn:Hc; [by left|].
  destruct (write_throws (response m)); [by left|by right].
Qed.

Lemma pingTick_cases m : pingTick m = m \/ pingTick m = sendEvent m pingEvent.
Proof. unfold pingTick. destruct (pingInterval m), (isClosed m); simpl; auto. Qed.

(** Every call is one of four things: nothing, a write, [close()], or the
    disconnect listener. *)
Lemma step_cases m op :
  step m op = m \/
  (isClosed m = false /\ exists event, step m op = appended m [event]) \/
  (op = OpClose /\ step m op = close m) \/
  step m op = handleDisconnect m.
Proof.
  destruct op; cbn [step];
    unfold sendProgress, sendToolUse, sendThinking, sendComplete, sendError;
    try (match goal with
         | |- context [sendEvent m ?e] =>
             destruct (sendEvent_cases m e) as [-> | [Hc ->]]; [by left|right; left; eauto]
         end);
    [by right; right; left|by right; right; right|].
  destruct (pingTick_cases m) as [-> | ->]; [by left|].
  destruct (sendEvent_cases m pingEvent) as [-> | [Hc ->]]; [by left|right; left; eauto].
Qed.

(** What holds of a manager at every moment of its life. *)
Lemma step_coherent m op :
  pingInterval m = negb (isClosed m) ->
  (ended (response m) = true -> isClosed m = true) ->
  let m' := step m op in
  pingInterval m' = negb (isClosed m') /\
  (ended (response m') = true -> isClosed m' = true) /\
  (ended (response m') = true -> ended (response m) = true \/ op = OpClose) /\
  headers (response m') = headers (response m) /\
  clientId m' = clientId m /\
  written (response m) `prefix_of` written (response m').
Proof.
  intros Hp He. simpl.
  destruct (step_cases m op) as [-> | [(Hc & event & ->) | [(-> & ->) | ->]]].
  - repeat split; auto.
  - simpl. repeat split; auto. by eexists.
  - unfold close. destruct (isClosed m) eqn:Hc; simpl; rewrite ?Hc;
      repeat split; auto; congruence.
  - unfold handleDisconnect. destruct (isClosed m) eqn:Hc; simpl; rewrite ?Hc;
      repeat split; auto; try congruence.
Qed.

(** X5. From its creation on a response that has not ended, and whatever
    is called on it, by whom and in what order, a manager keeps its
    heartbeat timer armed exactly while it is open; the response is ended
    only by [close()], and then the manager is closed; the headers are the
    four set at creation; and what was written is never taken back. *)
Theorem manager_state_stays_coherent (res : Response) (id : string) (ops : list Op) :
  ended res = false ->
  let m := foldl step (createSSEManager res id) ops in
  pingInterval m = negb (isClosed m) /\
  (ended (response m) = true -> isClosed m = true /\ OpClose ∈ ops) /\
  headers (response m) = headers (setupSSE res) /\
  clientId m = id /\
  written res `prefix_of` written (response m).
Proof.
  intros Hres.
  cut (forall m0,
         pingInterval m0 = negb (isClosed m0) ->
         (ended (response m0) = true -> isClosed m0 = true) ->
         let m := foldl step m0 ops in
         pingInterval m = negb (isClosed m) /\
         (ended (response m) = true ->
          isClosed m = true /\ (ended (response m0) = true \/ OpClose ∈ ops)) /\
         headers (response m) = headers (response m0) /\
         clientId m = clientId m0 /\
         written (response m0) `prefix_of` written (response m)).
  { intros Hcut.
    destruct (Hcut (createSSEManager res id)) as (Hp & He & Hh & Hi & Hw);
      [done|simpl; congruence|].
    split; [done|]. split; [|by repeat split].
    intros Hended. destruct (He Hended) as (Hc & [Hn|Hin]); [simpl in Hn; congruence|done]. }
  induction ops as [|op ops IH]; intros m0 Hp He; simpl.
  - repeat split; auto.
  - destruct (step_coherent m0 op Hp He) as (Hp' & He' & Hcause & Hh & Hi & Hw).
    destruct (IH (step m0 op) Hp' He') as (Hp2 & He2 & Hh2 & Hi2 & Hw2).
    split; [done|]. split; [|repeat split; [congruence..|by etransitivity]].
    intros Hended. destruct (He2 Hended) as (Hc & [Hbefore|Hin]); (split; [done|]).
    + destruct (Hcause Hbefore) as [? | ->]; [by left|right; by left].
    + right. by right.
Qed.

Lemma manager_state_stays_coherent_witness :
  let m := foldl step (createSSEManager Scenario.freshResponse "client-1")
             [OpSendProgress "Working" (Some 10); OpPing; OpClose; OpSendThinking "late"] in
  pingInterval m = negb (isClosed m) /\
  (ended (response m) = true ->
   isClosed m = true /\
   OpClose ∈ [OpSendProgress "Working" (Some 10); OpPing; OpClose; OpSendThinking "late"]) /\
  headers (response m) = headers (setupSSE Scenario.freshResponse) /\
  clientId m = "client-1" /\
  written Scenario.freshResponse `prefix_of` written (response m).
Proof.
  assert (ended Scenario.freshResponse = false) as Hres by reflexivity.
  exact (manager_state_stays_coherent Scenario.freshResponse "client-1"
           [OpSendProgress "Working" (Some 10); OpPing; OpClose; OpSendThinking "late"] Hres).
Defined.

(** X6. On a response whose [write] throws, every send and every
    heartbeat returns normally and changes nothing: the exception is
    swallowed, the manager does not close itself and keeps its timer, so
    each later send tries the write again.  Only [close()] or the
    disconnect listener changes its state. *)
Theorem failed_writes_are_swallowed (m : SSEManager) (ops : list Op) :
  write_throws (response m) = true ->
  Forall (fun op => op <> OpClose /\ op <> OpDisconnect) ops ->
  foldl step m ops = m.
Proof.
  intros Hw Hops. induction Hops as [|op ops (Hc & Hd) _ IH]; [done|].
  simpl. cut (step m op = m); [by intros ->|].
  assert (forall event, sendEvent m event = m) as Hsend.
  { intros event. unfold sendEvent, write. rewrite Hw. by destruct (isClosed m). }
  destruct op; cbn [step];
    unfold sendProgress, sendToolUse, sendThinking, sendComplete, sendError;
    try apply Hsend; try done.
  unfold pingTick. destruct (pingInterval m), (negb (isClosed m)); auto.
Qed.

Lemma failed_writes_are_swallowed_witness :
  let broken :=
    createSSEManager {| headers := []; written := []; ended := false; write_throws := true |}
      "client-1" in
  foldl step broken [OpSendProgress "Working" (Some 10); OpPing; OpSendError "failed" None]
  = broken.
Proof.
  assert (write_throws (response
            (createSSEManager
               {| headers := []; written := []; ended := false; write_throws := true |}
               "client-1")) = true) as Hw by reflexivity.
  assert (Forall (fun op => op <> OpClose /\ op <> OpDisconnect)
            [OpSendProgress "Working" (Some 10); OpPing; OpSendError "failed" None]) as Hops
    by (repeat constructor; discriminate).
  exact (failed_writes_are_swallowed _ _ Hw Hops).
Defined.

End Coherence.

(** ** Heartbeats over the course of an execution *)

Section Heartbeats.
Import Anthropic Tools SSE Stream StreamFormatter Executor Heartbeat.

(** *** Counting *)











End Heartbeats.

(** ** One chunk, one frame *)

Section Frames.
Import SSE Framing.

Lemma lineBreaks_app a b : lineBreaks (a +:+ b) = lineBreaks a + lineBreaks b.
Proof. induction a as [|c a IH]; simpl; [done|]. rewrite IH. lia. Qed.

Lemma pretty_N_char_plain d : lineBreak (pretty_N_char d) = false.
Proof. unfold pretty_N_char. by repeat case_match. Qed.

Lemma pretty_N_go_plain x : forall s, lineBreaks (pretty_N_go x s) = lineBreaks s.
Proof.
  induction (N.lt_wf_0 x) as [x _ IH]; intros s.
  assert (x = 0 \/ 0 < x)%N as [->|Hx] by lia; [by rewrite pretty_N_go_0|].
  rewrite pretty_N_go_step by done.
  rewrite IH by (by apply N.div_lt). simpl. by rewrite pretty_N_char_plain.
Qed.

Lemma pretty_N_plain (n : N) : lineBreaks (pretty n) = 0.
Proof.
  unfold pretty, pretty_N. case_decide; [done|]. by rewrite pretty_N_go_plain.
Qed.

Lemma pretty_Z_plain (z : Z) : lineBreaks (pretty z) = 0.
Proof.
  destruct z as [|p|p]; [done|apply (pretty_N_plain (Npos p))|].
  change (pretty (Zneg p)) with ("-" +:+ pretty (Npos p)).
  by rewrite lineBreaks_app, pretty_N_plain.
Qed.

Lemma escape_char_plain c : lineBreaks (escape_char c) = 0.
Proof. by destruct c as [[] [] [] [] [] [] [] []]. Qed.

Lemma escape_plain s : lineBreaks (escape s) = 0.
Proof.
  induction s as [|c s IH]; simpl; [done|].
  by rewrite lineBreaks_app, escape_char_plain, IH.
Qed.

Lemma quote_plain s : lineBreaks (quote s) = 0.
Proof.
  unfold quote. change (String dquote (escape s)) with (String dquote "" +:+ escape s).
  by rewrite !lineBreaks_app, escape_plain.
Qed.

Lemma join_plain parts :
  Forall (fun p => lineBreaks p = 0) parts -> lineBreaks (join "," parts) = 0.
Proof.
  induction 1 as [|p parts Hp Hparts IH]; [done|].
  destruct parts as [|q parts]; [done|].
  change (join "," (p :: q :: parts)) with (p +:+ "," +:+ join "," (q :: parts)).
  by rewrite !lineBreaks_app, Hp, IH.
Qed.

(** [JSON.stringify] puts no line break in its output: those of a string
    are escaped. *)
Lemma stringify_plain : forall j, lineBreaks (stringify j) = 0.
Proof.
  fix nested 1. intros j.
  destruct j as [|[]|n|s|items|fields].
  - reflexivity.
  - reflexivity.
  - reflexivity.
  - apply pretty_Z_plain.
  - apply quote_plain.
  - change (stringify (JArr items)) with ("[" +:+ join "," (map stringify items) +:+ "]").
    rewrite !lineBreaks_app, join_plain; [reflexivity|].
    induction items as [|item items IH]; constructor; [apply nested|exact IH].
  - change (stringify (JObj fields))
      with ("{" +:+ join "," (map (fun kv => quote (fst kv) +:+ ":" +:+ stringify (snd kv))
                                  fields) +:+ "}").
    rewrite !lineBreaks_app, join_plain; [reflexivity|].
    induction fields as [|[k v] fields IH]; constructor; [|exact IH].
    cbn [fst snd]. rewrite !lineBreaks_app, quote_plain, (nested v). reflexivity.
Qed.

(** X8. Every chunk the manager writes is one SSE frame: its only line
    breaks are the one that ends the [event:] line, the one that ends the
    [data:] line and the one of the blank line, whatever text the event
    carries. *)
Theorem every_chunk_is_one_frame (event : SSEEvent) :
  lineBreaks (type_value (type event)) = 0 /\
  lineBreaks (stringify (data event)) = 0 /\
  lineBreaks (wire event) = 3.
Proof.
  assert (lineBreaks (type_value (type event)) = 0) as Ht by (by destruct (type event)).
  pose proof (stringify_plain (data event)) as Hd.
  repeat split; try done.
  unfold wire, formatSSEMessage. by rewrite !lineBreaks_app, Ht, Hd.
Qed.

End Frames.

(** ** Any sequence of calls of the tracker's writing methods *)

Section Updates.
Import Tracker Lifecycle.

(** X9. No write of the tracker reaches the store.  [createTask],
    [updateTaskStatus], [markTaskProcessing], [markTaskCompleted] and
    [markTaskFailed] each reject, whatever the task id and the time and
    whether or not the task has a record, with the [ReferenceError] raised
    where the timestamp is taken, and leave the stored tasks as they were.
    After any sequence of such calls the store is the one before them: no
    record is created, changed or deleted. *)
Theorem tracker_writes_never_reach_the_store
    (stored : gmap string TaskRecord) (updates : list (N * string * Mark)) :
  (forall now id userId task,
     createTask now stored id userId task = (Rejected notDefined, stored)) /\
  (forall now id status metadata,
     updateTaskStatus now stored id status metadata = (Rejected notDefined, stored)) /\
  (forall now id, markTaskProcessing now stored id = (Rejected notDefined, stored)) /\
  (forall now id result,
     markTaskCompleted now stored id result = (Rejected notDefined, stored)) /\
  (forall now id error retryCount,
     markTaskFailed now stored id error retryCount = (Rejected notDefined, stored)) /\
  marks stored updates = stored /\
  Errors.name notDefined = "ReferenceError" /\
  Errors.message notDefined = "FirebaseFirestore is not defined".
Proof.
  split; [intros now id userId task; apply (mark_rejects now stored id (Create userId task))|].
  split; [intros now id status metadata;
          apply (mark_rejects now stored id (Status status metadata))|].
  split; [intros now id; apply (mark_rejects now stored id Processing)|].
  split; [intros now id result; apply (mark_rejects now stored id (Completed result))|].
  split; [intros now id error retryCount;
          apply (mark_rejects now stored id (Failed error retryCount))|].
  split; [apply marks_unchanged|]. by split.
Qed.

(** Three calls on a store holding one pending task: the task is still
    pending, and the task the first call was to create has no record. *)
Example writes_leave_the_store_alone :
  marks {[ "task-1" := Scenario.pendingTask ]}
    [ (2000%N, "task-2", Create "user-123" "list questions");
      (2500%N, "task-1", Processing);
      (4000%N, "task-1", Completed Scenario.someResult) ]
  = {[ "task-1" := Scenario.pendingTask ]}.
Proof. reflexivity. Qed.

End Updates.

(** ** A job from the queue to its final state *)

Section Jobs.
Import Config Queue Retry.

Lemma bump_doubling env p :
  opts p = defaultJobOptions env ->
  backoffDelay (backoff (opts (bump p))) (attemptsMade (bump p)) = doubling (attemptsMade p).
Proof.
  intros Ho. unfold backoffDelay, doubling. cbn [bump opts attemptsMade]. rewrite Ho.
  cbn [defaultJobOptions backoff backoff_type delay].
  by replace (attemptsMade p + 1 - 1) with (attemptsMade p) by lia.
Qed.

(** *** Attempts and waits, whatever the attempts do *)

Lemma work_schedule cfg env allTools world : forall retries clock j b,
  opts j = defaultJobOptions env ->
  let fin := work cfg env allTools world retries clock j b in
  1 <= processed fin <= retries + 1 /\
  delays fin = map doubling (seq (attemptsMade j) (processed fin - 1)) /\
  (forall reason, state fin = failed reason -> processed fin = retries + 1) /\
  attemptsMade (job fin) = attemptsMade j + processed fin /\
  data (job fin) = data j /\ id (job fin) = id j.
Proof.
  induction retries as [|retries IH]; intros clock j b Ho; cbn [work];
    match goal with
    | |- context [processAgentTask cfg env allTools ?w j b] =>
        destruct (processAgentTask_job cfg env allTools w j b) as (Hd & Hopts & Hm & Hid);
        set (p := processAgentTask cfg env allTools w j b) in *
    end;
    destruct (settled p) as [value|error];
    try (cbn [state job backend processed delays bump attemptsMade data id];
         by repeat split; try lia; try done).
  set (j' := bump (job_after p)).
  assert (opts j' = defaultJobOptions env) as Ho' by (subst j'; simpl; congruence).
  set (d := backoffDelay (backoff (opts j')) (attemptsMade j')).
  assert (d = doubling (attemptsMade j)) as Hdelay
    by (subst d j'; rewrite (bump_doubling env) by congruence; by rewrite Hm).
  destruct (IH (clock + elapsed p + d)%N j' (backend_after p) Ho')
    as (Hp & Hdl & Hf & Ha & Hdata & Hi).
  set (rest := work cfg env allTools world retries (clock + elapsed p + d)%N j'
                 (backend_after p)) in *.
  cbn [state job backend processed delays].
  assert (attemptsMade j' = S (attemptsMade j)) as Hj' by (subst j'; simpl; lia).
  repeat split; try lia.
  - rewrite Hdl, Hdelay, Hj'.
    replace (S (processed rest) - 1) with (S (processed rest - 1)) by lia.
    reflexivity.
  - intros reason Hs. apply Hf in Hs. lia.
  - subst j'. simpl in Hdata. congruence.
  - subst j'. simpl in Hi. congruence.
Qed.

(** X11. Whatever the attempts of a job do, the processor runs at least
    once and at most [QUEUE_MAX_RETRIES + 1] times; the waits between
    attempts are 1000 ms, 2000 ms, 4000 ms and so on, one for each attempt
    but the last; a job ends failed only after the last attempt allowed; and
    the job keeps its data and counts one attempt for each run. *)
Theorem retries_follow_the_doubling_schedule
    (cfg : ClaudeConfig) (env : Environment) (allTools : list Tools.Tool)
    (world : nat -> Anthropic.Client * string) (clock : N) (generated : string)
    (input : Executor.AgentTaskInput) (b : Backend) :
  let fin := runJob cfg env allTools world clock (enqueueAgentTask env generated input) b in
  1 <= processed fin <= QUEUE_MAX_RETRIES env + 1 /\
  delays fin = map doubling (seq 0 (processed fin - 1)) /\
  (forall reason, state fin = failed reason -> processed fin = QUEUE_MAX_RETRIES env + 1) /\
  attemptsMade (job fin) = processed fin /\
  data (job fin) = input.
Proof.
  simpl. unfold runJob.
  replace (attempts (opts (enqueueAgentTask env generated input)) - 1
           - attemptsMade (enqueueAgentTask env generated input))
    with (QUEUE_MAX_RETRIES env) by (simpl; lia).
  destruct (work_schedule cfg env allTools world (QUEUE_MAX_RETRIES env) clock
              (enqueueAgentTask env generated input) b eq_refl)
    as (Hp & Hd & Hf & Ha & Hdata & _).
  cbn [enqueueAgentTask attemptsMade data] in Ha, Hd, Hdata.
  repeat split; try done; lia.
Qed.

(** *** Jobs the tracker does not follow *)

Lemma processAgentTask_untracked cfg env allTools w j b :
  trackedTaskId (Executor.metadata (data j)) = None ->
  tasks (backend_after (processAgentTask cfg env allTools w j b)) = tasks b.
Proof.
  intros Htid. unfold processAgentTask, failedAttempt. rewrite Htid.
  by destruct (Executor.returned _).
Qed.

(** X13. A job whose input carries no task id never touches the tracker:
    whatever its attempts do and however it ends, the stored tasks are those
    stored before. *)
Theorem untracked_job_leaves_the_tracker_alone
    (cfg : ClaudeConfig) (env : Environment) (allTools : list Tools.Tool)
    (world : nat -> Anthropic.Client * string) (clock : N) (generated : string)
    (input : Executor.AgentTaskInput) (b : Backend) :
  trackedTaskId (Executor.metadata input) = None ->
  let fin := runJob cfg env allTools world clock (enqueueAgentTask env generated input) b in
  tasks (backend fin) = tasks b /\ id (job fin) = generated.
Proof.
  intros Htid. simpl. unfold runJob.
  destruct (work_schedule cfg env allTools world
              (attempts (opts (enqueueAgentTask env generated input)) - 1
               - attemptsMade (enqueueAgentTask env generated input)) clock
              (enqueueAgentTask env generated input) b eq_refl)
    as (_ & _ & _ & _ & _ & Hid).
  split; [|rewrite Hid; simpl; by rewrite Htid].
  generalize (attempts (opts (enqueueAgentTask env generated input)) - 1
              - attemptsMade (enqueueAgentTask env generated input)).
  assert (trackedTaskId (Executor.metadata (data (enqueueAgentTask env generated input)))
          = None) as Hj by done.
  revert Hj. generalize (enqueueAgentTask env generated input). clear Hid.
  intros j Hj retries. revert clock j b Hj.
  induction retries as [|retries IH]; intros clock j b Hj; cbn [work];
    match goal with
    | |- context [processAgentTask cfg env allTools ?w j b] =>
        pose proof (processAgentTask_untracked cfg env allTools w j b Hj) as Hp;
        destruct (processAgentTask_job cfg env allTools w j b) as (Hd & _);
        set (p := processAgentTask cfg env allTools w j b) in *
    end;
    destruct (settled p); cbn [backend]; try done.
  rewrite IH; [done|]. simpl. congruence.
Qed.

Lemma untracked_job_leaves_the_tracker_alone_witness :
  let b := {| tasks := {[ "task-1" := Scenario.pendingTask ]}; docs := ∅ |} in
  let fin := runJob CLAUDE_CONFIG default_env [Scenario.getCategories]
               (fun _ => (Scenario.failingModel, Scenario.uuid)) 5000
               (enqueueAgentTask default_env "17" Scenario.listCategories) b in
  tasks (backend fin) = tasks b /\ id (job fin) = "17".
Proof.
  assert (trackedTaskId (Executor.metadata Scenario.listCategories) = None) as Htid
    by reflexivity.
  exact (untracked_job_leaves_the_tracker_alone CLAUDE_CONFIG default_env
           [Scenario.getCategories] (fun _ => (Scenario.failingModel, Scenario.uuid)) 5000
           "17" Scenario.listCategories
           {| tasks := {[ "task-1" := Scenario.pendingTask ]}; docs := ∅ |} Htid).
Defined.

(** *** Jobs for a tracked task *)

Lemma work_tracked cfg env allTools world tid b : forall retries clock j,
  trackedTaskId (Executor.metadata (data j)) = Some tid ->
  let fin := work cfg env allTools world retries clock j b in
  state fin = failed (Errors.message Tracker.notDefined) /\
  processed fin = retries + 1 /\
  backend fin = b /\
  id (job fin) = id j /\
  job_progress (job fin) = Some {| progress_status := "starting"; progress := 0 |}.
Proof.
  induction retries as [|retries IH]; intros clock j Hj; cbn [work];
    match goal with
    | |- context [processAgentTask cfg env allTools ?w j b] =>
        destruct (processAgentTask_tracked cfg env allTools w j b tid Hj)
          as (Hs & Hb & Hjob & _);
        set (p := processAgentTask cfg env allTools w j b) in *
    end;
    rewrite Hs; cbn [state processed backend job].
  - rewrite Hb, Hjob. by repeat split.
  - rewrite Hb.
    destruct (IH (clock + elapsed p
                  + backoffDelay (backoff (opts (bump (job_after p))))
                                 (attemptsMade (bump (job_after p))))%N
                 (bump (job_after p))) as (Hst & Hp & Hback & Hid & Hprog).
    { rewrite Hjob. by simpl. }
    repeat split; try done; [lia|]. rewrite Hid, Hjob. by simpl.
Qed.

(** X14. A job enqueued for a tracked task never reaches the agent,
    whether or not the task has a record: each attempt stops at the first
    status update, which throws.  The job uses up all its attempts and ends
    failed, its reason being the message of the [ReferenceError] thrown; it
    leaves the stored tasks and the documents as they were, and its progress
    never gets past "starting". *)
Theorem tracked_job_never_runs_the_agent
    (cfg : ClaudeConfig) (env : Environment) (allTools : list Tools.Tool)
    (world : nat -> Anthropic.Client * string) (clock : N) (generated : string)
    (input : Executor.AgentTaskInput) (tid : string) (b : Backend) :
  trackedTaskId (Executor.metadata input) = Some tid ->
  let fin := runJob cfg env allTools world clock (enqueueAgentTask env generated input) b in
  state fin = failed "FirebaseFirestore is not defined" /\
  processed fin = QUEUE_MAX_RETRIES env + 1 /\
  backend fin = b /\
  id (job fin) = tid /\
  job_progress (job fin) = Some {| progress_status := "starting"; progress := 0 |}.
Proof.
  intros Htid. simpl. unfold runJob.
  replace (attempts (opts (enqueueAgentTask env generated input)) - 1
           - attemptsMade (enqueueAgentTask env generated input))
    with (QUEUE_MAX_RETRIES env) by (simpl; lia).
  destruct (work_tracked cfg env allTools world tid b (QUEUE_MAX_RETRIES env) clock
              (enqueueAgentTask env generated input) Htid)
    as (Hs & Hp & Hb & Hid & Hprog).
  repeat split; try done. rewrite Hid. simpl. by rewrite Htid.
Qed.

Lemma tracked_job_never_runs_the_agent_witness :
  let b := {| tasks := {[ "task-1" := Scenario.pendingTask ]}; docs := ∅ |} in
  let fin := runJob CLAUDE_CONFIG default_env [Scenario.getCategories]
               (fun _ => (Scenario.listingModel, Scenario.uuid)) 5000
               (enqueueAgentTask default_env "1" Scenario.queuedInput) b in
  state fin = failed "FirebaseFirestore is not defined" /\
  processed fin = QUEUE_MAX_RETRIES default_env + 1 /\
  backend fin = b /\
  id (job fin) = "task-1" /\
  job_progress (job fin) = Some {| progress_status := "starting"; progress := 0 |}.
Proof.
  assert (trackedTaskId (Executor.metadata Scenario.queuedInput) = Some "task-1") as Htid
    by (by vm_compute).
  exact (tracked_job_never_runs_the_agent CLAUDE_CONFIG default_env
           [Scenario.getCategories] (fun _ => (Scenario.listingModel, Scenario.uuid)) 5000
           "1" Scenario.queuedInput "task-1"
           {| tasks := {[ "task-1" := Scenario.pendingTask ]}; docs := ∅ |} Htid).
Defined.

End Jobs.

(** ** The HTTP handlers *)

Section Handlers.
Import Config SSE Stream Executor Controller.

Lemma executeTask_error_class cfg env client allTools uuid input sseManager docs error :
  returned (executeTask cfg env client allTools uuid input sseManager docs) = Rejected error ->
  instanceofValidationError error = false.
Proof.
  destruct (executeTask_unfold cfg env client allTools uuid input sseManager docs)
    as (_ & _ & ->).
  destruct (winner _) as [response|cause]; [done|].
  intros [= <-]. unfold instanceofValidationError.
  destruct (Errors.instanceofTimeoutError cause) eqn:Ht; [|done].
  unfold Errors.instanceofTimeoutError in Ht. by destruct (Errors.cls cause).
Qed.

(** X15. POST /agent/task answers 200, 400 or 500.  It answers 200
    exactly when the request is valid and the execution resolves, and 400
    exactly when parsing threw a [ValidationError].  A failed execution is
    always answered with 500 and the code [EXECUTION_ERROR], with the error's
    message, a timeout included: what the executor throws is never taken for
    a validation error. *)
Theorem sync_endpoint_answers_by_outcome
    (cfg : ClaudeConfig) (env : Environment) (client : Anthropic.Client)
    (allTools : list Tools.Tool) (uuid : string) (clock : N)
    (parsed : Promise AgentTaskRequest) (docs : Tools.Documents) :
  let answer := fst (executeAgentTask cfg env client allTools uuid clock parsed docs) in
  let run validated :=
    executeTask cfg env client allTools uuid (taskInputOf validated None) None docs in
  (status answer = 200 \/ status answer = 400 \/ status answer = 500) /\
  (status answer = 200 <->
   exists validated result,
     parsed = Resolved validated /\ returned (run validated) = Resolved result) /\
  (status answer = 400 <->
   exists error, parsed = Rejected error /\ Errors.cls error = Errors.ValidationError) /\
  (forall validated error,
     parsed = Resolved validated -> returned (run validated) = Rejected error ->
     answer = {| status := 500;
                 body := errorBody "EXECUTION_ERROR" (Errors.message error)
                           (clock + returned_at (run validated)) |}).
Proof.
  simpl. unfold executeAgentTask.
  destruct parsed as [validated|error].
  - destruct (returned (executeTask cfg env client allTools uuid (taskInputOf validated None)
                          None docs)) as [result|error] eqn:Hrun; cbn [fst].
    + split; [by left|]. split; [split; [intros _; by exists validated, result|done]|].
      split; [split; [done|by intros (e & Hp & _)]|].
      intros v e [= <-] Hr. congruence.
    + unfold failure. rewrite (executeTask_error_class _ _ _ _ _ _ _ _ _ Hrun).
      split; [by right; right|].
      split; [split; [done|intros (v & r & [= <-] & Hr); congruence]|].
      split; [split; [done|by intros (e & Hp & _)]|].
      intros v e [= <-] Hr. congruence.
  - cbn [fst]. unfold failure, instanceofValidationError.
    destruct (Errors.cls error) eqn:Hcls; cbn [status];
      (split; [auto|]);
      (split; [split; [done|by intros (v & r & Hp & _)]|]);
      (split; [|done]);
      (split; [try done; intros _; by exists error|]);
      try done; intros (e & [= <-] & He); congruence.
Qed.

(** *** The streaming handler *)

Lemma replay_closes m t0 deadline settled c box :
  isClosed (replay m t0 (timeline deadline settled [c; Close] box)) = true.
Proof.
  unfold timeline. rewrite replay_app. cbn [map app replay perform].
  rewrite replay_closed by apply close_isClosed. apply close_isClosed.
Qed.

Lemma executeTask_closes cfg env client allTools uuid input m0 docs :
  exists m,
    sse (executeTask cfg env client allTools uuid input (Some m0) docs) = Some m /\
    isClosed m = true.
Proof.
  unfold executeTask. destruct (executeAgentLoop _ _ _ _ _ _) as [settlement r].
  destruct (winner _); simpl; eexists; (split; [reflexivity|apply replay_closes]).
Qed.

(** X16. POST /agent/task/stream always leaves the stream closed,
    whatever happens.  When the request is valid, the manager is left as
    the executor left it: the handler's own [catch] block finds it closed and
    adds nothing, so a failed execution is reported once.  When parsing
    throws, no execution is started, and on a connection whose writes succeed
    the stream holds one [error] event, with the error's message and the
    code [VALIDATION_ERROR] or [EXECUTION_ERROR], and is ended. *)
Theorem streaming_endpoint_always_closes
    (cfg : ClaudeConfig) (env : Environment) (client : Anthropic.Client)
    (allTools : list Tools.Tool) (clientId uuid : string) (res : Response)
    (parsed : Promise AgentTaskRequest) (docs : Tools.Documents) :
  let out := executeAgentTaskStreaming cfg env client allTools clientId uuid res parsed docs in
  isClosed (fst out) = true /\
  match parsed with
  | Resolved validated =>
      let run := executeTask cfg env client allTools uuid (taskInputOf validated None)
                   (Some (createSSEManager res clientId)) docs in
      snd out = Some run /\ sse run = Some (fst out)
  | Rejected error =>
      snd out = None /\
      (write_throws res = false ->
       written (response (fst out))
       = written res
         ++ [wire {| type := ERROR;
                     data := JObj [("message", JStr (Errors.message error));
                                   ("code", JStr (if instanceofValidationError error
                                                  then "VALIDATION_ERROR"
                                                  else "EXECUTION_ERROR"))];
                     timestamp := None |}] /\
       ended (response (fst out)) = true)
  end.
Proof.
  simpl. unfold executeAgentTaskStreaming.
  destruct parsed as [validated|error].
  - destruct (executeTask_closes cfg env client allTools uuid (taskInputOf validated None)
                (createSSEManager res clientId) docs) as (m & Hm & Hc).
    rewrite Hm. simpl.
    destruct (returned _); simpl; [done|].
    unfold streamingFailure, closed. rewrite Hc. by simpl.
  - simpl. unfold streamingFailure, closed. simpl.
    split; [destruct (instanceofValidationError error); apply close_isClosed|].
    split; [done|]. intros Hw.
    pose proof (createSSEManager_live res clientId Hw) as Hl.
    destruct (instanceofValidationError error); unfold sendError;
      rewrite sendEvent_live by done;
      match goal with
      | |- context [close (appended ?m ?events)] =>
          destruct (close_appended m events Hl) as (-> & _ & ->)
      end; done.
Qed.

(** *** Queueing a task and asking for its status *)

(** X17. POST /agent/task/queue never queues anything.  A valid request
    is answered 500 with the code [QUEUE_ERROR] and the message of the error
    [createTask] throws; no record is stored, no job is enqueued and 202 is
    never answered.  A request whose parsing throws is answered 400 with the
    code [VALIDATION_ERROR] when the error is a [ValidationError] and 500
    with [QUEUE_ERROR] otherwise, and nothing is stored or enqueued
    either. *)
Theorem queueing_fails_at_the_tracker
    (env : Environment) (uuid generated : string) (clock : N)
    (parsed : Promise AgentTaskRequest) (stored : gmap string Tracker.TaskRecord) :
  let queued := queueAgentTask env uuid generated clock parsed stored in
  tasks queued = stored /\
  job queued = None /\
  reply queued =
    match parsed with
    | Resolved _ =>
        {| status := 500;
           body := errorBody "QUEUE_ERROR" "FirebaseFirestore is not defined" clock |}
    | Rejected error =>
        if instanceofValidationError error then
          {| status := 400; body := errorBody "VALIDATION_ERROR" (Errors.message error) clock |}
        else
          {| status := 500; body := errorBody "QUEUE_ERROR" (Errors.message error) clock |}
    end.
Proof. by destruct parsed. Qed.

(** The reply to a valid request that arrived on 14 November 2023. *)
Example queueing_a_valid_request :
  reply (queueAgentTask default_env Scenario.uuid "1" 1700000000000
           (Resolved {| task := "list categories"; userId := "user-123"; context := None |})
           ∅)
  = {| status := 500;
       body := JObj [("success", JBool false);
                     ("error", JObj [("code", JStr "QUEUE_ERROR");
                                     ("message", JStr "FirebaseFirestore is not defined")]);
                     ("timestamp", JStr "2023-11-14T22:13:20.000Z")] |}.
Proof. by vm_compute. Qed.

(** X18. The task status endpoint does not follow a tracked job.  Whatever
    the attempts of the job would do, after the job GET /agent/task/:taskId
    answers, for every task id, exactly what it answered before the job,
    while [getJobStatus] reports the job failed, with the message of the
    [ReferenceError] as its error, no result, and the progress left at
    "starting". *)
Theorem task_status_never_follows_the_job
    (cfg : ClaudeConfig) (env : Environment) (allTools : list Tools.Tool)
    (world : nat -> Anthropic.Client * string) (generated : string) (started later : N)
    (input : AgentTaskInput) (tid : string) (b : Queue.Backend) :
  Queue.trackedTaskId (Executor.metadata input) = Some tid ->
  let fin := Queue.runJob cfg env allTools world started
               (Queue.enqueueAgentTask env generated input) b in
  (forall taskId,
     getTaskStatus later taskId (Queue.tasks (Queue.backend fin))
     = getTaskStatus later taskId (Queue.tasks b)) /\
  JobStatus.getJobStatus {[ Queue.id (Queue.job fin) := fin ]} tid
  = Resolved {| JobStatus.status := "failed";
                JobStatus.progress :=
                  Some {| Queue.progress_status := "starting"; Queue.progress := 0 |};
                JobStatus.result := None;
                JobStatus.error := Some "FirebaseFirestore is not defined" |}.
Proof.
  intros Htid. simpl. unfold Queue.runJob.
  replace (Queue.attempts (Queue.opts (Queue.enqueueAgentTask env generated input)) - 1
           - Queue.attemptsMade (Queue.enqueueAgentTask env generated input))
    with (QUEUE_MAX_RETRIES env) by (simpl; lia).
  destruct (work_tracked cfg env allTools world tid b (QUEUE_MAX_RETRIES env) started
              (Queue.enqueueAgentTask env generated input) Htid)
    as (Hs & _ & Hb & Hid & Hprog).
  set (fin := Queue.work cfg env allTools world (QUEUE_MAX_RETRIES env) started
                (Queue.enqueueAgentTask env generated input) b) in *.
  split; [intros taskId; by rewrite Hb|].
  assert (Queue.id (Queue.job fin) = tid) as ->
    by (rewrite Hid; cbn [Queue.enqueueAgentTask Queue.id]; by rewrite Htid).
  unfold JobStatus.getJobStatus. rewrite lookup_singleton_eq, Hs, Hprog. reflexivity.
Qed.

Lemma task_status_never_follows_the_job_witness :
  let b := {| Queue.tasks := {[ "task-1" := Scenario.pendingTask ]}; Queue.docs := ∅ |} in
  let fin := Queue.runJob CLAUDE_CONFIG default_env [Scenario.getCategories]
               (fun _ => (Scenario.listingModel, "run-1")) 1700000001000
               (Queue.enqueueAgentTask default_env "1" Scenario.queuedInput) b in
  (forall taskId,
     getTaskStatus 1700000009000 taskId (Queue.tasks (Queue.backend fin))
     = getTaskStatus 1700000009000 taskId (Queue.tasks b)) /\
  JobStatus.getJobStatus {[ Queue.id (Queue.job fin) := fin ]} "task-1"
  = Resolved {| JobStatus.status := "failed";
                JobStatus.progress :=
                  Some {| Queue.progress_status := "starting"; Queue.progress := 0 |};
                JobStatus.result := None;
                JobStatus.error := Some "FirebaseFirestore is not defined" |}.
Proof.
  assert (Queue.trackedTaskId (Executor.metadata Scenario.queuedInput) = Some "task-1")
    as Htid by (by vm_compute).
  exact (task_status_never_follows_the_job CLAUDE_CONFIG default_env
           [Scenario.getCategories] (fun _ => (Scenario.listingModel, "run-1")) "1"
           1700000001000 1700000009000 Scenario.queuedInput "task-1"
           {| Queue.tasks := {[ "task-1" := Scenario.pendingTask ]}; Queue.docs := ∅ |} Htid).
Defined.

(** After that job the task is still reported as pending. *)
Example tracked_task_is_still_reported_pending :
  let b := {| Queue.tasks := {[ "task-1" := Scenario.pendingTask ]}; Queue.docs := ∅ |} in
  let fin := Queue.runJob CLAUDE_CONFIG default_env [Scenario.getCategories]
               (fun _ => (Scenario.listingModel, "run-1")) 1700000001000
               (Queue.enqueueAgentTask default_env "1" Scenario.queuedInput) b in
  getTaskStatus 1700000009000 (Some "task-1") (Queue.tasks (Queue.backend fin))
  = {| status := 200;
       body := JObj [("success", JBool true);
                     ("taskId", JStr "task-1");
                     ("status", JStr "pending");
                     ("createdAt", JStr "1970-01-01T00:00:01.000Z");
                     ("updatedAt", JStr "1970-01-01T00:00:01.000Z")] |}.
Proof. by vm_compute. Qed.

End Handlers.

(** ** Documents and their owners *)

Section Owners.
Import Firestore Tenancy.

Lemma owned_spec userId data :
  owned userId data = true <-> data !! "userId" = Some (JStr userId).
Proof.
  unfold owned. destruct (data !! "userId") as [[| | |owner| |]|]; try (split; congruence).
  rewrite String.eqb_eq. split; congruence.
Qed.

Lemma getById_resolved k c userId id entity :
  getById k c userId id = Resolved entity ->
  id <> "" /\
  exists data, c !! id = Some data /\ owned userId data = true /\ entity = toEntity id data.
Proof.
  unfold getById. destruct (String.eqb_spec id ""); [done|].
  destruct (c !! id) as [data|]; [|done].
  destruct (owned userId data) eqn:Ho; [|done].
  intros [= <-]. split; [done|]. by exists data.
Qed.

Lemma getById_owned k c userId id data :
  id <> "" -> c !! id = Some data -> owned userId data = true ->
  getById k c userId id = Resolved (toEntity id data).
Proof.
  intros Hid Hc Ho. unfold getById. destruct (String.eqb_spec id ""); [done|].
  by rewrite Hc, Ho.
Qed.

(** X19. A read by id gives a user nothing of another user's document:
    when it resolves, the stored document names that user as its owner and
    the entity is that document with its id; and for a document that names
    another owner, or none, the outcome is the very one the read would have
    if the document did not exist. *)
Theorem read_by_id_reveals_only_own_documents
    (k : Kind) (c : Collection) (userId id : string) :
  (forall entity,
     getById k c userId id = Resolved entity ->
     exists data,
       c !! id = Some data /\ data !! "userId" = Some (JStr userId) /\
       entity = toEntity id data) /\
  (forall data,
     c !! id = Some data -> data !! "userId" <> Some (JStr userId) ->
     getById k c userId id = getById k (delete id c) userId id).
Proof.
  split.
  - intros entity Hget. apply getById_resolved in Hget as (_ & data & Hc & Ho & ->).
    exists data. by rewrite <- owned_spec.
  - intros data Hc Hother. unfold getById. rewrite Hc, lookup_delete_eq.
    destruct (owned userId data) eqn:Ho; [|done].
    by apply owned_spec in Ho.
Qed.

(** *** Writes *)

Lemma write_other id updateData c other :
  other <> id -> write id updateData c !! other = c !! other.
Proof. intros Hne. unfold write. by rewrite lookup_alter_ne. Qed.

Lemma write_same id updateData c :
  write id updateData c !! id = (fun data => updateData ∪ data) <$> c !! id.
Proof. unfold write. by rewrite lookup_alter_eq. Qed.

Lemma write_lookup id updateData c other after :
  write id updateData c !! other = Some after ->
  exists before,
    c !! other = Some before /\
    (after = before \/ (other = id /\ after = updateData ∪ before)).
Proof.
  destruct (decide (other = id)) as [->|Hne].
  - rewrite write_same. destruct (c !! id) as [before|]; [|done].
    intros [= <-]. exists before. split; [done|]. by right.
  - rewrite write_other by done. intros Hc. exists after. split; [done|]. by left.
Qed.

Lemma write_keeps id updateData c other before :
  c !! other = Some before -> is_Some (write id updateData c !! other).
Proof.
  intros Hc. destruct (decide (other = id)) as [->|Hne].
  - rewrite write_same, Hc. by eexists.
  - rewrite write_other, Hc by done. by eexists.
Qed.

Lemma union_owner (updateData data : Doc) :
  updateData !! "userId" = None -> (updateData ∪ data) !! "userId" = data !! "userId".
Proof. intros Hn. by rewrite lookup_union_r. Qed.

Lemma stamped_owner (updates : Doc) now :
  updates !! "userId" = None -> (<["updatedAt" := stamp now]> updates) !! "userId" = None.
Proof. intros Hn. by rewrite lookup_insert_ne. Qed.

(** What the loop of a batch accepts is owned by the user. *)
Lemma collect_owned c userId now updates :
  Forall (fun w => fst w <> "" /\ exists data, c !! fst w = Some data /\ owned userId data = true)
         (fst (collect c userId updates now)).
Proof.
  induction updates as [|[questionId data] updates IH]; simpl; [constructor|].
  destruct (collect c userId updates now) as [writes errors]. simpl in IH.
  destruct (getById Question c userId questionId) as [entity|error] eqn:Hget; simpl; [|done].
  constructor; [|done].
  apply getById_resolved in Hget as (Hid & stored & Hc & Ho & _). simpl. eauto.
Qed.

Lemma collect_stamped c userId now updates :
  Forall (fun updates : Doc => updates !! "userId" = None) (map snd updates) ->
  Forall (fun w => snd w !! "userId" = None) (fst (collect c userId updates now)).
Proof.
  induction updates as [|[questionId data] updates IH]; simpl; [constructor|].
  intros Hall. inversion Hall as [|? ? Hhead Htail]; subst.
  specialize (IH Htail). destruct (collect c userId updates now) as [writes errors].
  destruct (getById Question c userId questionId); simpl; [|done].
  constructor; [by apply stamped_owner|done].
Qed.

Lemma commit_lookup writes : forall c other after,
  commit writes c !! other = Some after ->
  exists before,
    c !! other = Some before /\
    (after = before \/
     ((exists updateData, (other, updateData) ∈ writes) /\
      (Forall (fun w => snd w !! "userId" = None) writes ->
       after !! "userId" = before !! "userId"))).
Proof.
  induction writes as [|[id updateData] writes IH]; intros c other after; simpl.
  - intros Hc. exists after. split; [done|]. by left.
  - intros Hc. apply IH in Hc as (middle & Hm & Hafter).
    apply write_lookup in Hm as (before & Hb & Hmiddle).
    exists before. split; [done|].
    destruct Hafter as [->|[[later Hin] Howner]], Hmiddle as [->|[-> ->]].
    + by left.
    + right. split; [exists updateData; by left|].
      intros Hall. inversion Hall; subst. by apply union_owner.
    + right. split; [exists later; by right|].
      intros Hall. inversion Hall; subst. by apply Howner.
    + right. split; [exists updateData; by left|].
      intros Hall. inversion Hall; subst. rewrite Howner by done. by apply union_owner.
Qed.

Lemma commit_keeps writes : forall c other before,
  c !! other = Some before -> is_Some (commit writes c !! other).
Proof.
  induction writes as [|[id updateData] writes IH]; intros c other before Hc; simpl.
  - by eexists.
  - destruct (write_keeps id updateData c other before Hc) as [middle Hm]. by eapply IH.
Qed.

(** *** What one operation does to the documents of a collection *)

Lemma effect_refl userId c updates : effect userId c c updates.
Proof.
  split; [by eauto|]. intros id after Hc. rewrite Hc. by left.
Qed.

Lemma write_effect userId id updateData c updates :
  (exists data, c !! id = Some data /\ owned userId data = true) ->
  (Forall (fun updates : Doc => updates !! "userId" = None) updates ->
   updateData !! "userId" = None) ->
  effect userId c (write id updateData c) updates.
Proof.
  intros (data & Hc & Ho) Hkeeps. split.
  - intros other before. apply write_keeps.
  - intros other after Hafter. apply write_lookup in Hafter as (before & Hb & Hcase).
    rewrite Hb. destruct Hcase as [->|[-> ->]]; [by left|]. right.
    assert (before = data) as -> by congruence.
    split; [done|]. intros Hall. by apply union_owner, Hkeeps.
Qed.

Lemma create_effect k c userId input now generated :
  effect userId c (snd (create k c userId input now generated)) [].
Proof.
  unfold create. destruct (c !! generated) as [taken|] eqn:Hfree; [apply effect_refl|].
  simpl. split.
  - intros id before Hc. rewrite lookup_insert_ne by congruence. by eexists.
  - intros id after. destruct (decide (id = generated)) as [->|Hne].
    + rewrite lookup_insert_eq, Hfree. intros [= <-].
      rewrite !lookup_insert_ne by done. by rewrite lookup_insert_eq.
    + rewrite lookup_insert_ne by done. intros Hc. rewrite Hc. by left.
Qed.

Lemma update_effect k c userId id updates now :
  effect userId c (snd (update k c userId id updates now)) [updates].
Proof.
  unfold update. destruct (getById k c userId id) as [entity|error] eqn:Hget;
    [|apply effect_refl].
  apply getById_resolved in Hget as (_ & data & Hc & Ho & _).
  assert (effect userId c (write id (<["updatedAt" := stamp now]> updates) c) [updates]) as He.
  { apply write_effect; [by eauto|].
    intros Hall. inversion Hall; subst. by apply stamped_owner. }
  by destruct (getById k _ userId id).
Qed.

Lemma delete_effect c userId questionId now :
  effect userId c (snd (deleteQuestion c userId questionId now)) [].
Proof.
  unfold deleteQuestion.
  destruct (getById Question c userId questionId) as [entity|error] eqn:Hget;
    [|apply effect_refl].
  apply getById_resolved in Hget as (_ & data & Hc & Ho & _).
  apply write_effect; [by eauto|]. intros _.
  rewrite lookup_insert_ne by done. by rewrite lookup_singleton_ne.
Qed.

Lemma batch_effect c userId updates now :
  effect userId c (snd (batchUpdateQuestions c userId updates now)) (map snd updates).
Proof.
  unfold batchUpdateQuestions.
  pose proof (collect_owned c userId now updates) as Howned.
  pose proof (collect_stamped c userId now updates) as Hstamped.
  destruct (collect c userId updates now) as [writes errors]. simpl in *.
  split.
  - intros id before. apply commit_keeps.
  - intros id after Hafter. apply commit_lookup in Hafter as (before & Hb & Hcase).
    rewrite Hb. destruct Hcase as [->|[[updateData Hw] Howner]]; [by left|]. right.
    rewrite Forall_forall in Howned. destruct (Howned _ Hw) as (_ & data & Hc & Ho).
    simpl in Hc.
    assert (before = data) as -> by congruence.
    split; [done|]. intros Hall. by apply Howner, Hstamped.
Qed.

Lemma serve_effect userId db r k :
  effect userId (collection k db) (collection k (serve userId db r)) (written r).
Proof.
  destruct r as [k' input now generated|k' id updates now|questionId now|updates now];
    cbn [serve written].
  - destruct k, k'; cbn [collection store questions categories qualifications];
      auto using effect_refl, create_effect.
  - destruct k, k'; cbn [collection store questions categories qualifications];
      auto using effect_refl, update_effect.
  - destruct k; cbn [collection store questions categories qualifications];
      auto using effect_refl, delete_effect.
  - destruct k; cbn [collection store questions categories qualifications];
      auto using effect_refl, batch_effect.
Qed.

(** X20. Whatever writing requests a user makes, to whatever ids and
    with whatever field values, a document that names another owner, or
    none, stays exactly as it was, in each of the three collections. *)
Theorem requests_never_touch_foreign_documents
    (userId : string) (requests : list Request) (db : Db)
    (k : Kind) (id : string) (data : Doc) :
  collection k db !! id = Some data ->
  owned userId data = false ->
  collection k (foldl (serve userId) db requests) !! id = Some data.
Proof.
  revert db. induction requests as [|r requests IH]; intros db Hc Ho; [done|].
  simpl. apply IH; [|done].
  destruct (serve_effect userId db r k) as [Hkeeps Hafter].
  destruct (Hkeeps id data Hc) as [after Ha].
  specialize (Hafter id after Ha). rewrite Hc in Hafter.
  destruct Hafter as [->|[Hown _]]; [done|congruence].
Qed.

Lemma requests_never_touch_foreign_documents_witness :
  let theirs : Doc := {[ "userId" := JStr "user-456"; "questionText" := JStr "What is a monad?" ]} in
  let db := {| questions := {[ "q-1" := theirs ]}; categories := ∅; qualifications := ∅ |} in
  collection Question
    (foldl (serve "user-123") db
       [ Update Question "q-1" {[ "questionText" := JStr "changed" ]} 5000;
         Delete "q-1" 6000;
         BatchUpdate [("q-1", {[ "isFavorite" := JBool true ]})] 7000 ]) !! "q-1"
  = Some theirs.
Proof.
  assert (collection Question
            {| questions :=
                 {[ "q-1" := ({[ "userId" := JStr "user-456";
                                 "questionText" := JStr "What is a monad?" ]} : Doc) ]};
               categories := ∅; qualifications := ∅ |} !! "q-1"
          = Some ({[ "userId" := JStr "user-456";
                     "questionText" := JStr "What is a monad?" ]} : Doc)) as Hc
    by apply lookup_singleton_eq.
  assert (owned "user-123"
            ({[ "userId" := JStr "user-456";
                "questionText" := JStr "What is a monad?" ]} : Doc) = false) as Ho
    by (by vm_compute).
  exact (requests_never_touch_foreign_documents "user-123" _ _ Question "q-1" _ Hc Ho).
Defined.

(** X21. As long as no update names the [userId] field, no sequence of
    writing requests of a user changes the owner of a document or removes
    one: every document stored before is still stored, with the owner it
    had; and every document that was not stored before names the requesting
    user as its owner. *)
Theorem requests_keep_every_owner
    (userId : string) (requests : list Request) (db : Db) (k : Kind) (id : string) :
  Forall keepsOwner requests ->
  let final := collection k (foldl (serve userId) db requests) in
  (forall before,
     collection k db !! id = Some before ->
     exists after, final !! id = Some after /\ after !! "userId" = before !! "userId") /\
  (forall after,
     final !! id = Some after -> collection k db !! id = None ->
     after !! "userId" = Some (JStr userId)).
Proof.
  intros Hall. revert db. induction Hall as [|r requests Hr _ IH]; intros db; simpl.
  - split; [by eauto|congruence].
  - destruct (serve_effect userId db r k) as [Hkeeps Hafter].
    destruct (IH (serve userId db r)) as [IHold IHnew].
    split.
    + intros before Hc. destruct (Hkeeps id before Hc) as [middle Hm].
      destruct (IHold middle Hm) as (after & Ha & Howner).
      exists after. split; [done|]. rewrite Howner.
      specialize (Hafter id middle Hm). rewrite Hc in Hafter.
      destruct Hafter as [->|[_ Hsame]]; [done|by apply Hsame].
    + intros after Ha Hnone.
      destruct (collection k (serve userId db r) !! id) as [middle|] eqn:Hm.
      * destruct (IHold middle eq_refl) as (after' & Ha' & Howner).
        assert (after' = after) as -> by congruence.
        rewrite Howner. specialize (Hafter id middle Hm). by rewrite Hnone in Hafter.
      * by apply IHnew.
Qed.

Lemma requests_keep_every_owner_witness :
  let mine : Doc := {[ "userId" := JStr "user-123"; "questionText" := JStr "What is a monad?" ]} in
  let db := {| questions := {[ "q-1" := mine ]}; categories := ∅; qualifications := ∅ |} in
  let requests :=
    [ Update Question "q-1" {[ "questionText" := JStr "What is a functor?" ]} 5000;
      Create Question {[ "questionText" := JStr "What is a fold?";
                         "userId" := JStr "user-456" ]} 6000 "q-2";
      Delete "q-1" 7000 ] in
  let final := collection Question (foldl (serve "user-123") db requests) in
  (forall before,
     collection Question db !! "q-2" = Some before ->
     exists after, final !! "q-2" = Some after /\ after !! "userId" = before !! "userId") /\
  (forall after,
     final !! "q-2" = Some after -> collection Question db !! "q-2" = None ->
     after !! "userId" = Some (JStr "user-123")).
Proof.
  assert (Forall keepsOwner
            [ Update Question "q-1" {[ "questionText" := JStr "What is a functor?" ]} 5000;
              Create Question {[ "questionText" := JStr "What is a fold?";
                                 "userId" := JStr "user-456" ]} 6000 "q-2";
              Delete "q-1" 7000 ]) as Hall.
  { repeat constructor. }
  exact (requests_keep_every_owner "user-123" _
           {| questions :=
                {[ "q-1" := ({[ "userId" := JStr "user-123";
                                "questionText" := JStr "What is a monad?" ]} : Doc) ]};
              categories := ∅; qualifications := ∅ |} Question "q-2" Hall).
Defined.

(** The condition on the updates is needed: an update that names the
    [userId] field hands the document over, and the call then rejects with
    "not found" although the write was made. *)
Example update_naming_an_owner_hands_the_document_over :
  let mine : Doc := {[ "userId" := JStr "user-123"; "questionText" := JStr "What is a monad?" ]} in
  let out := update Question {[ "q-1" := mine ]} "user-123" "q-1"
               {[ "userId" := JStr "user-456" ]} 5000 in
  fst out = Rejected (newNotFoundError "Question" (Some "q-1")) /\
  owned "user-456" <$> snd out !! "q-1" = Some true.
Proof. by vm_compute. Qed.

(** *** Batches *)

Lemma collect_spec c userId now updates :
  let collected := collect c userId updates now in
  map fst (fst collected) = List.filter (readable c userId) (map fst updates) /\
  map fst (snd collected)
  = List.filter (fun id => negb (readable c userId id)) (map fst updates) /\
  length (fst collected) + length (snd collected) = length updates.
Proof.
  induction updates as [|[questionId data] updates IH]; simpl; [done|].
  destruct (collect c userId updates now) as [writes errors]. simpl in IH.
  destruct IH as (Hw & He & Hl).
  destruct (getById Question c userId questionId) as [entity|error] eqn:Hget.
  - assert (readable c userId questionId = true) as Hr
      by (unfold readable; by rewrite Hget).
    cbn [fst snd map length List.filter]. rewrite Hr. cbn [negb].
    split; [by rewrite Hw|]. split; [done|lia].
  - assert (readable c userId questionId = false) as Hr
      by (unfold readable; by rewrite Hget).
    cbn [fst snd map length List.filter]. rewrite Hr. cbn [negb].
    split; [done|]. split; [by rewrite He|lia].
Qed.

Lemma filter_none {A} (f : A -> bool) l :
  List.filter (fun x => negb (f x)) l = [] <-> Forall (fun x => f x = true) l.
Proof.
  induction l as [|x l IH]; simpl; [by split; [constructor|]|].
  destruct (f x) eqn:Hx; simpl.
  - rewrite IH. split; [by constructor|by inversion 1].
  - split; [done|]. inversion 1; congruence.
Qed.

(** The writes a batch puts together: the entries whose question the user
    can read, in order, each stamped with the time of the call. *)
Lemma collect_writes c userId now updates :
  fst (collect c userId updates now)
  = map (fun u => (fst u, <["updatedAt" := stamp now]> (snd u)))
        (List.filter (fun u => readable c userId (fst u)) updates).
Proof.
  induction updates as [|[questionId data] updates IH]; simpl; [done|].
  destruct (collect c userId updates now) as [writes errors]. simpl in IH.
  unfold readable at 1. cbn [fst].
  destruct (getById Question c userId questionId) as [entity|error]; simpl; by rewrite IH.
Qed.

Lemma commit_app ws1 ws2 c : commit (ws1 ++ ws2) c = commit ws2 (commit ws1 c).
Proof. unfold commit. by rewrite foldl_app. Qed.

Lemma commit_other writes : forall c id,
  id ∉ map fst writes -> commit writes c !! id = c !! id.
Proof.
  induction writes as [|[target updateData] writes IH]; intros c id Hid; simpl; [done|].
  simpl in Hid. apply not_elem_of_cons in Hid as [Hne Hid].
  rewrite IH by done. by apply write_other.
Qed.

Lemma commit_once ws1 ws2 id updateData c :
  id ∉ map fst ws1 -> id ∉ map fst ws2 ->
  commit (ws1 ++ (id, updateData) :: ws2) c !! id
  = (fun data => updateData ∪ data) <$> c !! id.
Proof.
  intros H1 H2. rewrite commit_app. simpl.
  by rewrite (commit_other ws2) by done; rewrite write_same, commit_other.
Qed.

Lemma accepted_ids c userId now (updates : list (string * Doc)) id :
  id ∉ map fst updates ->
  id ∉ map fst (map (fun u : string * Doc => (fst u, <["updatedAt" := stamp now]> (snd u)))
                  (List.filter (fun u => readable c userId (fst u)) updates)).
Proof.
  intros Hid Hin. apply Hid. rewrite map_map in Hin. simpl in Hin.
  apply list_elem_of_In, in_map_iff in Hin as (u & <- & Hu).
  apply filter_In in Hu as [Hu _].
  apply list_elem_of_In, in_map_iff. by exists u.
Qed.

(** X22. A batch update never rejects, and its report accounts for every
    entry: the processed and the failed entries add up to the entries given;
    the errors are those of the entries whose question the user cannot read,
    in the order given; the batch succeeded exactly when no entry failed,
    that is when the user can read every question named; and when every
    entry failed nothing is written.  The entries that pass are written even
    when others fail: what is committed is the passing entries, in order,
    each with [updatedAt] set to the time of the call; a passing entry whose
    question no other entry names leaves that question with the entry's
    fields and the new [updatedAt] over the fields stored before; and a
    question that no entry names, or that the user cannot read, is left as
    it was. *)
Theorem batch_update_accounts_for_every_entry
    (c : Collection) (userId : string) (updates : list (string * Doc)) (now : N) :
  let out := batchUpdateQuestions c userId updates now in
  exists report,
    fst out = Resolved report /\
    processedCount report + errorCount report = length updates /\
    errorCount report = length (errors report) /\
    map fst (errors report)
    = List.filter (fun id => negb (readable c userId id)) (map fst updates) /\
    (success report = true <-> errorCount report = 0) /\
    (success report = true <->
     Forall (fun id => readable c userId id = true) (map fst updates)) /\
    (errorCount report = length updates -> snd out = c) /\
    snd out
    = commit (map (fun u => (fst u, <["updatedAt" := stamp now]> (snd u)))
                  (List.filter (fun u => readable c userId (fst u)) updates)) c /\
    (forall earlier id data later before,
       updates = earlier ++ (id, data) :: later ->
       id ∉ map fst earlier -> id ∉ map fst later ->
       readable c userId id = true ->
       c !! id = Some before ->
       snd out !! id = Some (<["updatedAt" := stamp now]> data ∪ before)) /\
    (forall id,
       id ∉ map fst updates \/ readable c userId id = false -> snd out !! id = c !! id).
Proof.
  simpl. unfold batchUpdateQuestions.
  destruct (collect_spec c userId now updates) as (Hw & He & Hl).
  pose proof (collect_writes c userId now updates) as Hwrites.
  destruct (collect c userId updates now) as [writes failed]. simpl in *.
  eexists. split; [reflexivity|]. simpl.
  split; [done|]. split; [done|]. split; [done|].
  split; [apply Nat.eqb_eq|]. split; [|split; [|split; [|split]]].
  - rewrite Nat.eqb_eq, <- filter_none, <- He.
    destruct failed; simpl; split; congruence.
  - intros Hall. destruct writes; [done|simpl in Hl; lia].
  - by rewrite Hwrites.
  - intros earlier id data later before -> Hearlier Hlater Hread Hbefore.
    rewrite Hwrites, List.filter_app. cbn [List.filter fst]. rewrite Hread.
    rewrite map_app. cbn [map fst snd].
    rewrite commit_once by (by apply accepted_ids). by rewrite Hbefore.
  - intros id Hid. apply commit_other. rewrite Hw.
    intros Hin. apply list_elem_of_In, filter_In in Hin as [Hin Hread].
    destruct Hid as [Hid|Hid]; [|congruence]. apply Hid. by apply list_elem_of_In.
Qed.

(** A batch of three entries of which the second names a question of
    another user: the first and the third are written all the same. *)
Example batch_writes_what_passes :
  let mine (text : string) : Doc :=
    {[ "userId" := JStr "user-123"; "questionText" := JStr text ]} in
  let c : Collection :=
    {[ "q1" := mine "What is a heap?";
       "q2" := {[ "userId" := JStr "user-456"; "questionText" := JStr "Theirs" ]};
       "q3" := mine "What is a trie?" ]} in
  let out := batchUpdateQuestions c "user-123"
               [ ("q1", {[ "questionText" := JStr "What is a binary heap?" ]});
                 ("q2", {[ "questionText" := JStr "Mine now" ]});
                 ("q3", {[ "isActive" := JBool false ]}) ] 7000 in
  (exists report,
     fst out = Resolved report /\ success report = false /\
     processedCount report = 2 /\ map fst (errors report) = ["q2"]) /\
  snd out !! "q1" = Some ({[ "userId" := JStr "user-123";
                             "questionText" := JStr "What is a binary heap?";
                             "updatedAt" := stamp 7000 ]} : Doc) /\
  snd out !! "q2" = c !! "q2" /\
  snd out !! "q3" = Some ({[ "userId" := JStr "user-123";
                             "questionText" := JStr "What is a trie?";
                             "isActive" := JBool false;
                             "updatedAt" := stamp 7000 ]} : Doc).
Proof.
  cbv zeta. split; [eexists; by vm_compute|].
  split; [|split]; by vm_compute.
Qed.

(** *** Deleting and creating *)

(** X23. Deleting a question the user can read removes nothing: the call
    resolves, the question is still stored and the user can still read it;
    what is read then is what was read before, but for [isActive], now
    false, and [updatedAt], now the time of the call.  No other document
    changes. *)
Theorem delete_only_deactivates
    (c : Collection) (userId questionId : string) (now : N) (entity : Doc) :
  getById Question c userId questionId = Resolved entity ->
  let out := deleteQuestion c userId questionId now in
  fst out = Resolved () /\
  (forall id, id <> questionId -> snd out !! id = c !! id) /\
  exists deactivated,
    getById Question (snd out) userId questionId = Resolved deactivated /\
    deactivated !! "isActive" = Some (JBool false) /\
    deactivated !! "updatedAt" = Some (stamp now) /\
    forall field,
      field <> "isActive" -> field <> "updatedAt" -> deactivated !! field = entity !! field.
Proof.
  intros Hget. simpl. unfold deleteQuestion. rewrite Hget. simpl.
  apply getById_resolved in Hget as (Hid & data & Hc & Ho & ->).
  split; [done|]. split; [by intros id Hne; apply write_other|].
  set (updateData := ({[ "isActive" := JBool false; "updatedAt" := stamp now ]} : Doc)).
  assert (updateData !! "userId" = None) as Hkeeps
    by (subst updateData; rewrite lookup_insert_ne by done; by rewrite lookup_singleton_ne).
  exists (toEntity questionId (updateData ∪ data)). split.
  - apply getById_owned; [done|by rewrite write_same, Hc|].
    apply owned_spec. rewrite union_owner by done. by apply owned_spec.
  - unfold toEntity. split; [|split].
    + apply lookup_union_Some_l, lookup_union_Some_l. subst updateData.
      by rewrite lookup_insert_eq.
    + apply lookup_union_Some_l, lookup_union_Some_l. subst updateData.
      rewrite lookup_insert_ne by done. by rewrite lookup_singleton_eq.
    + intros field Hactive Hupdated.
      assert (updateData !! field = None) as Hnone
        by (subst updateData; rewrite lookup_insert_ne by done;
            by rewrite lookup_singleton_ne).
      rewrite !lookup_union, Hnone.
      by destruct (data !! field), (({[ "id" := JStr questionId ]} : Doc) !! field).
Qed.

Lemma delete_only_deactivates_witness :
  let mine : Doc := {[ "userId" := JStr "user-123"; "isActive" := JBool true;
                       "questionText" := JStr "What is a monad?" ]} in
  let c : Collection := {[ "q-1" := mine ]} in
  let out := deleteQuestion c "user-123" "q-1" 7000 in
  fst out = Resolved () /\
  (forall id, id <> "q-1" -> snd out !! id = c !! id) /\
  exists deactivated,
    getById Question (snd out) "user-123" "q-1" = Resolved deactivated /\
    deactivated !! "isActive" = Some (JBool false) /\
    deactivated !! "updatedAt" = Some (stamp 7000) /\
    forall field,
      field <> "isActive" -> field <> "updatedAt" ->
      deactivated !! field = toEntity "q-1" mine !! field.
Proof.
  assert (getById Question
            ({[ "q-1" := ({[ "userId" := JStr "user-123"; "isActive" := JBool true;
                             "questionText" := JStr "What is a monad?" ]} : Doc) ]}
               : Collection) "user-123" "q-1"
          = Resolved (toEntity "q-1"
                        ({[ "userId" := JStr "user-123"; "isActive" := JBool true;
                            "questionText" := JStr "What is a monad?" ]} : Doc))) as Hget
    by (by vm_compute).
  exact (delete_only_deactivates _ "user-123" "q-1" 7000 _ Hget).
Defined.

(** X24. A document created for a user belongs to that user whatever the
    input says: with an id that is free, creation resolves with an entity
    the user can read back unchanged; its owner is the caller and both its
    timestamps are the time of the call, even when the input carries other
    values for them; every other field is the input's, or the collection's
    default when the input has none; and no other document changes. *)
Theorem created_document_belongs_to_the_caller
    (k : Kind) (c : Collection) (userId : string) (input : Doc) (now : N)
    (generated : string) :
  c !! generated = None -> generated <> "" ->
  let out := create k c userId input now generated in
  exists entity,
    fst out = Resolved entity /\
    getById k (snd out) userId generated = Resolved entity /\
    entity !! "userId" = Some (JStr userId) /\
    entity !! "createdAt" = Some (stamp now) /\
    entity !! "updatedAt" = Some (stamp now) /\
    entity !! "id" = Some (default (JStr generated) (input !! "id")) /\
    (forall field,
       field <> "userId" -> field <> "createdAt" -> field <> "updatedAt" -> field <> "id" ->
       entity !! field = match input !! field with
                         | Some value => Some value
                         | None => defaults k !! field
                         end) /\
    (forall id, id <> generated -> snd out !! id = c !! id).
Proof.
  intros Hfree Hid. simpl. unfold create. rewrite Hfree. simpl.
  eexists. split; [reflexivity|].
  split; [|split; [|split; [|split; [|split; [|split]]]]].
  - apply getById_owned; [done|by rewrite lookup_insert_eq|].
    apply owned_spec. rewrite !lookup_insert_ne by done. by rewrite lookup_insert_eq.
  - unfold toEntity. apply lookup_union_Some_l.
    rewrite !lookup_insert_ne by done. by rewrite lookup_insert_eq.
  - unfold toEntity. apply lookup_union_Some_l.
    rewrite lookup_insert_ne by done. by rewrite lookup_insert_eq.
  - unfold toEntity. apply lookup_union_Some_l. by rewrite lookup_insert_eq.
  - unfold toEntity. rewrite lookup_union, !lookup_insert_ne by done.
    rewrite lookup_union, lookup_singleton_eq.
    assert (defaults k !! "id" = None) as -> by (by destruct k).
    by destruct (input !! "id").
  - intros field Hu Hc Hup Hi. unfold toEntity.
    rewrite lookup_union, !lookup_insert_ne by done.
    rewrite lookup_singleton_ne by done. rewrite lookup_union.
    by destruct (input !! field), (defaults k !! field).
  - intros id Hne. by rewrite lookup_insert_ne.
Qed.

Lemma created_document_belongs_to_the_caller_witness :
  let input : Doc := {[ "name" := JStr "Graphs"; "userId" := JStr "user-456" ]} in
  let out := create Category ∅ "user-123" input 1700000000000 "cat-1" in
  exists entity,
    fst out = Resolved entity /\
    getById Category (snd out) "user-123" "cat-1" = Resolved entity /\
    entity !! "userId" = Some (JStr "user-123") /\
    entity !! "createdAt" = Some (stamp 1700000000000) /\
    entity !! "updatedAt" = Some (stamp 1700000000000) /\
    entity !! "id" = Some (default (JStr "cat-1") (input !! "id")) /\
    (forall field,
       field <> "userId" -> field <> "createdAt" -> field <> "updatedAt" -> field <> "id" ->
       entity !! field = match input !! field with
                         | Some value => Some value
                         | None => defaults Category !! field
                         end) /\
    (forall id, id <> "cat-1" -> snd out !! id = (∅ : Collection) !! id).
Proof.
  assert ((∅ : Collection) !! "cat-1" = None) as Hfree by apply lookup_empty.
  assert ("cat-1" <> "") as Hid by discriminate.
  exact (created_document_belongs_to_the_caller Category ∅ "user-123"
           {[ "name" := JStr "Graphs"; "userId" := JStr "user-456" ]} 1700000000000 "cat-1"
           Hfree Hid).
Defined.

End Owners.
